(** * The RebbleOS application manager (rcore/appmanager.c)

    A shallow embedding of the application manager: the manifest (a singly
    linked list of [App] records on the C heap), the flash scanner, the
    lookup by name, the start/quit control surface, and the supervisor
    thread with its dynamic loader (image copy, GOT relocation, bss
    zeroing, symbol table poke, arena partition, task spawn).

    Conventions.
    - Pointers and addresses are integers; [NULL] is 0.
    - A function whose C counterpart can run into undefined behaviour (an
      access outside [app_stack_heap], a dangling record pointer, a send on
      a queue handle that is still NULL) or can fail to terminate (a walk
      over a cyclic manifest) returns [None] there.
    - 32-bit unsigned arithmetic is written out with [wrap32]. *)

From Stdlib Require Import ZArith Lia Ascii String.
From stdpp Require Import base option list gmap strings.

Open Scope Z_scope.

(** ** C strings *)

Module CString.

(** A [char] buffer is a [string]; the C string it denotes stops at the first
    NUL character (or at the end of the buffer contents we keep, which is
    where the terminator sits). *)

Definition code (c : ascii) : Z := Z.of_N (N_of_ascii c).

Definition head_code (s : string) : Z :=
  match s with
  | EmptyString => 0
  | String c _ => code c
  end.

Definition str_tail (s : string) : string :=
  match s with
  | EmptyString => EmptyString
  | String _ t => t
  end.

(** [strlen]: number of characters before the terminator. *)
Fixpoint strlen (s : string) : nat :=
  match s with
  | EmptyString => O
  | String c t => if code c =? 0 then O else S (strlen t)
  end.

(** The characters before the terminator: what [strcpy] copies. *)
Fixpoint cstr (s : string) : string :=
  match s with
  | EmptyString => EmptyString
  | String c t => if code c =? 0 then EmptyString else String c (cstr t)
  end.

Definition strcpy (src : string) : string := cstr src.

(** [strncmp s1 s2 n]: compares at most [n] characters as unsigned chars and
    stops after a NUL; zero when equal, otherwise the difference of the first
    two characters that differ. *)
Fixpoint strncmp (s1 s2 : string) (n : nat) : Z :=
  match n with
  | O => 0
  | S n' =>
      let c1 := head_code s1 in
      let c2 := head_code s2 in
      if c1 =? c2
      then (if c1 =? 0 then 0 else strncmp (str_tail s1) (str_tail s2) n')
      else c1 - c2
  end.

(** [p] is a prefix of [s]. *)
Definition is_prefix (p s : string) : Prop := ∃ t, s = (p +:+ t)%string.

Fixpoint is_prefixb (p s : string) : bool :=
  match p, s with
  | EmptyString, _ => true
  | String _ _, EmptyString => false
  | String a p', String b s' => if decide (a = b) then is_prefixb p' s' else false
  end.

End CString.

Import CString.

(** ** Data model *)

Definition NULL : Z := 0.

Definition wrap32 (x : Z) : Z := x mod 2 ^ 32.

(** [uint8_t type] of a record: the two values the source uses. *)
Inductive app_type := APP_TYPE_SYSTEM | APP_TYPE_FACE.

(** [struct App]: [name] holds the contents of the buffer [app->name] points
    to (it is written once, by [strcpy], and never shared); the other
    pointers are addresses. *)
Record App := mkApp {
  name : string;
  type : app_type;
  main : Z;
  header : Z;
  next : Z;
  slot_id : Z;
  is_internal : bool
}.

Definition set_next (a : App) (p : Z) : App :=
  mkApp (name a) (type a) (main a) (header a) p (slot_id a) (is_internal a).

(** [ApplicationHeader], the on-flash header, with the fields the manager
    reads. Integer fields hold the unsigned value stored in flash. *)
Record ApplicationHeader := mkHeader {
  hdr_header : string;            (* char header[8], the magic *)
  hdr_sdk_version : Z * Z;
  hdr_app_version : Z * Z;
  hdr_app_size : Z;
  hdr_offset : Z;
  hdr_crc : Z;
  hdr_name : string;
  hdr_company : string;
  hdr_icon_resource_id : Z;
  hdr_sym_table_addr : Z;
  hdr_flags : Z;
  hdr_reloc_entries_count : Z;
  hdr_virtual_size : Z
}.

Inductive msg_type := APP_BUTTON | APP_QUIT | APP_TICK.

(** What [void *payload] points to. *)
Inductive payload_t :=
| PNull
| PName (s : string)
| PButton (bmessage : Z)
| PTick (tmessage : Z).

(** [AppMessage]; [message_type_id] is [None] while it is uninitialised, as
    in the message [appmanager_app_start] builds. *)
Record AppMessage := mkMsg {
  message_type_id : option msg_type;
  payload : payload_t
}.

(** A FreeRTOS queue: its capacity and the pending items, oldest first. *)
Record queue := mkQueue {
  q_cap : nat;
  q_items : list AppMessage
}.

(** A task made by [xTaskCreateStatic]. *)
Record task := mkTask {
  t_entry : Z;
  t_name : string;
  t_stack_depth : Z;
  t_priority : Z;
  t_stack : Z
}.

Inductive queue_id := MessageQueue | ThreadQueue.

(** Calls into the rest of the system, recorded in program order. *)
Inductive event :=
| EvLog (fmt : string)
| EvFlashLoadHeader (slot : Z)
| EvFlashLoadApp (slot : Z) (size : Z)
| EvSend (q : queue_id) (m : AppMessage) (ticks : Z) (sent : bool)
| EvQueueReset (q : queue_id)
| EvHeapInit (size : Z) (start : Z)
| EvTaskCreate (t : task)
| EvTaskDelete (t : task)
| EvTaskDeleteSelf          (* vTaskDelete(NULL): the calling task is deleted *)
| EvAssert (what : string).

(** The module's static variables, the C heap with the [App] records, and
    the record of calls made so far.

    [calloc_plan] lists the outcomes of the coming [calloc] calls ([false]:
    the call returns NULL); once it is used up every call succeeds. *)
Record state := mkState {
  heap : gmap Z App;
  brk : Z;
  calloc_plan : list bool;
  _app_manifest_head : Z;
  _running_app : Z;
  _app_task_handle : option task;
  _app_thread_manager_task_handle : option task;
  _app_message_queue : option queue;
  _app_thread_queue : option queue;
  app_stack_heap : list Z;
  trace : list event
}.

Definition set_heap (st : state) (h : gmap Z App) : state :=
  mkState h (brk st) (calloc_plan st) (_app_manifest_head st) (_running_app st)
    (_app_task_handle st) (_app_thread_manager_task_handle st)
    (_app_message_queue st) (_app_thread_queue st) (app_stack_heap st) (trace st).

Definition set_alloc (st : state) (b : Z) (plan : list bool) : state :=
  mkState (heap st) b plan (_app_manifest_head st) (_running_app st)
    (_app_task_handle st) (_app_thread_manager_task_handle st)
    (_app_message_queue st) (_app_thread_queue st) (app_stack_heap st) (trace st).

Definition set_manifest_head (st : state) (p : Z) : state :=
  mkState (heap st) (brk st) (calloc_plan st) p (_running_app st)
    (_app_task_handle st) (_app_thread_manager_task_handle st)
    (_app_message_queue st) (_app_thread_queue st) (app_stack_heap st) (trace st).

Definition set_running_app (st : state) (p : Z) : state :=
  mkState (heap st) (brk st) (calloc_plan st) (_app_manifest_head st) p
    (_app_task_handle st) (_app_thread_manager_task_handle st)
    (_app_message_queue st) (_app_thread_queue st) (app_stack_heap st) (trace st).

Definition set_task_handle (st : state) (t : option task) : state :=
  mkState (heap st) (brk st) (calloc_plan st) (_app_manifest_head st) (_running_app st)
    t (_app_thread_manager_task_handle st)
    (_app_message_queue st) (_app_thread_queue st) (app_stack_heap st) (trace st).

Definition set_manager_task_handle (st : state) (t : option task) : state :=
  mkState (heap st) (brk st) (calloc_plan st) (_app_manifest_head st) (_running_app st)
    (_app_task_handle st) t
    (_app_message_queue st) (_app_thread_queue st) (app_stack_heap st) (trace st).

Definition set_message_queue (st : state) (q : option queue) : state :=
  mkState (heap st) (brk st) (calloc_plan st) (_app_manifest_head st) (_running_app st)
    (_app_task_handle st) (_app_thread_manager_task_handle st)
    q (_app_thread_queue st) (app_stack_heap st) (trace st).

Definition set_thread_queue (st : state) (q : option queue) : state :=
  mkState (heap st) (brk st) (calloc_plan st) (_app_manifest_head st) (_running_app st)
    (_app_task_handle st) (_app_thread_manager_task_handle st)
    (_app_message_queue st) q (app_stack_heap st) (trace st).

Definition set_arena (st : state) (a : list Z) : state :=
  mkState (heap st) (brk st) (calloc_plan st) (_app_manifest_head st) (_running_app st)
    (_app_task_handle st) (_app_thread_manager_task_handle st)
    (_app_message_queue st) (_app_thread_queue st) a (trace st).

Definition emit (st : state) (e : event) : state :=
  mkState (heap st) (brk st) (calloc_plan st) (_app_manifest_head st) (_running_app st)
    (_app_task_handle st) (_app_thread_manager_task_handle st)
    (_app_message_queue st) (_app_thread_queue st) (app_stack_heap st) (trace st ++ [e]).

Definition KERN_LOG (st : state) (fmt : string) : state := emit st (EvLog fmt).

(** ** Manifest store *)

(** [calloc]: a fresh block, or NULL when the plan says the call fails. *)
Definition calloc (st : state) : Z * state :=
  match calloc_plan st with
  | false :: plan => (NULL, set_alloc st (brk st) plan)
  | true :: plan => (brk st, set_alloc st (brk st + 1) plan)
  | [] => (brk st, set_alloc st (brk st + 1) [])
  end.

Definition _appmanager_create_app (st : state) (nm : string) (ty : app_type)
    (entry_point : Z) (internal : bool) (slot : Z) : Z * state :=
  let '(app, st1) := calloc st in
  if app =? NULL then (NULL, st1)
  else
    let '(name_buf, st2) := calloc st1 in
    if name_buf =? NULL then (NULL, st2)
    else
      (app, set_heap st2
              (<[app := mkApp (strcpy nm) ty entry_point NULL NULL slot internal]>
                 (heap st2))).

(** The [while (child->next) child = child->next;] walk. *)
Fixpoint last_node (fuel : nat) (h : gmap Z App) (child : Z) : option Z :=
  match fuel with
  | O => None
  | S fuel' =>
      a ← h !! child;
      if next a =? NULL then Some child else last_node fuel' h (next a)
  end.

Definition walk_fuel (st : state) : nat := S (S (size (heap st))).

Definition _appmanager_add_to_manifest (st : state) (app : Z) : option state :=
  if _app_manifest_head st =? NULL
  then Some (set_manifest_head st app)
  else
    child ← last_node (walk_fuel st) (heap st) (_app_manifest_head st);
    a ← heap st !! child;
    Some (set_heap st (<[child := set_next a app]> (heap st))).

(** [_appmanager_add_to_manifest(_appmanager_create_app(...))], the one way
    the source inserts a record. *)
Definition add_new (st : state) (nm : string) (ty : app_type) (entry_point : Z)
    (internal : bool) (slot : Z) : option state :=
  let '(app, st) := _appmanager_create_app st nm ty entry_point internal slot in
  _appmanager_add_to_manifest st app.

(** The [while (node)] loop of [appmanager_get_app]. *)
Fixpoint find_app (fuel : nat) (h : gmap Z App) (node : Z) (app_name : string)
    : option Z :=
  match fuel with
  | O => None
  | S fuel' =>
      if node =? NULL then Some NULL
      else
        a ← h !! node;
        if strncmp (name a) app_name (strlen (name a)) =? 0
        then Some node
        else find_app fuel' h (next a) app_name
  end.

Definition appmanager_get_app (st : state) (app_name : string) : option (Z * state) :=
  r ← find_app (walk_fuel st) (heap st) (_app_manifest_head st) app_name;
  if r =? NULL then Some (NULL, KERN_LOG st "NO App Found %s") else Some (r, st).

Definition app_manager_get_apps_head (st : state) : Z := _app_manifest_head st.

(** Following [next] from a record, as a caller of
    [app_manager_get_apps_head] does to enumerate the manifest. *)
Fixpoint walk (fuel : nat) (h : gmap Z App) (p : Z) : option (list Z) :=
  match fuel with
  | O => None
  | S fuel' =>
      if p =? NULL then Some []
      else a ← h !! p; l ← walk fuel' h (next a); Some (p :: l)
  end.

Definition manifest (st : state) : option (list Z) :=
  walk (walk_fuel st) (heap st) (app_manager_get_apps_head st).

Definition name_of (st : state) (p : Z) : option string := name <$> heap st !! p.

(** [lseg h p l]: following [next] from [p] visits exactly the records [l]
    and then reaches NULL. *)
Fixpoint lseg (h : gmap Z App) (p : Z) (l : list Z) : Prop :=
  match l with
  | [] => p = NULL
  | x :: l' => p = x ∧ x ≠ NULL ∧ ∃ a, h !! x = Some a ∧ lseg h (next a) l'
  end.

(** The stored name of record [p] is a prefix of the query: the test
    [!strncmp(node->name, app_name, strlen(node->name))] read as a
    property of the two C strings. *)
Definition name_matches (h : gmap Z App) (p : Z) (q : string) : Prop :=
  ∃ a, h !! p = Some a ∧ is_prefix (cstr (name a)) (cstr q).

(** [r] is what a lookup of [q] in the manifest [l] has to return: the first
    record of [l] whose name matches, or NULL when none does. *)
Definition first_match (h : gmap Z App) (l : list Z) (q : string) (r : Z) : Prop :=
  (r = NULL ∧ ∀ x, x ∈ l → ¬ name_matches h x q)
  ∨ (∃ i : nat, l !! i = Some r ∧ name_matches h r q
       ∧ ∀ (j : nat) x, (j < i)%nat → l !! j = Some x → ¬ name_matches h x q).

(** The next [n] calls of [calloc] succeed. *)
Definition plan_ok (n : nat) (plan : list bool) : Prop :=
  Forall (λ b, b = true) (take n plan).

(** Two records agree on everything but the [next] link. *)
Definition same_fields (a a' : App) : Prop := a' = set_next a (next a').

(** The heap is what [calloc] and [_appmanager_create_app] can have built:
    records sit at non-null addresses below [brk]. *)
Definition heap_ok (st : state) : Prop :=
  0 < brk st ∧ ∀ p, is_Some (heap st !! p) → 0 < p < brk st.

(** ** Queues and the public control surface *)

Definition xQueueCreate (cap : nat) : queue := mkQueue cap [].

Definition xQueueReset (q : queue) : queue := mkQueue (q_cap q) [].

(** [xQueueSendToBack] as its caller sees it when no other task takes an item
    during the wait: with room the item goes to the back (pdTRUE); a full
    queue is still full when the timeout ends (errQUEUE_FULL). *)
Definition xQueueSendToBack (q : queue) (m : AppMessage) : bool * queue :=
  if (length (q_items q) <? q_cap q)%nat
  then (true, mkQueue (q_cap q) (q_items q ++ [m]))
  else (false, q).

Definition quit_message : AppMessage := mkMsg (Some APP_QUIT) PNull.

Definition start_message (nm : string) : AppMessage := mkMsg None (PName nm).

(** The return value of the send is dropped, as in the source. *)
Definition appmanager_app_quit (st : state) : option state :=
  q ← _app_message_queue st;
  let '(sent, q') := xQueueSendToBack q quit_message in
  Some (emit (set_message_queue st (Some q')) (EvSend MessageQueue quit_message 10 sent)).

Definition appmanager_app_start (st : state) (nm : string) : option state :=
  st1 ← appmanager_app_quit st;
  let am := start_message nm in
  q ← _app_thread_queue st1;
  let '(sent, q') := xQueueSendToBack q am in
  Some (emit (set_thread_queue st1 (Some q')) (EvSend ThreadQueue am 100 sent)).

Definition appmanager_post_button_message (st : state) (bmessage : Z) : option state :=
  let am := mkMsg (Some APP_BUTTON) (PButton bmessage) in
  q ← _app_message_queue st;
  let '(sent, q') := xQueueSendToBack q am in
  Some (emit (set_message_queue st (Some q')) (EvSend MessageQueue am 10 sent)).

(** [xQueueSendToBackFromISR] never waits. *)
Definition appmanager_post_tick_message (st : state) (tmessage : Z) : option state :=
  let am := mkMsg (Some APP_TICK) (PTick tmessage) in
  q ← _app_message_queue st;
  let '(sent, q') := xQueueSendToBack q am in
  Some (emit (set_message_queue st (Some q')) (EvSend MessageQueue am 0 sent)).

(** ** The arena [app_stack_heap]: one buffer, read as bytes or as words *)

Module Arena.

Definition get_byte (a : list Z) (off : Z) : option Z :=
  if 0 <=? off then a !! Z.to_nat off else None.

Definition set_byte (a : list Z) (off : Z) (b : Z) : option (list Z) :=
  if (0 <=? off) && (off <? Z.of_nat (length a))
  then Some (<[Z.to_nat off := b]> a)
  else None.

(** [word_buf[k]] on the little-endian target. *)
Definition read_word (a : list Z) (k : Z) : option Z :=
  b0 ← get_byte a (4 * k);
  b1 ← get_byte a (4 * k + 1);
  b2 ← get_byte a (4 * k + 2);
  b3 ← get_byte a (4 * k + 3);
  Some (b0 + b1 * 2 ^ 8 + b2 * 2 ^ 16 + b3 * 2 ^ 24).

Definition write_word (a : list Z) (k : Z) (w : Z) : option (list Z) :=
  a0 ← set_byte a (4 * k) (Z.land w 255);
  a1 ← set_byte a0 (4 * k + 1) (Z.land (Z.shiftr w 8) 255);
  a2 ← set_byte a1 (4 * k + 2) (Z.land (Z.shiftr w 16) 255);
  set_byte a2 (4 * k + 3) (Z.land (Z.shiftr w 24) 255).

(** [memset(&byte_buf[off], c, n)]. *)
Definition memset (a : list Z) (off c n : Z) : option (list Z) :=
  if (0 <=? off) && (0 <=? n) && (off + n <=? Z.of_nat (length a))
  then Some (take (Z.to_nat off) a ++ replicate (Z.to_nat n) (Z.land c 255)
               ++ drop (Z.to_nat (off + n)) a)
  else None.

End Arena.

Import Arena.

(** ** The board: constants, addresses and flash contents the module is
    compiled and run against. *)

Record platform := mkPlatform {
  MAX_APP_MEMORY_SIZE : Z;
  MAX_APP_STACK_SIZE : Z;
  tskIDLE_PRIORITY : Z;
  arena_base : Z;                 (* address of app_stack_heap *)
  sym : Z;                        (* address of the symbol table *)
  systemapp_main : Z;
  simple_main : Z;
  nivz_main : Z;
  app_thread_entry : Z;           (* address of _appmanager_app_thread *)
  manager_stack : Z;              (* address of _app_thread_manager_stack *)
  flash_header : Z → ApplicationHeader;   (* flash_load_app_header *)
  flash_app : Z → Z → Z           (* byte of a slot's image at an offset *)
}.

Definition APP_THREAD_MANAGER_STACK_SIZE : Z := 300.

Section Manager.

Variable P : platform.

(** *** Flash scanner *)

Definition magic_ok (hd : ApplicationHeader) : bool :=
  strncmp (hdr_header hd) "PBLAPP" 6 =? 0.

Definition scan_slot (st : state) (i : Z) : option state :=
  let hd := flash_header P i in
  let st := emit st (EvFlashLoadHeader i) in
  if magic_ok hd then
    let st := KERN_LOG st "VALID App Found %s" in
    add_new st (hdr_name hd) APP_TYPE_FACE NULL false i
  else Some st.

(** [for (uint8_t i = ...; i < 32; i++)], with [n] rounds left. *)
Fixpoint scan_from (n : nat) (i : Z) (st : state) : option state :=
  match n with
  | O => Some st
  | S n' => st' ← scan_slot st i; scan_from n' (i + 1) st'
  end.

Definition _appmanager_flash_load_app_manifest (st : state) : option state :=
  scan_from 32 0 st.

(** *** Initialisation *)

Definition manager_task : task :=
  mkTask (app_thread_entry P) "App" APP_THREAD_MANAGER_STACK_SIZE
    (tskIDLE_PRIORITY P + 5) (manager_stack P).

Definition appmanager_init (st : state) : option state :=
  st ← add_new st "System" APP_TYPE_SYSTEM (systemapp_main P) true 0;
  st ← add_new st "Simple" APP_TYPE_FACE (simple_main P) true 0;
  st ← add_new st "NiVZ" APP_TYPE_FACE (nivz_main P) true 0;
  let st := set_task_handle st None in
  st ← _appmanager_flash_load_app_manifest st;
  let st := set_message_queue st (Some (xQueueCreate 5)) in
  let st := set_thread_queue st (Some (xQueueCreate 1)) in
  st ← appmanager_app_start st "System";
  let st := emit (set_manager_task_handle st (Some manager_task)) (EvTaskCreate manager_task) in
  Some (KERN_LOG st "App thread created").

(** The statics before [appmanager_init]: all zero; [calloc] had handed out
    nothing yet. *)
Definition boot (plan : list bool) : state :=
  mkState ∅ 1 plan NULL NULL None None None None
    (replicate (Z.to_nat (MAX_APP_MEMORY_SIZE P)) 0) [].


(** *** Dynamic loader *)

(** [flash_load_app(slot, byte_buf, size)]: the first [size] bytes of the
    slot's image land at the start of the arena. *)
Definition flash_load_app (slot : Z) (a : list Z) (size : Z) : option (list Z) :=
  if (0 <=? size) && (size <=? Z.of_nat (length a))
  then Some ((flash_app P slot <$> seqZ 0 size) ++ drop (Z.to_nat size) a)
  else None.

(** One round of the reloc loop, for [got[i]] with [got] the index of the
    table in [word_buf]. *)
Definition reloc_entry (a : list Z) (got i : Z) : option (list Z) :=
  r ← read_word a (got + i);
  existing ← read_word a (r / 4);
  let existing := existing / 4 in
  let wb := wrap32 (arena_base P + 4 * existing) in
  write_word a (r / 4) wb.

Fixpoint reloc_loop (n : nat) (i : Z) (got : Z) (a : list Z) : option (list Z) :=
  match n with
  | O => Some a
  | S n' => a' ← reloc_entry a got i; reloc_loop n' (i + 1) got a'
  end.

Definition relocate_got (a : list Z) (hd : ApplicationHeader) : option (list Z) :=
  let got := hdr_app_size hd / 4 in
  if 0 <? hdr_reloc_entries_count hd
  then reloc_loop (Z.to_nat (hdr_reloc_entries_count hd)) 0 got a
  else Some a.

Definition zero_bss (a : list Z) (hd : ApplicationHeader) : option (list Z) :=
  let bss_size := wrap32 (hdr_virtual_size hd - hdr_app_size hd) in
  memset a (hdr_app_size hd) 0 bss_size.

Definition poke_sym_table (a : list Z) (hd : ApplicationHeader) : option (list Z) :=
  let s := wrap32 (sym P) in
  let at_ := hdr_sym_table_addr hd in
  a ← set_byte a at_ (Z.land s 255);
  a ← set_byte a (wrap32 (at_ + 1)) (Z.land (Z.shiftr s 8) 255);
  a ← set_byte a (wrap32 (at_ + 2)) (Z.land (Z.shiftr s 16) 255);
  set_byte a (wrap32 (at_ + 3)) (Z.land (Z.shiftr s 24) 255).

(** The arena after the image copy and the GOT relocation. *)
Definition load_and_relocate (a : list Z) (slot : Z) (hd : ApplicationHeader)
    : option (list Z) :=
  a ← flash_load_app slot a
        (wrap32 (hdr_app_size hd + wrap32 (hdr_reloc_entries_count hd * 4)));
  relocate_got a hd.

Definition header_logs : list string :=
  ["App signature:"; "H:    %s"; "SDKv: %d.%d"; "Appv: %d.%d"; "AppSz:%x";
   "AppOf:0x%x"; "AppCr:%d"; "Name: %s"; "Cmpy: %s"; "Icon: %d"; "Sym:  0x%x";
   "Flags:%d"; "Reloc:%d"; "VSize 0x%x"]%string.

(** The [!app->is_internal] branch of the supervisor. *)
Definition load_and_spawn (st : state) (app : App) : option state :=
  let hd := flash_header P (slot_id app) in
  let st := emit st (EvFlashLoadHeader (slot_id app)) in
  let st := emit st (EvFlashLoadApp (slot_id app)
                  (wrap32 (hdr_app_size hd + wrap32 (hdr_reloc_entries_count hd * 4)))) in
  a ← load_and_relocate (app_stack_heap st) (slot_id app) hd;
  a ← zero_bss a hd;
  let total_app_size := hdr_virtual_size hd in
  a ← poke_sym_table a hd;
  let st := set_arena st a in
  let st := foldl KERN_LOG st header_logs in
  let stack_size := wrap32 (MAX_APP_STACK_SIZE P) in
  let stack_entry := arena_base P + 4 * wrap32 (MAX_APP_MEMORY_SIZE P / 4 - stack_size) in
  let heap_size :=
    wrap32 (wrap32 (MAX_APP_MEMORY_SIZE P - total_app_size) - wrap32 (stack_size * 4)) in
  let heap_entry := arena_base P + total_app_size in
  let st := KERN_LOG st "Base %x heap %x sz %d stack %x sz %d" in
  let st := emit st (EvHeapInit heap_size heap_entry) in
  let t := mkTask (arena_base P + hdr_offset hd) "dynapp" stack_size
             (tskIDLE_PRIORITY P + 6) stack_entry in
  Some (emit (set_task_handle st (Some t)) (EvTaskCreate t)).

(** The [else] branch: an internal application. The first parameter of
    [appHeapInit] is a [size_t]: the size is converted to 32 bits. *)
Definition spawn_internal (st : state) : option state :=
  let st := emit st (EvHeapInit (wrap32 (MAX_APP_MEMORY_SIZE P - MAX_APP_STACK_SIZE P * 4))
                       (arena_base P)) in
  let stack_entry :=
    arena_base P + 4 * (MAX_APP_MEMORY_SIZE P / 4 - MAX_APP_STACK_SIZE P) in
  running ← heap st !! _running_app st;
  let t := mkTask (main running) "dynapp" (MAX_APP_STACK_SIZE P)
             (tskIDLE_PRIORITY P + 6) stack_entry in
  Some (emit (set_task_handle st (Some t)) (EvTaskCreate t)).

(** *** Supervisor thread *)

(** How one round of the [for (;;)] loop ends: [Continue] goes round again
    (back to [xQueueReceive]); [Returned] leaves [_appmanager_app_thread]
    through a [return]. *)
Inductive outcome :=
| Continue (st : state)
| Returned (st : state).

(** The body of the loop, for the message [am] just received. *)
Definition app_thread_body (st : state) (am : AppMessage) : option outcome :=
  app_name ← (match payload am with PName s => Some s | _ => None end);
  let st := KERN_LOG st "Starting app %s" in
  mq ← _app_message_queue st;
  let st := emit (set_message_queue st (Some (xQueueReset mq))) (EvQueueReset MessageQueue) in
  if _app_manifest_head st =? NULL then
    Some (Returned (emit (KERN_LOG st "No Apps found!") (EvAssert "No Apps")))
  else
    '(app, st) ← appmanager_get_app st app_name;
    if app =? NULL then Some (Returned st)
    else
      let st := set_running_app st app in
      let st := match _app_task_handle st with
                | Some t => emit st (EvTaskDelete t)
                | None => st
                end in
      a ← heap st !! app;
      if negb (is_internal a)
      then Continue <$> load_and_spawn st a
      else Continue <$> spawn_internal st.

Inductive thread_status :=
| Blocked      (* inside xQueueReceive(_app_thread_queue, .., portMAX_DELAY) *)
| Exited.      (* the task function has returned *)

(** [_appmanager_app_thread] run until it blocks on an empty thread queue or
    returns; [pending] are the items of the thread queue, which the body
    never sends to. *)
Fixpoint thread_loop (pending : list AppMessage) (cap : nat) (st : state)
    : option (thread_status * state) :=
  match pending with
  | [] => Some (Blocked, st)
  | am :: rest =>
      o ← app_thread_body (set_thread_queue st (Some (mkQueue cap rest))) am;
      match o with
      | Continue st' => thread_loop rest cap st'
      | Returned st' => Some (Exited, st')
      end
  end.

Definition _appmanager_app_thread (st : state) : option (thread_status * state) :=
  q ← _app_thread_queue st;
  thread_loop (q_items q) (q_cap q) st.

(** *** The manager and its callers over time *)

(** The memory together with whether the supervisor task still runs its
    loop. *)
Record system := mkSystem {
  supervisor : thread_status;
  mem : state
}.

Inductive action :=
| CallStart (nm : string)       (* some task calls appmanager_app_start *)
| CallQuit
| CallPostButton (bmessage : Z)
| CallPostTick (tmessage : Z)
| RunSupervisor.                (* the scheduler lets the supervisor run *)

Definition sys_step (s : system) (act : action) : option system :=
  match act with
  | CallStart nm => mkSystem (supervisor s) <$> appmanager_app_start (mem s) nm
  | CallQuit => mkSystem (supervisor s) <$> appmanager_app_quit (mem s)
  | CallPostButton b => mkSystem (supervisor s) <$> appmanager_post_button_message (mem s) b
  | CallPostTick t => mkSystem (supervisor s) <$> appmanager_post_tick_message (mem s) t
  | RunSupervisor =>
      match supervisor s with
      | Exited => Some s
      | Blocked => '(status, st) ← _appmanager_app_thread (mem s); Some (mkSystem status st)
      end
  end.

Fixpoint sys_run (s : system) (acts : list action) : option system :=
  match acts with
  | [] => Some s
  | act :: rest => s' ← sys_step s act; sys_run s' rest
  end.

(** The tasks created so far, in order. *)
Definition tasks_created (st : state) : list task :=
  omap (λ e, match e with EvTaskCreate t => Some t | _ => None end) (trace st).

End Manager.

(** ** Executions *)

(** The states the module can be in: the statics as they are at boot, and
    whatever the entry points and the supervisor make of them. The two
    insertion steps are listed on their own, so that the states inside
    [appmanager_init] and inside the scanner are covered as well. *)
Inductive reachable (P : platform) : state → Prop :=
| reach_boot plan :
    reachable P (boot P plan)
| reach_add_new st nm ty e i s st' :
    reachable P st → add_new st nm ty e i s = Some st' → reachable P st'
| reach_scan_slot st i st' :
    reachable P st → scan_slot P st i = Some st' → reachable P st'
| reach_init st st' :
    reachable P st → appmanager_init P st = Some st' → reachable P st'
| reach_start st nm st' :
    reachable P st → appmanager_app_start st nm = Some st' → reachable P st'
| reach_quit st st' :
    reachable P st → appmanager_app_quit st = Some st' → reachable P st'
| reach_post_button st b st' :
    reachable P st → appmanager_post_button_message st b = Some st' → reachable P st'
| reach_post_tick st t st' :
    reachable P st → appmanager_post_tick_message st t = Some st' → reachable P st'
| reach_get_app st q r st' :
    reachable P st → appmanager_get_app st q = Some (r, st') → reachable P st'
| reach_supervisor st status st' :
    reachable P st → _appmanager_app_thread P st = Some (status, st') → reachable P st'.

(** The values [i] takes in [n] rounds of a loop that starts at [i] and
    counts up. *)
Fixpoint slot_range (n : nat) (i : Z) : list Z :=
  match n with
  | O => []
  | S n' => i :: slot_range n' (i + 1)
  end.

(** No coming [calloc] call fails. *)
Definition plan_all (plan : list bool) : Prop := Forall (λ b, b = true) plan.

(** The part of the state the manifest lives in is the same in both. *)
Definition same_store (st st' : state) : Prop :=
  heap st' = heap st ∧ brk st' = brk st
  ∧ _app_manifest_head st' = _app_manifest_head st.

(** Slot [i] passes the scanner's magic test. *)
Definition has_magic (P : platform) (i : Z) : Prop :=
  magic_ok (flash_header P i) = true.

#[global] Instance has_magic_dec P i : Decision (has_magic P i).
Proof. unfold has_magic. apply _. Defined.

Definition outcome_state (o : outcome) : state :=
  match o with Continue st | Returned st => st end.

(** The flash header reads in a trace, in order. *)
Definition probes (tr : list event) : list Z :=
  omap (λ e, match e with EvFlashLoadHeader i => Some i | _ => None end) tr.

(** Record [p] is the one the scanner makes for slot [i]. *)
Definition scanned_record (P : platform) (h : gmap Z App) (p i : Z) : Prop :=
  ∃ a, h !! p = Some a
    ∧ name a = cstr (hdr_name (flash_header P i))
    ∧ type a = APP_TYPE_FACE ∧ is_internal a = false
    ∧ main a = NULL ∧ slot_id a = i.

(** Record [p] is the built-in application [nm]. *)
Definition builtin_record (h : gmap Z App) (p : Z) (nm : string) (ty : app_type)
    (entry_point : Z) : Prop :=
  ∃ a, h !! p = Some a
    ∧ name a = nm ∧ type a = ty ∧ main a = entry_point
    ∧ is_internal a = true ∧ slot_id a = 0.

(** The names of the manifest's records, from the head on. *)
Definition manifest_names (st : state) : option (list string) :=
  l ← manifest st; mapM (name_of st) l.

(** ** Sample boards *)

Definition blank_header : ApplicationHeader :=
  mkHeader "" (0, 0) (0, 0) 0 0 0 "" "" 0 0 0 0 0.

(** A board with a 64-byte arena, a 4-word application stack and nothing in
    flash. *)
Definition bare_board : platform :=
  mkPlatform 64 4 0 536870912 134217728 1001 1002 1003 1004 1005
    (λ _, blank_header) (λ _ _, 0).

(** A header with the magic, for an 8-byte image with one reloc entry. *)
Definition test_header : ApplicationHeader :=
  mkHeader "PBLAPP" (5, 0) (1, 0) 8 0 0 "TestApp" "Rebble" 0 4 0 1 16.

(** The bare board with that application in slot 5. Its image: the word 5
    at offset 0, a zero word, then the reloc table with the one entry 0. *)
Definition one_app_board : platform :=
  mkPlatform 64 4 0 536870912 134217728 1001 1002 1003 1004 1005
    (λ i, if i =? 5 then test_header else blank_header)
    (λ i off, if (i =? 5) && (off =? 0) then 5 else 0).



(** The arena of the sample board once the image of slot 5 is copied and
    relocated. *)
Definition relocated_arena : list Z :=
  default [] (load_and_relocate one_app_board (replicate 64%nat 0) 5 test_header).

(** The sample board with an application in slot 5 whose [virtual_size], 56
    bytes, leaves less than the 16 bytes of stack in the 64-byte arena. *)
Definition big_header : ApplicationHeader :=
  mkHeader "PBLAPP" (5, 0) (1, 0) 8 0 0 "BigApp" "Rebble" 0 4 0 0 56.

Definition big_bss_board : platform :=
  mkPlatform 64 4 0 536870912 134217728 1001 1002 1003 1004 1005
    (λ i, if i =? 5 then big_header else blank_header)
    (λ _ _, 0).

(** A board after [appmanager_init]; the supervisor task, just created,
    has not run yet. *)
Definition booted (P : platform) : system :=
  mkSystem Blocked (default (boot P []) (appmanager_init P (boot P []))).

(** The state the supervisor is in when it branches on [is_internal]: the
    message queue [mq] reset, [app] made the running application, the task
    of the application before it deleted. *)
Definition before_spawn (st : state) (mq : queue) (app : Z) : state :=
  let st0 := emit (set_message_queue (KERN_LOG st "Starting app %s")
                     (Some (xQueueReset mq))) (EvQueueReset MessageQueue) in
  let st1 := set_running_app st0 app in
  match _app_task_handle st1 with
  | Some t => emit st1 (EvTaskDelete t)
  | None => st1
  end.

(** That board with System running and a start request for BigApp in the
    thread queue. *)
Definition big_start_state : state :=
  mem (default (booted big_bss_board)
         (sys_run big_bss_board (booted big_bss_board) [RunSupervisor; CallStart "BigApp"])).

(** The bare board with System running and five button messages that
    nobody took from the message queue: the queue is full. *)
Definition full_queue_state : state :=
  mem (default (booted bare_board)
         (sys_run bare_board (booted bare_board)
            [RunSupervisor; CallPostButton 11; CallPostButton 12; CallPostButton 13;
             CallPostButton 14; CallPostButton 15])).

(** The items of a queue handle ([[]] for a NULL handle). *)
Definition items_of (q : option queue) : list AppMessage :=
  match q with Some q => q_items q | None => [] end.

(** The manifest holds the System record (at address 1); a second record,
    created but not yet inserted, sits at address 3. *)
Definition spare_record_state : state :=
  let st := default (boot bare_board [])
              (add_new (boot bare_board []) "System" APP_TYPE_SYSTEM 1001 true 0) in
  (_appmanager_create_app st "Simple" APP_TYPE_FACE 1002 true 0).2.

(** The manifest of scenario S5: a record named S, then one named System. *)
Definition s5_state : state :=
  default (boot bare_board [])
    (st ← add_new (boot bare_board []) "S" APP_TYPE_FACE 1002 true 0;
     add_new st "System" APP_TYPE_SYSTEM 1001 true 0).

(** ** One step of an execution *)

(** The statics that the manifest functions never write. *)
Definition same_statics (st st' : state) : Prop :=
  _running_app st' = _running_app st
  ∧ _app_task_handle st' = _app_task_handle st
  ∧ _app_thread_manager_task_handle st' = _app_thread_manager_task_handle st
  ∧ _app_message_queue st' = _app_message_queue st
  ∧ _app_thread_queue st' = _app_thread_queue st
  ∧ app_stack_heap st' = app_stack_heap st.

(** Every record of [h] is still there in [h'], changed at most in its
    [next] link. *)
Definition keeps (h h' : gmap Z App) : Prop :=
  ∀ x a, h !! x = Some a → ∃ n, h' !! x = Some (set_next a n).

(** From [st] to [st'] the manifest [l] has only grown at its end, by
    records that were not there before. *)
Definition grows (st st' : state) (l : list Z) : Prop :=
  ∃ ext, manifest st' = Some (l ++ ext)
    ∧ heap_ok st' ∧ keeps (heap st) (heap st')
    ∧ ∀ p, p ∈ ext → heap st !! p = None.

(** The moves [reachable] is closed under, as a relation between the state
    before and the state after. *)
Inductive step (P : platform) : state → state → Prop :=
| step_add_new st nm ty e i s st' :
    add_new st nm ty e i s = Some st' → step P st st'
| step_scan_slot st i st' :
    scan_slot P st i = Some st' → step P st st'
| step_init st st' :
    appmanager_init P st = Some st' → step P st st'
| step_start st nm st' :
    appmanager_app_start st nm = Some st' → step P st st'
| step_quit st st' :
    appmanager_app_quit st = Some st' → step P st st'
| step_post_button st b st' :
    appmanager_post_button_message st b = Some st' → step P st st'
| step_post_tick st t st' :
    appmanager_post_tick_message st t = Some st' → step P st st'
| step_get_app st q r st' :
    appmanager_get_app st q = Some (r, st') → step P st st'
| step_supervisor st status st' :
    _appmanager_app_thread P st = Some (status, st') → step P st st'.

(** ** The application task: click handlers, event loop, resource proxies *)

(** Calls from the application task into the window, button and time
    services, in program order. *)
Inductive ui_call :=
| UiWindowLoadProc
| UiWindowLoadClickConfig
| UiSubscribeSelect
| UiWindowDirty
| UiButtonCallback (bmessage : Z)
| UiTickCallback (tmessage : Z)
| UiButtonUnsubscribeAll
| UiTimeServiceUnsubscribe
| UiMenuSelect.

(** What runs in the application task sees the manager's state and adds to
    the calls made so far. *)
Definition world : Type := state * list ui_call.

(** The function a [ButtonMessage] or [TickMessage] points to: one of the
    handlers of this file, or code from elsewhere, given by what it does to
    the manager's state. *)
Inductive handler :=
| HSelectSingleClick
| HBackLongClick
| HBackLongClickRelease
| HForeign (effect : state → option state).

Record ButtonMessage := mkButtonMessage {
  bm_callback : handler;
  bm_clickref : Z;
  bm_context : Z
}.

Record TickMessage := mkTickMessage {
  tm_callback : handler;
  tm_tick_time : Z;
  tm_tick_units : Z
}.

(** The messages that the payload pointers of the queue items point to. *)
Record app_env := mkAppEnv {
  button_at : Z → ButtonMessage;
  tick_at : Z → TickMessage
}.

Definition back_long_click_handler (w : world) : option world :=
  running ← heap w.1 !! _running_app w.1;
  match type running with
  | APP_TYPE_FACE => Some (KERN_LOG w.1 "TODO: Quiet time", w.2)
  | APP_TYPE_SYSTEM => st ← appmanager_app_start w.1 "Simple"; Some (st, w.2)
  end.

Definition back_long_click_release_handler (w : world) : option world := Some w.

Definition app_select_single_click_handler (w : world) : option world :=
  running ← heap w.1 !! _running_app w.1;
  match type running with
  | APP_TYPE_FACE => st ← appmanager_app_start w.1 "System"; Some (st, w.2)
  | APP_TYPE_SYSTEM => Some (w.1, w.2 ++ [UiMenuSelect])
  end.

Definition call_handler (h : handler) (w : world) : option world :=
  match h with
  | HSelectSingleClick => app_select_single_click_handler w
  | HBackLongClick => back_long_click_handler w
  | HBackLongClickRelease => back_long_click_release_handler w
  | HForeign effect => st ← effect w.1; Some (st, w.2)
  end.

(** How a run of the event loop ends: [Waiting] inside [xQueueReceive] on an
    empty message queue (the loop goes round on every timeout), or
    [Quitted] after a quit message. *)
Inductive loop_status := Waiting | Quitted.

Section AppTask.

Variable E : app_env.

(** [app_event_loop] up to its [for (;;)]. *)
Definition app_event_loop_enter (w : world) : option world :=
  let st := KERN_LOG w.1 "App entered mainloop" in
  let ui := w.2 ++ [UiWindowLoadProc; UiWindowLoadClickConfig] in
  running ← heap st !! _running_app st;
  let ui := match type running with
            | APP_TYPE_SYSTEM => ui
            | APP_TYPE_FACE => ui ++ [UiSubscribeSelect]
            end in
  Some (st, ui ++ [UiWindowDirty]).

(** What the loop does with the message [data] it has just received. *)
Definition dispatch (data : AppMessage) (w : world) : option (loop_status * world) :=
  match message_type_id data with
  | Some APP_BUTTON =>
      match payload data with
      | PButton b =>
          w' ← call_handler (bm_callback (button_at E b)) (w.1, w.2 ++ [UiButtonCallback b]);
          Some (Waiting, w')
      | _ => None
      end
  | Some APP_TICK =>
      match payload data with
      | PTick t =>
          w' ← call_handler (tm_callback (tick_at E t)) (w.1, w.2 ++ [UiTickCallback t]);
          Some (Waiting, w')
      | _ => None
      end
  | Some APP_QUIT =>
      let ui := w.2 ++ [UiButtonUnsubscribeAll; UiTimeServiceUnsubscribe] in
      let st := KERN_LOG w.1 "App Quit" in
      (* vTaskDelete(_app_task_handle), whatever the handle holds *)
      let st := emit st (match _app_task_handle st with
                         | Some t => EvTaskDelete t
                         | None => EvTaskDeleteSelf
                         end) in
      Some (Quitted, (st, ui))
  | None => None
  end.

(** The [for (;;)] loop, for at most [fuel] messages. *)
Fixpoint event_loop_run (fuel : nat) (w : world) : option (loop_status * world) :=
  match fuel with
  | O => None
  | S fuel' =>
      q ← _app_message_queue w.1;
      match q_items q with
      | [] => Some (Waiting, w)
      | data :: rest =>
          let st := set_message_queue w.1 (Some (mkQueue (q_cap q) rest)) in
          r ← dispatch data (st, w.2);
          match r with
          | (Quitted, w') => Some (Quitted, w')
          | (Waiting, w') => event_loop_run fuel' w'
          end
      end
  end.

Definition app_event_loop (fuel : nat) (w : world) : option (loop_status * world) :=
  w' ← app_event_loop_enter w; event_loop_run fuel w'.

End AppTask.



(** The bare board after [appmanager_init] and a first run of the
    supervisor: System is the running application. *)
Definition system_running_state : state :=
  mem (default (booted bare_board) (sys_run bare_board (booted bare_board) [RunSupervisor])).


(** The arena of the sample board with the image of slot 5 copied in, not
    yet relocated. *)
Definition copied_arena : list Z :=
  default [] (flash_load_app one_app_board 5 (replicate 64%nat 0) 12).

(** The task creations and deletions in a trace, in order. *)
Definition task_events (tr : list event) : list event :=
  omap (λ e, match e with
             | EvTaskCreate _ | EvTaskDelete _ | EvTaskDeleteSelf => Some e
             | _ => None
             end) tr.

(** Byte [j] of the 32-bit value [w], as the symbol table poke writes it. *)
Definition byte_of (w : Z) (j : Z) : Z := Z.land (Z.shiftr w (8 * j)) 255.

(** The task the supervisor creates for an image with header [hd], and the
    size of the heap it sets up before. *)
Definition loaded_task (P : platform) (hd : ApplicationHeader) : task :=
  mkTask (arena_base P + hdr_offset hd) "dynapp" (wrap32 (MAX_APP_STACK_SIZE P))
    (tskIDLE_PRIORITY P + 6)
    (arena_base P
     + 4 * wrap32 (MAX_APP_MEMORY_SIZE P / 4 - wrap32 (MAX_APP_STACK_SIZE P))).

Definition loaded_heap_size (P : platform) (hd : ApplicationHeader) : Z :=
  wrap32 (MAX_APP_MEMORY_SIZE P - hdr_virtual_size hd - MAX_APP_STACK_SIZE P * 4).

(** The task the supervisor creates for the internal record [a]. *)
Definition internal_task (P : platform) (a : App) : task :=
  mkTask (main a) "dynapp" (MAX_APP_STACK_SIZE P) (tskIDLE_PRIORITY P + 6)
    (arena_base P + 4 * (MAX_APP_MEMORY_SIZE P / 4 - MAX_APP_STACK_SIZE P)).

(** The state of a supervisor round once the message queue [mq] is reset. *)
Definition after_reset (st : state) (mq : queue) : state :=
  emit (set_message_queue (KERN_LOG st "Starting app %s") (Some (xQueueReset mq)))
    (EvQueueReset MessageQueue).

(** The bare board after an [appmanager_init] during which [calloc] fails
    for all three built-in records: the manifest is empty. *)
Definition no_memory_state : state :=
  default (boot bare_board [])
    (appmanager_init bare_board (boot bare_board [false; false; false])).

(** The queue item [appmanager_post_button_message] sends for [bmessage]. *)
Definition button_message (bmessage : Z) : AppMessage :=
  mkMsg (Some APP_BUTTON) (PButton bmessage).

(** [appmanager_post_button_message] called for each of [bs] in turn. *)
Fixpoint post_buttons (st : state) (bs : list Z) : option state :=
  match bs with
  | [] => Some st
  | b :: bs' => st' ← appmanager_post_button_message st b; post_buttons st' bs'
  end.

(** Button messages for the samples: number 1 is bound to the select
    handler of this file, number 2 to the long back press, the others to
    the empty release handler. *)
Definition sample_env : app_env :=
  mkAppEnv
    (λ b, mkButtonMessage
            (if b =? 1 then HSelectSingleClick
             else if b =? 2 then HBackLongClick else HBackLongClickRelease) 0 0)
    (λ t, mkTickMessage HBackLongClickRelease 0 0).

(** The bare board with the watchface Simple running, started from the
    launcher. *)
Definition face_running_state : state :=
  mem (default (booted bare_board)
         (sys_run bare_board (booted bare_board)
            [RunSupervisor; CallStart "Simple"; RunSupervisor])).

(** That state with a press of button 1 posted. *)
Definition clicked_face_state : state :=
  default face_running_state (appmanager_post_button_message face_running_state 1).

(** The launcher running with a press of button 2 posted. *)
Definition long_press_state : state :=
  default system_running_state (appmanager_post_button_message system_running_state 2).

(** The bare board with System running and a request for Simple made: the
    Quit waits in the message queue, the request in the thread queue. *)
Definition quit_pending_state : state :=
  mem (default (booted bare_board)
         (sys_run bare_board (booted bare_board) [RunSupervisor; CallStart "Simple"])).


(** * Properties *)

(** ** C strings *)

Section CStringFacts.

Lemma append_cons c (s t : string) : (String c s +:+ t)%string = String c (s +:+ t).
Proof. reflexivity. Qed.

Lemma append_nil (t : string) : (EmptyString +:+ t)%string = t.
Proof. reflexivity. Qed.

Lemma code_inj a b : code a = code b → a = b.
Proof.
  unfold code. intros H. apply N2Z.inj in H.
  rewrite <- (ascii_N_embedding a), <- (ascii_N_embedding b). by rewrite H.
Qed.

Lemma is_prefixb_spec p s : is_prefixb p s = true ↔ is_prefix p s.
Proof.
  revert s. induction p as [|a p IH]; intros s; simpl.
  - split; [intros _; by exists s | done].
  - destruct s as [|b s].
    + split; [done | intros [t Ht]; discriminate].
    + destruct (decide (a = b)) as [->|Hne].
      * rewrite IH. split; intros [t Ht]; exists t;
          rewrite append_cons in *; congruence.
      * split; [done | intros [t Ht]; rewrite append_cons in Ht; congruence].
Qed.

Lemma cstr_idemp s : cstr (cstr s) = cstr s.
Proof.
  induction s as [|c t IH]; simpl; [done|].
  destruct (code c =? 0) eqn:E; simpl; [done|]. by rewrite E, IH.
Qed.

Lemma strlen_cstr s : strlen (cstr s) = strlen s.
Proof.
  induction s as [|c t IH]; simpl; [done|].
  destruct (code c =? 0) eqn:E; simpl; [done|]. by rewrite E, IH.
Qed.

(** The comparison the manifest lookup and the scanner rely on:
    [strncmp a b (strlen a)] is zero exactly when the C string in [a] is a
    prefix of the C string in [b]. *)
Lemma strncmp_strlen_prefix a b :
  strncmp a b (strlen a) = 0 ↔ is_prefix (cstr a) (cstr b).
Proof.
  revert b. induction a as [|c a IH]; intros b; simpl.
  - split; [intros _; by exists (cstr b) | done].
  - destruct (code c =? 0) eqn:Ec; simpl.
    + split; [intros _; by exists (cstr b) | done].
    + destruct b as [|d b]; simpl.
      * rewrite Ec. split; [lia | intros [t Ht]; discriminate].
      * destruct (code c =? code d) eqn:Ecd.
        -- apply Z.eqb_eq in Ecd. pose proof (code_inj _ _ Ecd) as ->.
           rewrite Ec. rewrite IH.
           split; intros [t Ht]; exists t;
             rewrite append_cons in *; congruence.
        -- apply Z.eqb_neq in Ecd. split; [lia|].
           intros [t Ht]. rewrite append_cons in Ht.
           destruct (code d =? 0); [discriminate|]. congruence.
Qed.

(** With no NUL inside, a buffer is its own C string. *)
Lemma strncmp_literal_prefix (lit s : string) :
  cstr lit = lit → (strncmp s lit (strlen lit) = 0 ↔ is_prefix lit s).
Proof.
  revert s. induction lit as [|c lit IH]; intros s Hlit; simpl in *.
  - split; [intros _; by exists s | done].
  - destruct (code c =? 0) eqn:Ec; [discriminate|]. simpl.
    assert (cstr lit = lit) as Hl by congruence.
    destruct s as [|d s]; simpl.
    + apply Z.eqb_neq in Ec.
      destruct (code c); [lia | |];
        (split; [intros H; lia | intros [t Ht]; discriminate]).
    + destruct (code d =? code c) eqn:Ecd.
      * apply Z.eqb_eq in Ecd. pose proof (code_inj _ _ Ecd) as ->.
        rewrite Ec, (IH s Hl).
        split; intros [t Ht]; exists t; rewrite append_cons in *; congruence.
      * apply Z.eqb_neq in Ecd. split; [lia|].
        intros [t Ht]. rewrite append_cons in Ht. congruence.
Qed.

End CStringFacts.

(** ** The manifest as a null-terminated list *)

Section ManifestFacts.

Implicit Types (h : gmap Z App) (l : list Z) (p x : Z) (st : state).

Lemma lseg_insert_other h p l x a :
  x ∉ l → lseg h p l → lseg (<[x := a]> h) p l.
Proof.
  revert p. induction l as [|y l IH]; intros p Hx; simpl; [done|].
  intros (-> & Hn & b & Hb & Hl). apply not_elem_of_cons in Hx as [Hxy Hxl].
  split_and!; [done..|]. exists b. split; [by rewrite lookup_insert_ne | by apply IH].
Qed.

Lemma lseg_functional h p l1 l2 : lseg h p l1 → lseg h p l2 → l1 = l2.
Proof.
  revert p l2. induction l1 as [|y l1 IH]; intros p [|z l2]; simpl.
  - done.
  - intros -> (<- & Hn & _). done.
  - intros (-> & Hn & _) ->. done.
  - intros (-> & _ & a & Ha & H1) (<- & _ & b & Hb & H2).
    f_equal. rewrite Ha in Hb. injection Hb as <-. by eapply IH.
Qed.

Lemma lseg_suffix h p l1 l2 : lseg h p (l1 ++ l2) → ∃ q, lseg h q l2.
Proof.
  revert p. induction l1 as [|y l1 IH]; intros p; simpl.
  - intros H. by exists p.
  - intros (_ & _ & a & _ & H). by eapply IH.
Qed.

Lemma lseg_head h p x l : lseg h p (x :: l) → p = x.
Proof. by intros [-> _]. Qed.

Lemma lseg_NoDup h p l : lseg h p l → NoDup l.
Proof.
  revert p. induction l as [|y l IH]; intros p H; [constructor|].
  pose proof H as (-> & Hn & a & Ha & Hl).
  constructor; [|by eapply IH].
  intros Hin. apply list_elem_of_split in Hin as (l1 & l2 & ->).
  destruct (lseg_suffix _ _ _ _ Hl) as [q Hq].
  pose proof (lseg_head _ _ _ _ Hq) as ->.
  pose proof (lseg_functional _ _ _ _ H Hq) as Heq.
  apply (f_equal length) in Heq. simpl in Heq. rewrite length_app in Heq.
  simpl in Heq. lia.
Qed.

Lemma lseg_lookup h p l x : lseg h p l → x ∈ l → is_Some (h !! x) ∧ x ≠ NULL.
Proof.
  revert p. induction l as [|y l IH]; intros p; simpl.
  - intros _ Hin. by apply elem_of_nil in Hin.
  - intros (-> & Hn & a & Ha & Hl) [->|Hin]%elem_of_cons; [eauto|by eapply IH].
Qed.

Lemma lseg_length h p l : lseg h p l → (length l ≤ size h)%nat.
Proof.
  intros H. pose proof (lseg_NoDup _ _ _ H) as Hnd.
  rewrite <- (size_list_to_set (C := gset Z) l Hnd), <- size_dom.
  apply subseteq_size. intros x Hx. apply elem_of_list_to_set in Hx.
  apply elem_of_dom. by eapply lseg_lookup.
Qed.

Lemma walk_complete fuel h p l :
  lseg h p l → (length l < fuel)%nat → walk fuel h p = Some l.
Proof.
  revert p l. induction fuel as [|fuel IH]; intros p l Hl Hf; [lia|].
  destruct l as [|y l]; simpl in *.
  - subst p. done.
  - destruct Hl as (-> & Hn & a & Ha & Hl).
    apply Z.eqb_neq in Hn. rewrite Hn, Ha. simpl.
    rewrite (IH _ l Hl); [done | lia].
Qed.

Lemma walk_sound fuel h p l : walk fuel h p = Some l → lseg h p l.
Proof.
  revert p l. induction fuel as [|fuel IH]; intros p l; simpl; [done|].
  destruct (p =? NULL) eqn:Ep.
  - apply Z.eqb_eq in Ep. intros [= <-]. done.
  - apply Z.eqb_neq in Ep. destruct (h !! p) as [a|] eqn:Ha; simpl; [|done].
    destruct (walk fuel h (next a)) as [l'|] eqn:Hw; simpl; [|done].
    intros [= <-]. simpl. split_and!; [done..|]. exists a. split; [done|]. by apply IH.
Qed.

(** Enumerating from the head gives [l] exactly when the manifest is the
    null-terminated list [l]. *)
Lemma manifest_lseg st l :
  manifest st = Some l ↔ lseg (heap st) (_app_manifest_head st) l.
Proof.
  unfold manifest, app_manager_get_apps_head. split.
  - apply walk_sound.
  - intros H. apply walk_complete; [done|].
    pose proof (lseg_length _ _ _ H). unfold walk_fuel. lia.
Qed.

Lemma strncmp_matches h p a q :
  h !! p = Some a →
  (strncmp (name a) q (strlen (name a)) =? 0) = true ↔ name_matches h p q.
Proof.
  intros Ha. rewrite Z.eqb_eq, strncmp_strlen_prefix. unfold name_matches.
  split; [eauto|]. intros (b & Hb & Hp). congruence.
Qed.

Lemma find_app_lseg fuel h p l q :
  lseg h p l → (length l < fuel)%nat →
  ∃ r, find_app fuel h p q = Some r ∧ first_match h l q r.
Proof.
  revert p l. induction fuel as [|fuel IH]; intros p l Hl Hf; [lia|].
  destruct l as [|y l]; simpl in *.
  - subst p. exists NULL. split; [done|]. left. split; [done|].
    intros x Hx. by apply elem_of_nil in Hx.
  - destruct Hl as (-> & Hn & a & Ha & Hl).
    pose proof Hn as Hn'. apply Z.eqb_neq in Hn'. rewrite Hn', Ha. simpl.
    destruct (strncmp (name a) q (strlen (name a)) =? 0) eqn:Em.
    + exists y. split; [done|]. right. exists O. split_and!; [done| |intros; lia].
      by apply (strncmp_matches h y a q Ha).
    + assert (¬ name_matches h y q) as Hno.
      { rewrite <- (strncmp_matches h y a q Ha). congruence. }
      destruct (IH (next a) l Hl) as (r & Hr & Hfirst); [lia|].
      exists r. split; [done|].
      destruct Hfirst as [[-> Hall]|(i & Hi & Hm & Hbefore)].
      * left. split; [done|]. intros x [->|Hx]%elem_of_cons; auto.
      * right. exists (S i). split_and!; [done..|].
        intros [|j] x Hj; simpl; [intros [= <-]; done|].
        intros Hx. apply (Hbefore j x); [lia|done].
Qed.

(** The lookup on a manifest that is a null-terminated list. *)
Lemma get_app_spec st l q :
  manifest st = Some l →
  ∃ r st', appmanager_get_app st q = Some (r, st')
    ∧ first_match (heap st) l q r
    ∧ manifest st' = Some l ∧ heap st' = heap st
    ∧ (r ≠ NULL → st' = st).
Proof.
  intros Hm. pose proof Hm as Hl. apply manifest_lseg in Hl.
  destruct (find_app_lseg (walk_fuel st) _ _ _ q Hl) as (r & Hr & Hfirst).
  { pose proof (lseg_length _ _ _ Hl). unfold walk_fuel. lia. }
  unfold appmanager_get_app. rewrite Hr. simpl.
  destruct (r =? NULL) eqn:Er.
  - apply Z.eqb_eq in Er. subst r. eexists _, _. split; [done|].
    split_and!; [done..|]. done.
  - eexists _, _. split; [done|]. split_and!; done.
Qed.

End ManifestFacts.

(** ** Insertion *)

Section InsertFacts.

Implicit Types (h : gmap Z App) (l : list Z) (p x : Z) (st : state).

Lemma set_next_same a : set_next a (next a) = a.
Proof. by destruct a. Qed.

Lemma set_heap_same st : set_heap st (heap st) = st.
Proof. by destruct st. Qed.

Lemma set_manifest_head_same st : set_manifest_head st (_app_manifest_head st) = st.
Proof. by destruct st. Qed.

Lemma last_node_lseg fuel h p l x :
  lseg h p (l ++ [x]) → (length l < fuel)%nat →
  last_node fuel h p = Some x ∧ ∃ a, h !! x = Some a ∧ next a = NULL.
Proof.
  revert p l. induction fuel as [|fuel IH]; intros p l Hl Hf; [lia|].
  destruct l as [|y l]; simpl in *.
  - destruct Hl as (-> & Hn & a & Ha & Hnext). rewrite Ha. simpl.
    rewrite Hnext. simpl. eauto.
  - destruct Hl as (-> & Hn & a & Ha & Hl). rewrite Ha. simpl.
    assert (next a ≠ NULL) as Hne.
    { destruct l; simpl in Hl; destruct Hl as (-> & ? & _); done. }
    apply Z.eqb_neq in Hne. rewrite Hne. apply (IH _ l Hl). lia.
Qed.

Lemma lseg_link h p l x a app b :
  NoDup (l ++ [x]) →
  lseg h p (l ++ [x]) → h !! x = Some a →
  h !! app = Some b → next b = NULL → app ≠ NULL → app ∉ l ++ [x] →
  lseg (<[x := set_next a app]> h) p (l ++ [x; app]).
Proof.
  intros Hnd Hl Ha Hb Hbn Hnn Hfresh. revert p Hnd Hl Hfresh.
  induction l as [|y l IH]; intros p Hnd Hl Hfresh; simpl in *.
  - destruct Hl as (-> & Hn & _). apply not_elem_of_cons in Hfresh as [Hne _].
    split_and!; [done..|]. exists (set_next a app).
    split; [by rewrite lookup_insert_eq|]. simpl.
    split_and!; [done..|]. exists b. split; [by rewrite lookup_insert_ne|done].
  - destruct Hl as (-> & Hn & c & Hc & Hl).
    apply NoDup_cons in Hnd as [Hy Hnd].
    apply not_elem_of_cons in Hfresh as [Hne Hfresh].
    split_and!; [done..|]. exists c. split.
    + rewrite lookup_insert_ne; [done|]. intros ->. apply Hy.
      apply elem_of_app. right. by apply list_elem_of_singleton.
    + by apply IH.
Qed.

(** Linking a record that is not yet in the manifest and has a null
    [next] puts it after the last one; the records already there keep their
    place and their contents. *)
Lemma add_to_manifest_appends st l app b :
  manifest st = Some l →
  app ≠ NULL → app ∉ l → heap st !! app = Some b → next b = NULL →
  ∃ st', _appmanager_add_to_manifest st app = Some st'
    ∧ manifest st' = Some (l ++ [app])
    ∧ brk st' = brk st ∧ calloc_plan st' = calloc_plan st
    ∧ trace st' = trace st
    ∧ heap st' !! app = Some b
    ∧ (∀ x a, heap st !! x = Some a → ∃ n, heap st' !! x = Some (set_next a n))
    ∧ (∀ x, is_Some (heap st' !! x) → is_Some (heap st !! x)).
Proof.
  intros Hm Hnn Hfresh Hb Hbn. apply manifest_lseg in Hm.
  unfold _appmanager_add_to_manifest.
  destruct l as [|y l0] using rev_ind.
  - simpl in Hm. rewrite Hm. simpl.
    eexists. split; [done|]. split_and!; simpl; try done.
    + apply manifest_lseg. simpl. split_and!; [done..|]. eauto.
    + intros x a Hx. exists (next a). by rewrite set_next_same.
  - clear IHl0. rename l0 into l, y into x.
    assert (_app_manifest_head st ≠ NULL) as Hhead.
    { destruct l; simpl in Hm; destruct Hm as (-> & ? & _); done. }
    apply Z.eqb_neq in Hhead. rewrite Hhead.
    pose proof (lseg_length _ _ _ Hm) as Hlen. rewrite length_app in Hlen.
    destruct (last_node_lseg (walk_fuel st) _ _ _ _ Hm) as (Hlast & a & Ha & Hnext).
    { unfold walk_fuel. lia. }
    rewrite Hlast. simpl. rewrite Ha. simpl.
    eexists. split; [done|]. split_and!; simpl; try done.
    + apply manifest_lseg. simpl.
      replace ((l ++ [x]) ++ [app]) with (l ++ [x; app]) by by rewrite <- app_assoc.
      eapply lseg_link; eauto. by eapply lseg_NoDup.
    + rewrite lookup_insert_ne; [done|]. intros ->. apply Hfresh.
      apply elem_of_app. right. by apply list_elem_of_singleton.
    + intros y c Hy. destruct (decide (x = y)) as [->|Hne].
      * rewrite lookup_insert_eq. rewrite Ha in Hy. injection Hy as ->. eauto.
      * rewrite lookup_insert_ne by done. exists (next c). by rewrite set_next_same.
    + intros y. destruct (decide (x = y)) as [->|Hne].
      * intros _. eauto.
      * by rewrite lookup_insert_ne.
Qed.

(** Linking NULL changes nothing at all. *)
Lemma add_to_manifest_null st l :
  manifest st = Some l → _appmanager_add_to_manifest st NULL = Some st.
Proof.
  intros Hm. apply manifest_lseg in Hm. unfold _appmanager_add_to_manifest.
  destruct l as [|y l0] using rev_ind.
  - simpl in Hm. rewrite Hm. simpl. f_equal.
    rewrite <- Hm at 1. apply set_manifest_head_same.
  - clear IHl0. rename l0 into l, y into x.
    assert (_app_manifest_head st ≠ NULL) as Hhead.
    { destruct l; simpl in Hm; destruct Hm as (-> & ? & _); done. }
    apply Z.eqb_neq in Hhead. rewrite Hhead.
    pose proof (lseg_length _ _ _ Hm) as Hlen. rewrite length_app in Hlen.
    destruct (last_node_lseg (walk_fuel st) _ _ _ _ Hm) as (Hlast & a & Ha & Hnext).
    { unfold walk_fuel. lia. }
    rewrite Hlast. simpl. rewrite Ha. simpl. f_equal.
    rewrite <- Hnext, set_next_same, insert_id by done. apply set_heap_same.
Qed.

End InsertFacts.

(** ** Record creation *)

Section CreateFacts.

Implicit Types (h : gmap Z App) (l : list Z) (p x : Z) (st : state).

Lemma plan_ok_S n (plan : list bool) :
  plan_ok (S n) plan ↔ plan_ok 1 plan ∧ plan_ok n (drop 1 plan).
Proof.
  unfold plan_ok. destruct plan as [|b plan]; simpl.
  - rewrite take_nil. split; [by split | intros; constructor].
  - rewrite drop_0, take_0. rewrite !Forall_cons. split.
    + intros [-> H]. split_and!; [done | constructor | done].
    + intros [[-> _] H]. done.
Qed.

Lemma calloc_shape st p st' :
  calloc st = (p, st') →
  ∃ b, st' = set_alloc st b (drop 1 (calloc_plan st))
    ∧ ((p = NULL ∧ b = brk st ∧ ¬ plan_ok 1 (calloc_plan st))
       ∨ (p = brk st ∧ b = brk st + 1 ∧ plan_ok 1 (calloc_plan st))).
Proof.
  unfold calloc, plan_ok.
  destruct (calloc_plan st) as [|[] pl]; intros [= <- <-]; simpl;
    eexists; (split; [done|]).
  - right. split_and!; [done..|constructor].
  - right. split_and!; [done..|]. rewrite take_0. by repeat constructor.
  - left. split_and!; [done..|]. intros H. apply Forall_cons in H as [H _]. done.
Qed.

(** What [_appmanager_create_app] returns and leaves behind: NULL and an
    unchanged heap when one of its two allocations fails, else a fresh
    record. *)
Lemma create_app_shape st nm ty e i s p st' :
  heap_ok st →
  _appmanager_create_app st nm ty e i s = (p, st') →
  ∃ b pl hp, st' = set_heap (set_alloc st b pl) hp ∧ brk st ≤ b
    ∧ ((p = NULL ∧ hp = heap st ∧ ¬ plan_ok 2 (calloc_plan st))
       ∨ (p = brk st ∧ brk st < b ∧ plan_ok 2 (calloc_plan st)
          ∧ pl = drop 2 (calloc_plan st)
          ∧ hp = <[p := mkApp (cstr nm) ty e NULL NULL s i]> (heap st))).
Proof.
  intros [Hbrk Hdom]. unfold _appmanager_create_app.
  destruct (calloc st) as [app st1] eqn:E1.
  destruct (calloc_shape _ _ _ E1) as (b1 & -> & Hc1).
  destruct (app =? NULL) eqn:Eapp.
  - intros [= <- <-]. exists b1, (drop 1 (calloc_plan st)), (heap st).
    split; [by destruct st|]. split; [lia|]. left.
    apply Z.eqb_eq in Eapp. split_and!; [done..|].
    rewrite plan_ok_S. intros [H1 _].
    destruct Hc1 as [(_ & _ & Hno)|(-> & _)]; [done|]. unfold NULL in *. lia.
  - destruct (calloc (set_alloc st b1 (drop 1 (calloc_plan st)))) as [nb st2] eqn:E2.
    destruct (calloc_shape _ _ _ E2) as (b2 & -> & Hc2). simpl in Hc2.
    apply Z.eqb_neq in Eapp. unfold NULL in *.
    destruct Hc1 as [(-> & _)|(-> & -> & Hp1)]; [done|].
    destruct (nb =? 0) eqn:Enb.
    + intros [= <- <-]. eexists b2, _, (heap st).
      split; [by destruct st|]. split; [lia|]. left.
      apply Z.eqb_eq in Enb. split_and!; [done..|].
      rewrite plan_ok_S. intros [_ H2].
      destruct Hc2 as [(_ & _ & Hno)|(-> & _)]; [done|]. lia.
    + apply Z.eqb_neq in Enb.
      destruct Hc2 as [(-> & _)|(-> & -> & Hp2)]; [done|].
      intros [= <- <-]. eexists _, _, _. split; [done|].
      split; [lia|]. right. split_and!; [done | lia | | | done].
      * by apply plan_ok_S.
      * by rewrite drop_drop.
Qed.

Lemma heap_ok_fresh st : heap_ok st → heap st !! brk st = None.
Proof.
  intros [_ Hdom]. destruct (heap st !! brk st) eqn:E; [|done].
  specialize (Hdom (brk st) (mk_is_Some _ _ E)). lia.
Qed.

(** One insertion, whatever the allocator does: when an allocation fails
    the manifest and the heap stay as they are, otherwise the new record
    goes to the end. *)
Lemma add_new_spec st l nm ty e i s :
  manifest st = Some l → heap_ok st →
  ∃ st', add_new st nm ty e i s = Some st'
    ∧ heap_ok st' ∧ trace st' = trace st
    ∧ (∀ x a, heap st !! x = Some a → ∃ n, heap st' !! x = Some (set_next a n))
    ∧ ((¬ plan_ok 2 (calloc_plan st)
        ∧ manifest st' = Some l ∧ heap st' = heap st)
       ∨ (plan_ok 2 (calloc_plan st)
          ∧ calloc_plan st' = drop 2 (calloc_plan st)
          ∧ heap st !! brk st = None
          ∧ manifest st' = Some (l ++ [brk st])
          ∧ heap st' !! brk st = Some (mkApp (cstr nm) ty e NULL NULL s i))).
Proof.
  intros Hm Hok. unfold add_new.
  destruct (_appmanager_create_app st nm ty e i s) as [p st1] eqn:Ec.
  destruct (create_app_shape _ _ _ _ _ _ _ _ Hok Ec) as (b & pl & hp & -> & Hb & Hcase).
  destruct Hok as [Hbrk Hdom].
  destruct Hcase as [(-> & -> & Hno)|(-> & Hlt & Hyes & -> & ->)].
  - assert (manifest (set_heap (set_alloc st b pl) (heap st)) = Some l) as Hm1 by done.
    rewrite (add_to_manifest_null _ l Hm1).
    eexists. split; [done|]. split_and!; simpl; try done.
    + split; simpl; [lia|]. intros p Hp. specialize (Hdom p Hp). lia.
    + intros x a Hx. exists (next a). by rewrite set_next_same.
    + left. done.
  - pose proof (heap_ok_fresh st (conj Hbrk Hdom)) as Hfresh.
    set (rec := mkApp (cstr nm) ty e NULL NULL s i).
    set (st1 := set_heap (set_alloc st b (drop 2 (calloc_plan st)))
                  (<[brk st := rec]> (heap st))).
    assert (brk st ∉ l) as Hnotin.
    { intros Hin. apply manifest_lseg in Hm.
      destruct (lseg_lookup _ _ _ _ Hm Hin) as [[a Ha] _]. congruence. }
    assert (manifest st1 = Some l) as Hm1.
    { apply manifest_lseg. simpl. apply lseg_insert_other; [done|].
      by apply manifest_lseg. }
    destruct (add_to_manifest_appends st1 l (brk st) rec Hm1)
      as (st' & Hadd & Hm' & Hbrk' & Hplan' & Htr' & Hnew & Hkeep & Hdom');
      [unfold NULL; lia | done | by (simpl; rewrite lookup_insert_eq) | done |].
    exists st'. split; [done|]. split_and!.
    + split; rewrite Hbrk'; simpl; [lia|]. intros p Hp. apply Hdom' in Hp.
      simpl in Hp. destruct (decide (brk st = p)) as [<-|Hne]; [lia|].
      rewrite lookup_insert_ne in Hp by done. specialize (Hdom p Hp). lia.
    + by rewrite Htr'.
    + intros x a Hx. apply Hkeep. simpl. rewrite lookup_insert_ne; [done|].
      intros <-. congruence.
    + right. by rewrite Hplan'.
Qed.

(** One insertion when both allocations succeed. *)
Lemma add_new_ok st l nm ty e i s n :
  manifest st = Some l → heap_ok st → plan_ok (S (S n)) (calloc_plan st) →
  ∃ st', add_new st nm ty e i s = Some st'
    ∧ heap_ok st' ∧ trace st' = trace st
    ∧ plan_ok n (calloc_plan st')
    ∧ manifest st' = Some (l ++ [brk st])
    ∧ heap st' !! brk st = Some (mkApp (cstr nm) ty e NULL NULL s i)
    ∧ (∀ x a, heap st !! x = Some a → ∃ n, heap st' !! x = Some (set_next a n)).
Proof.
  intros Hm Hok Hplan.
  apply plan_ok_S in Hplan as [H1 Hplan]. apply plan_ok_S in Hplan as [H2 Hplan].
  rewrite drop_drop in Hplan.
  assert (plan_ok 2 (calloc_plan st)) as H12 by (by apply plan_ok_S).
  destruct (add_new_spec st l nm ty e i s Hm Hok)
    as (st' & Hadd & Hok' & Htr & Hkeep & Hcase).
  exists st'. destruct Hcase as [(Hno & _)|(_ & Hpl & _ & Hm' & Hnew)]; [done|].
  split_and!; try done. by rewrite Hpl.
Qed.

End CreateFacts.

(** ** Claims about the manifest store *)

(** C10. Inserting a record (one that is not in the manifest yet and whose
    [next] is null, as every record [_appmanager_create_app] returns) links
    it after the last record: the records inserted before keep their order
    and their contents. Inserting NULL, the result of a failed allocation,
    leaves the whole state as it was. So every insertion the source makes,
    [_appmanager_add_to_manifest(_appmanager_create_app(...))], either puts
    one new record at the end or leaves the manifest as it is. *)
Theorem insert_appends_at_tail (st : state) (l : list Z) :
  manifest st = Some l →
  (∀ app b, app ≠ NULL → app ∉ l → heap st !! app = Some b → next b = NULL →
     ∃ st', _appmanager_add_to_manifest st app = Some st'
       ∧ manifest st' = Some (l ++ [app])
       ∧ ∀ x a, heap st !! x = Some a →
           ∃ a', heap st' !! x = Some a' ∧ same_fields a a')
  ∧ _appmanager_add_to_manifest st NULL = Some st
  ∧ (heap_ok st → ∀ nm ty e i s,
       ∃ st', add_new st nm ty e i s = Some st'
         ∧ (manifest st' = Some l
            ∨ ∃ p, heap st !! p = None ∧ manifest st' = Some (l ++ [p]))
         ∧ ∀ x a, heap st !! x = Some a →
             ∃ a', heap st' !! x = Some a' ∧ same_fields a a').
Proof.
  intros Hm. split_and!.
  - intros app b Hnn Hfresh Hb Hnext.
    destruct (add_to_manifest_appends st l app b Hm Hnn Hfresh Hb Hnext)
      as (st' & Hadd & Hm' & _ & _ & _ & _ & Hkeep & _).
    exists st'. split_and!; [done..|].
    intros x a Hx. destruct (Hkeep x a Hx) as [n Hn].
    exists (set_next a n). split; [done|]. by destruct a.
  - by eapply add_to_manifest_null.
  - intros Hok nm ty e i s.
    destruct (add_new_spec st l nm ty e i s Hm Hok) as (st' & Hadd & _ & _ & Hkeep & Hc).
    exists st'. split_and!; [done| |].
    + destruct Hc as [(_ & ? & _)|(_ & _ & ? & ? & _)]; eauto.
    + intros x a Hx. destruct (Hkeep x a Hx) as [n Hn].
      exists (set_next a n). split; [done|]. by destruct a.
Qed.

Lemma insert_appends_at_tail_witness :
  manifest spare_record_state = Some [1]
  ∧ (∃ st', _appmanager_add_to_manifest spare_record_state 3 = Some st'
       ∧ manifest st' = Some [1; 3])
  ∧ _appmanager_add_to_manifest spare_record_state NULL = Some spare_record_state.
Proof.
  assert (manifest spare_record_state = Some [1]) as Hm by (vm_compute; reflexivity).
  destruct (insert_appends_at_tail spare_record_state [1] Hm) as (Happ & Hnull & _).
  split; [exact Hm|]. split; [|exact Hnull].
  destruct (Happ 3 (mkApp "Simple" APP_TYPE_FACE 1002 NULL NULL 0 true))
    as (st' & Hadd & Hm' & _).
  - vm_compute. discriminate.
  - intros [H|H]%elem_of_cons; [discriminate | by apply elem_of_nil in H].
  - vm_compute. reflexivity.
  - reflexivity.
  - exists st'. split; [exact Hadd | exact Hm'].
Defined.

(** C4. A lookup returns the first record, in manifest order, whose stored
    name is a prefix of the query, and NULL when no stored name is one.
    With a record named S inserted before one named System, looking up
    System returns the S record. *)
Theorem lookup_first_prefix_match :
  (∀ st l q, manifest st = Some l →
     ∃ r st', appmanager_get_app st q = Some (r, st')
       ∧ first_match (heap st) l q r
       ∧ manifest st' = Some l ∧ heap st' = heap st)
  ∧ (∀ st pS pSys,
       manifest st = Some [pS; pSys] →
       name_of st pS = Some "S"%string → name_of st pSys = Some "System"%string →
       appmanager_get_app st "System" = Some (pS, st)).
Proof.
  split.
  - intros st l q Hm. destruct (get_app_spec st l q Hm) as (r & st' & ? & ? & ? & ? & _).
    eauto 10.
  - intros st pS pSys Hm HS HSys.
    destruct (get_app_spec st _ "System"%string Hm)
      as (r & st' & Hget & Hfirst & _ & _ & Hst).
    unfold name_of in HS, HSys.
    destruct (heap st !! pS) as [aS|] eqn:EaS; [|done].
    simpl in HS. injection HS as HS.
    assert (name_matches (heap st) pS "System") as HmS.
    { exists aS. split; [done|]. rewrite HS. by exists "ystem"%string. }
    destruct Hfirst as [[-> Hnone]|(i & Hi & Hmatch & Hbefore)].
    + exfalso. apply (Hnone pS); [|done]. apply elem_of_cons. by left.
    + destruct i as [|i].
      * simpl in Hi. injection Hi as <-. rewrite Hget. f_equal. f_equal.
        apply Hst. apply manifest_lseg in Hm. by destruct Hm as (_ & ? & _).
      * exfalso. apply (Hbefore O pS); [lia|done|done].
Qed.

Lemma lookup_first_prefix_match_witness :
  manifest s5_state = Some [1; 3]
  ∧ appmanager_get_app s5_state "System" = Some (1, s5_state)
  ∧ ∃ r st', appmanager_get_app s5_state "NiVZ" = Some (r, st')
      ∧ first_match (heap s5_state) [1; 3] "NiVZ" r.
Proof.
  assert (manifest s5_state = Some [1; 3]) as Hm by (vm_compute; reflexivity).
  split; [exact Hm|]. split.
  - apply (proj2 lookup_first_prefix_match s5_state 1 3 Hm);
      vm_compute; reflexivity.
  - destruct (proj1 lookup_first_prefix_match s5_state [1; 3] "NiVZ"%string Hm)
      as (r & st' & Hget & Hfirst & _).
    exists r, st'. split; [exact Hget | exact Hfirst].
Defined.

(** ** The flash scanner *)

Section ScannerFacts.

Variable P : platform.

Implicit Types (l : list Z) (st : state).

Lemma magic_ok_spec hd : magic_ok hd = true ↔ is_prefix "PBLAPP" (hdr_header hd).
Proof.
  unfold magic_ok. rewrite Z.eqb_eq.
  change 6%nat with (strlen "PBLAPP").
  by apply strncmp_literal_prefix.
Qed.

Lemma plan_all_ok n plan : plan_all plan → plan_ok n plan.
Proof. unfold plan_all, plan_ok. apply Forall_take. Qed.

Lemma plan_all_drop n plan : plan_all plan → plan_all (drop n plan).
Proof. unfold plan_all. apply Forall_drop. Qed.

Lemma probes_emit st e : probes (trace (emit st e)) = probes (trace st) ++ probes [e].
Proof. unfold probes. simpl. by rewrite omap_app. Qed.

Lemma scanned_record_keep (h h' : gmap Z App) p i :
  (∀ x a, h !! x = Some a → ∃ n, h' !! x = Some (set_next a n)) →
  scanned_record P h p i → scanned_record P h' p i.
Proof.
  intros Hkeep (a & Ha & Hf). destruct (Hkeep p a Ha) as [n Hn].
  exists (set_next a n). split; [done|]. by destruct a.
Qed.

Lemma keep_trans (h1 h2 h3 : gmap Z App) :
  (∀ x a, h1 !! x = Some a → ∃ n, h2 !! x = Some (set_next a n)) →
  (∀ x a, h2 !! x = Some a → ∃ n, h3 !! x = Some (set_next a n)) →
  ∀ x a, h1 !! x = Some a → ∃ n, h3 !! x = Some (set_next a n).
Proof.
  intros H12 H23 x a Ha. destruct (H12 x a Ha) as [n Hn].
  destruct (H23 x _ Hn) as [m Hm]. exists m. rewrite Hm. by destruct a.
Qed.

(** One round of the scanner: the slot is read once; when the magic is there
    and both allocations succeed one record for the slot goes to the end of
    the manifest, otherwise the manifest stays as it is. *)
Lemma scan_slot_spec st l i :
  manifest st = Some l → heap_ok st →
  ∃ st', scan_slot P st i = Some st'
    ∧ heap_ok st'
    ∧ probes (trace st') = probes (trace st) ++ [i]
    ∧ (∀ x a, heap st !! x = Some a → ∃ n, heap st' !! x = Some (set_next a n))
    ∧ (plan_all (calloc_plan st) → plan_all (calloc_plan st'))
    ∧ ((manifest st' = Some l
        ∧ (has_magic P i → ¬ plan_ok 2 (calloc_plan st)))
       ∨ (has_magic P i ∧ plan_ok 2 (calloc_plan st)
          ∧ ∃ p, manifest st' = Some (l ++ [p])
              ∧ heap st !! p = None
              ∧ scanned_record P (heap st') p i)).
Proof.
  intros Hm Hok. unfold scan_slot, has_magic.
  destruct (magic_ok (flash_header P i)) eqn:Emagic.
  - set (st0 := KERN_LOG (emit st (EvFlashLoadHeader i)) "VALID App Found %s").
    destruct (add_new_spec st0 l (hdr_name (flash_header P i)) APP_TYPE_FACE NULL false i)
      as (st' & Hadd & Hok' & Htr & Hkeep & Hcase); [done..|].
    exists st'. split; [done|]. split_and!; [done| | done | |].
    + rewrite Htr. unfold st0, KERN_LOG. rewrite !probes_emit. simpl.
      by rewrite app_nil_r.
    + intros Hall. destruct Hcase as [(Hno & _)|(_ & -> & _)].
      * exfalso. apply Hno. by apply plan_all_ok.
      * by apply plan_all_drop.
    + destruct Hcase as [(Hno & Hm' & _)|(Hyes & _ & Hfresh & Hm' & Hnew)].
      * left. done.
      * right. split_and!; [done..|]. exists (brk st). split_and!; [done..|].
        eexists. split; [exact Hnew|]. done.
  - eexists. split; [done|]. split_and!.
    + exact Hok.
    + by rewrite probes_emit.
    + intros x a Hx. exists (next a). by rewrite set_next_same.
    + done.
    + left. done.
Qed.

(** The whole loop. *)
Lemma scan_from_spec n i st l :
  manifest st = Some l → heap_ok st →
  ∃ st' new slots, scan_from P n i st = Some st'
    ∧ heap_ok st'
    ∧ probes (trace st') = probes (trace st) ++ slot_range n i
    ∧ manifest st' = Some (l ++ new)
    ∧ Forall2 (scanned_record P (heap st')) new slots
    ∧ (∀ p, p ∈ new → heap st !! p = None)
    ∧ slots `sublist_of` filter (has_magic P) (slot_range n i)
    ∧ (plan_all (calloc_plan st) → slots = filter (has_magic P) (slot_range n i))
    ∧ (∀ x a, heap st !! x = Some a → ∃ n, heap st' !! x = Some (set_next a n)).
Proof.
  revert i st l. induction n as [|n IH]; intros i st l Hm Hok.
  - exists st, [], []. simpl. rewrite !app_nil_r. split_and!; try done.
    + intros p Hp. by apply elem_of_nil in Hp.
    + intros x a Hx. exists (next a). by rewrite set_next_same.
  - simpl.
    destruct (scan_slot_spec st l i Hm Hok)
      as (st1 & Hscan & Hok1 & Hpr1 & Hkeep1 & Hall1 & Hcase).
    rewrite Hscan. simpl.
    assert (∃ l1, manifest st1 = Some l1) as [l1 Hm1].
    { destruct Hcase as [[? _]|(_ & _ & p & ? & _)]; eauto. }
    destruct (IH (i + 1) st1 l1 Hm1 Hok1)
      as (st' & new & slots & Hrest & Hok' & Hpr & Hm' & Hrec & Hfresh & Hsub & Heq & Hkeep).
    destruct Hcase as [[Hm1' Hno]|(Hmagic & Hplan & p & Hm1' & Hp & Hprec)].
    + assert (l1 = l) as -> by congruence.
      exists st', new, slots. split; [done|].
      split_and!; try done.
      * rewrite Hpr, Hpr1. by rewrite <- app_assoc.
      * intros q Hq. specialize (Hfresh q Hq).
        destruct (heap st !! q) as [a|] eqn:Ea; [|done].
        destruct (Hkeep1 q a Ea) as [m Hq1]. congruence.
      * destruct (decide (has_magic P i)) as [Hi|Hi].
        -- rewrite filter_cons_True by done. by apply sublist_cons.
        -- by rewrite filter_cons_False.
      * intros Hall. destruct (decide (has_magic P i)) as [Hi|Hi].
        -- exfalso. apply (Hno Hi). by apply plan_all_ok.
        -- rewrite filter_cons_False by done. auto.
      * by eapply keep_trans.
    + assert (l1 = l ++ [p]) as -> by congruence.
      exists st', (p :: new), (i :: slots). split; [done|].
      split_and!; try done.
      * rewrite Hpr, Hpr1. by rewrite <- app_assoc.
      * rewrite Hm'. by rewrite <- app_assoc.
      * constructor; [|done]. by eapply scanned_record_keep.
      * intros q [->|Hq]%elem_of_cons; [done|]. specialize (Hfresh q Hq).
        destruct (heap st !! q) as [a|] eqn:Ea; [|done].
        destruct (Hkeep1 q a Ea) as [m Hq1]. congruence.
      * rewrite filter_cons_True by done. by apply sublist_skip.
      * intros Hall. rewrite filter_cons_True by done. f_equal. auto.
      * by eapply keep_trans.
Qed.

End ScannerFacts.

(** ** Steps that leave the manifest alone *)

Section FrameFacts.

Variable P : platform.

Implicit Types (l : list Z) (st : state).

Lemma same_store_refl st : same_store st st.
Proof. by repeat split. Qed.

Lemma same_store_trans st1 st2 st3 :
  same_store st1 st2 → same_store st2 st3 → same_store st1 st3.
Proof. unfold same_store. intros (? & ? & ?) (? & ? & ?). split_and!; congruence. Qed.

Lemma same_store_manifest st st' l :
  same_store st st' → manifest st = Some l → manifest st' = Some l.
Proof.
  intros (Hh & _ & Hhd). rewrite !manifest_lseg. by rewrite Hh, Hhd.
Qed.

Lemma same_store_heap_ok st st' : same_store st st' → heap_ok st → heap_ok st'.
Proof. intros (Hh & Hb & _). unfold heap_ok. by rewrite Hh, Hb. Qed.

Lemma quit_frame st st' : appmanager_app_quit st = Some st' → same_store st st'.
Proof.
  unfold appmanager_app_quit. destruct (_app_message_queue st) as [q|]; simpl; [|done].
  destruct (xQueueSendToBack q quit_message). intros [= <-]. by repeat split.
Qed.

Lemma start_frame st nm st' : appmanager_app_start st nm = Some st' → same_store st st'.
Proof.
  unfold appmanager_app_start.
  destruct (appmanager_app_quit st) as [st1|] eqn:Eq; simpl; [|done].
  apply quit_frame in Eq.
  destruct (_app_thread_queue st1) as [q|]; simpl; [|done].
  destruct (xQueueSendToBack q _). intros [= <-].
  eapply same_store_trans; [done|]. by repeat split.
Qed.

Lemma post_button_frame st b st' :
  appmanager_post_button_message st b = Some st' → same_store st st'.
Proof.
  unfold appmanager_post_button_message.
  destruct (_app_message_queue st) as [q|]; simpl; [|done].
  destruct (xQueueSendToBack q _). intros [= <-]. by repeat split.
Qed.

Lemma post_tick_frame st t st' :
  appmanager_post_tick_message st t = Some st' → same_store st st'.
Proof.
  unfold appmanager_post_tick_message.
  destruct (_app_message_queue st) as [q|]; simpl; [|done].
  destruct (xQueueSendToBack q _). intros [= <-]. by repeat split.
Qed.

Lemma get_app_frame st q r st' :
  appmanager_get_app st q = Some (r, st') → same_store st st'.
Proof.
  unfold appmanager_get_app. destruct (find_app _ _ _ _) as [x|]; simpl; [|done].
  destruct (x =? NULL); intros [= <- <-]; by repeat split.
Qed.

Lemma load_and_spawn_frame st a st' :
  load_and_spawn P st a = Some st' → same_store st st'.
Proof.
  unfold load_and_spawn. simpl.
  destruct (load_and_relocate _ _ _ _) as [a1|]; simpl; [|done].
  destruct (zero_bss a1 _) as [a2|]; simpl; [|done].
  destruct (poke_sym_table _ a2 _) as [a3|]; simpl; [|done].
  intros [= <-]. by repeat split.
Qed.

Lemma spawn_internal_frame st st' :
  spawn_internal P st = Some st' → same_store st st'.
Proof.
  unfold spawn_internal. simpl.
  destruct (heap st !! _running_app st); simpl; [|done].
  intros [= <-]. by repeat split.
Qed.

Lemma app_thread_body_frame st am o :
  app_thread_body P st am = Some o → same_store st (outcome_state o).
Proof.
  unfold app_thread_body.
  destruct (payload am) as [|nm| |]; simpl; try done.
  destruct (_app_message_queue st) as [mq|]; simpl; [|done].
  destruct (_app_manifest_head st =? NULL).
  { intros [= <-]. by repeat split. }
  destruct (appmanager_get_app _ nm) as [[app st1]|] eqn:Eget; simpl; [|done].
  apply get_app_frame in Eget.
  destruct (app =? NULL).
  { intros [= <-]. done. }
  set (st2 := match _app_task_handle _ with Some t => _ | None => _ end).
  assert (same_store st st2) as H2.
  { eapply same_store_trans; [exact Eget|].
    unfold st2. simpl. destruct (_app_task_handle st1); by repeat split. }
  destruct (heap st2 !! app) as [a|]; simpl; [|done].
  destruct (is_internal a); simpl.
  - destruct (spawn_internal P st2) as [st3|] eqn:E3; simpl; [|done].
    intros [= <-]. eapply same_store_trans; [done|]. by eapply spawn_internal_frame.
  - destruct (load_and_spawn P st2 a) as [st3|] eqn:E3; simpl; [|done].
    intros [= <-]. eapply same_store_trans; [done|]. by eapply load_and_spawn_frame.
Qed.

Lemma thread_loop_frame pending cap st status st' :
  thread_loop P pending cap st = Some (status, st') → same_store st st'.
Proof.
  revert st. induction pending as [|am rest IH]; intros st; simpl.
  - intros [= <- <-]. apply same_store_refl.
  - destruct (app_thread_body P _ am) as [o|] eqn:Eb; simpl; [|done].
    apply app_thread_body_frame in Eb. simpl in Eb.
    destruct o as [st1|st1]; simpl in Eb.
    + intros H. apply IH in H. eapply same_store_trans; [|exact H]. exact Eb.
    + intros [= <- <-]. exact Eb.
Qed.

Lemma app_thread_frame st status st' :
  _appmanager_app_thread P st = Some (status, st') → same_store st st'.
Proof.
  unfold _appmanager_app_thread.
  destruct (_app_thread_queue st) as [q|]; simpl; [|done].
  apply thread_loop_frame.
Qed.

End FrameFacts.

(** ** Initialisation and the reachable states *)

Section InitFacts.

Variable P : platform.

Implicit Types (l : list Z) (st : state).

Lemma boot_manifest plan : manifest (boot P plan) = Some [].
Proof. reflexivity. Qed.

Lemma boot_heap_ok plan : heap_ok (boot P plan).
Proof.
  split; simpl; [lia|]. intros p [a Ha]. by rewrite lookup_empty in Ha.
Qed.

Lemma slot_range_bounds n i j : j ∈ slot_range n i → i ≤ j < i + Z.of_nat n.
Proof.
  revert i. induction n as [|n IH]; intros i; simpl.
  - intros H. by apply elem_of_nil in H.
  - intros [->|H]%elem_of_cons; [lia|]. apply IH in H. lia.
Qed.

(** What is left of [appmanager_init] once the manifest is built never
    fails and does not touch the manifest. *)
Lemma init_unfold st st1 st2 st3 st4 :
  add_new st "System" APP_TYPE_SYSTEM (systemapp_main P) true 0 = Some st1 →
  add_new st1 "Simple" APP_TYPE_FACE (simple_main P) true 0 = Some st2 →
  add_new st2 "NiVZ" APP_TYPE_FACE (nivz_main P) true 0 = Some st3 →
  _appmanager_flash_load_app_manifest P (set_task_handle st3 None) = Some st4 →
  ∃ st', appmanager_init P st = Some st' ∧ same_store st4 st'.
Proof.
  intros H1 H2 H3 H4. unfold appmanager_init.
  rewrite H1. simpl. rewrite H2. simpl. rewrite H3. simpl. rewrite H4. simpl.
  eexists. split; [reflexivity|]. by repeat split.
Qed.

Lemma init_spec st l :
  manifest st = Some l → heap_ok st →
  ∃ st' l', appmanager_init P st = Some st' ∧ heap_ok st' ∧ manifest st' = Some l'.
Proof.
  intros Hm Hok.
  destruct (add_new_spec st l "System" APP_TYPE_SYSTEM (systemapp_main P) true 0 Hm Hok)
    as (st1 & H1 & Hok1 & _ & _ & Hc1).
  assert (∃ l1, manifest st1 = Some l1) as [l1 Hm1]
    by (destruct Hc1 as [(_ & ? & _)|(_ & _ & _ & ? & _)]; eauto).
  destruct (add_new_spec st1 l1 "Simple" APP_TYPE_FACE (simple_main P) true 0 Hm1 Hok1)
    as (st2 & H2 & Hok2 & _ & _ & Hc2).
  assert (∃ l2, manifest st2 = Some l2) as [l2 Hm2]
    by (destruct Hc2 as [(_ & ? & _)|(_ & _ & _ & ? & _)]; eauto).
  destruct (add_new_spec st2 l2 "NiVZ" APP_TYPE_FACE (nivz_main P) true 0 Hm2 Hok2)
    as (st3 & H3 & Hok3 & _ & _ & Hc3).
  assert (∃ l3, manifest st3 = Some l3) as [l3 Hm3]
    by (destruct Hc3 as [(_ & ? & _)|(_ & _ & _ & ? & _)]; eauto).
  destruct (scan_from_spec P 32 0 (set_task_handle st3 None) l3)
    as (st4 & new & slots & H4 & Hok4 & _ & Hm4 & _); [done..|].
  destruct (init_unfold st st1 st2 st3 st4 H1 H2 H3 H4) as (st' & Hinit & Hsame).
  exists st', (l3 ++ new). split; [done|]. split.
  - by eapply same_store_heap_ok.
  - by eapply same_store_manifest.
Qed.

(** In every reachable state the manifest is a null-terminated list of
    records that [calloc] handed out. *)
Lemma reachable_manifest st :
  reachable P st → heap_ok st ∧ ∃ l, manifest st = Some l.
Proof.
  induction 1 as [plan
    | st nm ty e i s st' _ [Hok [l Hm]] Hstep
    | st i st' _ [Hok [l Hm]] Hstep
    | st st' _ [Hok [l Hm]] Hstep
    | st nm st' _ [Hok [l Hm]] Hstep
    | st st' _ [Hok [l Hm]] Hstep
    | st b st' _ [Hok [l Hm]] Hstep
    | st t st' _ [Hok [l Hm]] Hstep
    | st q r st' _ [Hok [l Hm]] Hstep
    | st status st' _ [Hok [l Hm]] Hstep].
  - split; [apply boot_heap_ok | eexists; apply boot_manifest].
  - destruct (add_new_spec st l nm ty e i s Hm Hok) as (st2 & H2 & Hok2 & _ & _ & Hc).
    rewrite H2 in Hstep. injection Hstep as <-. split; [done|].
    destruct Hc as [(_ & ? & _)|(_ & _ & _ & ? & _)]; eauto.
  - destruct (scan_slot_spec P st l i Hm Hok) as (st2 & H2 & Hok2 & _ & _ & _ & Hc).
    rewrite H2 in Hstep. injection Hstep as <-. split; [done|].
    destruct Hc as [[? _]|(_ & _ & p & ? & _)]; eauto.
  - destruct (init_spec st l Hm Hok) as (st2 & l2 & H2 & Hok2 & Hm2).
    rewrite H2 in Hstep. injection Hstep as <-. eauto.
  - apply start_frame in Hstep.
    split; [by eapply same_store_heap_ok | eexists; by eapply same_store_manifest].
  - apply quit_frame in Hstep.
    split; [by eapply same_store_heap_ok | eexists; by eapply same_store_manifest].
  - apply post_button_frame in Hstep.
    split; [by eapply same_store_heap_ok | eexists; by eapply same_store_manifest].
  - apply post_tick_frame in Hstep.
    split; [by eapply same_store_heap_ok | eexists; by eapply same_store_manifest].
  - apply get_app_frame in Hstep.
    split; [by eapply same_store_heap_ok | eexists; by eapply same_store_manifest].
  - apply app_thread_frame in Hstep.
    split; [by eapply same_store_heap_ok | eexists; by eapply same_store_manifest].
Qed.

End InitFacts.

(** ** Claims about the manifest in reachable states *)




Lemma filter_none {A} (Q : A → Prop) `{∀ x, Decision (Q x)} (l : list A) :
  (∀ x, x ∈ l → ¬ Q x) → filter Q l = [].
Proof.
  induction l as [|y l IH]; intros Hno; [done|].
  rewrite filter_cons_False by (apply Hno, elem_of_cons; by left).
  apply IH. intros x Hx. apply Hno, elem_of_cons. by right.
Qed.

Lemma builtin_record_keep (h h' : gmap Z App) p nm ty e :
  (∀ x a, h !! x = Some a → ∃ n, h' !! x = Some (set_next a n)) →
  builtin_record h p nm ty e → builtin_record h' p nm ty e.
Proof.
  intros Hkeep (a & Ha & Hf). destruct (Hkeep p a Ha) as [n Hn].
  exists (set_next a n). split; [done|]. by destruct a.
Qed.

Lemma builtin_record_same (h h' : gmap Z App) p nm ty e :
  h' = h → builtin_record h p nm ty e → builtin_record h' p nm ty e.
Proof. by intros ->. Qed.

Section ScannerExact.

Variable P : platform.

Implicit Types (l : list Z) (st : state).

(** The loop again, with the slots that get a record told exactly: slot
    [i + k] gets one if and only if it has the magic and, in the state the
    loop is in when it comes to that slot, the next two allocations
    succeed. *)
Lemma scan_from_exact n i st l :
  manifest st = Some l → heap_ok st →
  ∃ st' new slots, scan_from P n i st = Some st'
    ∧ probes (trace st') = probes (trace st) ++ slot_range n i
    ∧ manifest st' = Some (l ++ new)
    ∧ Forall2 (scanned_record P (heap st')) new slots
    ∧ (∀ p, p ∈ new → heap st !! p = None)
    ∧ slots `sublist_of` filter (has_magic P) (slot_range n i)
    ∧ (plan_all (calloc_plan st) → slots = filter (has_magic P) (slot_range n i))
    ∧ (∀ (k : nat) stk, (k < n)%nat → scan_from P k i st = Some stk →
         (i + Z.of_nat k ∈ slots
          ↔ has_magic P (i + Z.of_nat k) ∧ plan_ok 2 (calloc_plan stk)))
    ∧ (∀ x a, heap st !! x = Some a → ∃ n, heap st' !! x = Some (set_next a n)).
Proof.
  revert i st l. induction n as [|n IH]; intros i st l Hm Hok.
  - exists st, [], []. simpl. rewrite !app_nil_r. split_and!; try done.
    + intros p Hp. by apply elem_of_nil in Hp.
    + intros k stk Hk. lia.
    + intros x a Hx. exists (next a). by rewrite set_next_same.
  - simpl.
    destruct (scan_slot_spec P st l i Hm Hok)
      as (st1 & Hscan & Hok1 & Hpr1 & Hkeep1 & Hall1 & Hcase).
    rewrite Hscan. simpl.
    assert (∃ l1, manifest st1 = Some l1) as [l1 Hm1].
    { destruct Hcase as [[? _]|(_ & _ & p & ? & _)]; eauto. }
    destruct (IH (i + 1) st1 l1 Hm1 Hok1)
      as (st' & new & slots & Hrest & Hpr & Hm' & Hrec & Hfresh & Hsub & Heq & Hex & Hkeep).
    assert (i ∉ slots) as Hnot.
    { intros Hin. eapply elem_of_sublist in Hin; [|exact Hsub].
      apply list_elem_of_filter in Hin as [_ Hin].
      apply slot_range_bounds in Hin. lia. }
    assert (∀ (k : nat) stk, (k < n)%nat →
              scan_from P (S k) i st = Some stk →
              (i + Z.of_nat (S k) ∈ slots
               ↔ has_magic P (i + Z.of_nat (S k)) ∧ plan_ok 2 (calloc_plan stk)))
      as Hlater.
    { intros k stk Hk Hrun. simpl in Hrun. rewrite Hscan in Hrun. simpl in Hrun.
      replace (i + Z.of_nat (S k)) with (i + 1 + Z.of_nat k) by lia.
      by apply Hex. }
    destruct Hcase as [[Hm1' Hno]|(Hmagic & Hplan & p & Hm1' & Hp & Hprec)].
    + assert (l1 = l) as -> by congruence.
      exists st', new, slots. split; [done|].
      split_and!; try done.
      * rewrite Hpr, Hpr1. by rewrite <- app_assoc.
      * intros q Hq. specialize (Hfresh q Hq).
        destruct (heap st !! q) as [a|] eqn:Ea; [|done].
        destruct (Hkeep1 q a Ea) as [m Hq1]. congruence.
      * destruct (decide (has_magic P i)) as [Hi|Hi].
        -- rewrite filter_cons_True by done. by apply sublist_cons.
        -- by rewrite filter_cons_False.
      * intros Hall. destruct (decide (has_magic P i)) as [Hi|Hi].
        -- exfalso. apply (Hno Hi). by apply plan_all_ok.
        -- rewrite filter_cons_False by done. auto.
      * intros [|k] stk Hk Hrun.
        -- simpl in Hrun. injection Hrun as <-. rewrite Z.add_0_r. split.
           ++ intros Hin. by destruct Hnot.
           ++ intros [Hi Hpl]. by destruct (Hno Hi).
        -- apply Hlater; [lia|done].
      * by eapply keep_trans.
    + assert (l1 = l ++ [p]) as -> by congruence.
      exists st', (p :: new), (i :: slots). split; [done|].
      split_and!; try done.
      * rewrite Hpr, Hpr1. by rewrite <- app_assoc.
      * rewrite Hm'. by rewrite <- app_assoc.
      * constructor; [|done]. by eapply scanned_record_keep.
      * intros q [->|Hq]%elem_of_cons; [done|]. specialize (Hfresh q Hq).
        destruct (heap st !! q) as [a|] eqn:Ea; [|done].
        destruct (Hkeep1 q a Ea) as [m Hq1]. congruence.
      * rewrite filter_cons_True by done. by apply sublist_skip.
      * intros Hall. rewrite filter_cons_True by done. f_equal. auto.
      * intros [|k] stk Hk Hrun.
        -- simpl in Hrun. injection Hrun as <-. rewrite Z.add_0_r. split.
           ++ done.
           ++ intros _. apply elem_of_cons. by left.
        -- rewrite elem_of_cons. rewrite <- (Hlater k stk) by (lia || done).
           split; [intros [Heq'|Hin]; [lia|done] | intros Hin; by right].
      * by eapply keep_trans.
Qed.

End ScannerExact.

(** ** Claims about the scanner and the cold boot *)

(** C7, as the code has it. The scanner reads the headers of slots 0 to 31,
    each once and in this order, and no other. The magic test holds exactly
    when the header starts with the six characters PBLAPP. The records it
    appends are new ones, one per slot of a list [slots] and in slot order,
    each with type face, not internal, a null entry point and the slot as
    [slot_id]; [slots] only has slots with the magic, and it has all of them
    when no allocation fails. Slot [k] is in [slots], that is it gets a
    record, exactly when it has the magic and the two allocations made for
    it succeed, [stk] being the state in which the loop comes to slot [k]:
    a slot without the magic, and a slot for which [calloc] fails, adds no
    record. *)
Theorem scanner_probes_and_appends (P : platform) (st : state) (l : list Z) :
  manifest st = Some l → heap_ok st →
  ∃ st' new slots, _appmanager_flash_load_app_manifest P st = Some st'
    ∧ probes (trace st') = probes (trace st) ++ seqZ 0 32
    ∧ (∀ hd, magic_ok hd = true ↔ is_prefix "PBLAPP" (hdr_header hd))
    ∧ manifest st' = Some (l ++ new)
    ∧ Forall2 (scanned_record P (heap st')) new slots
    ∧ (∀ p, p ∈ new → heap st !! p = None)
    ∧ slots `sublist_of` filter (has_magic P) (seqZ 0 32)
    ∧ (plan_all (calloc_plan st) → slots = filter (has_magic P) (seqZ 0 32))
    ∧ (∀ (k : nat) stk, (k < 32)%nat → scan_from P k 0 st = Some stk →
         (Z.of_nat k ∈ slots
          ↔ has_magic P (Z.of_nat k) ∧ plan_ok 2 (calloc_plan stk))).
Proof.
  intros Hm Hok.
  destruct (scan_from_exact P 32 0 st l Hm Hok)
    as (st' & new & slots & Hscan & Hpr & Hm' & Hrec & Hfresh & Hsub & Hall & Hex & _).
  exists st', new, slots.
  change (slot_range 32 0) with (seqZ 0 32) in *.
  split_and!; try done. apply magic_ok_spec.
Qed.

Lemma scanner_probes_and_appends_witness :
  ∃ st' new slots,
    _appmanager_flash_load_app_manifest one_app_board (boot one_app_board []) = Some st'
    ∧ probes (trace st') = probes (trace (boot one_app_board [])) ++ seqZ 0 32
    ∧ (∀ hd, magic_ok hd = true ↔ is_prefix "PBLAPP" (hdr_header hd))
    ∧ manifest st' = Some ([] ++ new)
    ∧ Forall2 (scanned_record one_app_board (heap st')) new slots
    ∧ (∀ p, p ∈ new → heap (boot one_app_board []) !! p = None)
    ∧ slots `sublist_of` filter (has_magic one_app_board) (seqZ 0 32)
    ∧ (plan_all (calloc_plan (boot one_app_board [])) →
       slots = filter (has_magic one_app_board) (seqZ 0 32))
    ∧ (∀ (k : nat) stk, (k < 32)%nat →
         scan_from one_app_board k 0 (boot one_app_board []) = Some stk →
         (Z.of_nat k ∈ slots
          ↔ has_magic one_app_board (Z.of_nat k) ∧ plan_ok 2 (calloc_plan stk))).
Proof.
  apply (scanner_probes_and_appends one_app_board (boot one_app_board []) []).
  - reflexivity.
  - apply boot_heap_ok.
Defined.

(** C7 as stated fails when [calloc] fails: slot 5 of the sample board has
    the magic and is probed, yet with the first allocation failing the scan
    ends with an empty manifest. *)
Lemma scanner_skips_slot_when_calloc_fails :
  is_prefix "PBLAPP" (hdr_header (flash_header one_app_board 5))
  ∧ ∃ st', _appmanager_flash_load_app_manifest one_app_board
             (boot one_app_board [false]) = Some st'
      ∧ probes (trace st') = seqZ 0 32
      ∧ manifest st' = Some []
      ∧ heap st' = ∅.
Proof.
  split; [by exists ""%string|].
  eexists. split; [vm_compute; reflexivity|].
  split_and!; vm_compute; reflexivity.
Qed.

(** C8, as the code has it. On a cold boot with no slot passing the magic
    test, and with the six allocations for the built-in records succeeding,
    [appmanager_init] leaves a manifest of exactly three records: System,
    Simple and NiVZ, in this order, System at the head. *)
Theorem cold_boot_builtins (P : platform) (plan : list bool) :
  (∀ i, 0 ≤ i < 32 → magic_ok (flash_header P i) = false) →
  plan_ok 6 plan →
  ∃ st' p1 p2 p3, appmanager_init P (boot P plan) = Some st'
    ∧ app_manager_get_apps_head st' = p1
    ∧ manifest st' = Some [p1; p2; p3]
    ∧ manifest_names st' = Some ["System"; "Simple"; "NiVZ"]%string
    ∧ builtin_record (heap st') p1 "System" APP_TYPE_SYSTEM (systemapp_main P)
    ∧ builtin_record (heap st') p2 "Simple" APP_TYPE_FACE (simple_main P)
    ∧ builtin_record (heap st') p3 "NiVZ" APP_TYPE_FACE (nivz_main P).
Proof.
  intros Hbad Hplan.
  destruct (add_new_ok (boot P plan) [] "System" APP_TYPE_SYSTEM (systemapp_main P)
              true 0 4 (boot_manifest P plan) (boot_heap_ok P plan) Hplan)
    as (st1 & H1 & Hok1 & _ & Hplan1 & Hm1 & Hr1 & _).
  destruct (add_new_ok st1 _ "Simple" APP_TYPE_FACE (simple_main P) true 0 2 Hm1 Hok1 Hplan1)
    as (st2 & H2 & Hok2 & _ & Hplan2 & Hm2 & Hr2 & Hk2).
  destruct (add_new_ok st2 _ "NiVZ" APP_TYPE_FACE (nivz_main P) true 0 0 Hm2 Hok2 Hplan2)
    as (st3 & H3 & Hok3 & _ & _ & Hm3 & Hr3 & Hk3).
  destruct (scan_from_spec P 32 0 (set_task_handle st3 None) _ Hm3 Hok3)
    as (st4 & new & slots & H4 & _ & _ & Hm4 & Hrec & _ & Hsub & _ & Hk4).
  assert (filter (has_magic P) (slot_range 32 0) = []) as Hnone.
  { apply filter_none. intros i Hi%slot_range_bounds. unfold has_magic.
    rewrite Hbad by lia. done. }
  rewrite Hnone in Hsub. apply sublist_nil_r in Hsub as ->.
  apply Forall2_nil_inv_r in Hrec as ->. simpl in Hm4.
  destruct (init_unfold P _ _ _ _ _ H1 H2 H3 H4) as (st' & Hinit & Hsame).
  pose proof (same_store_manifest _ _ _ Hsame Hm4) as Hm'.
  set (p1 := brk (boot P plan)) in *. set (p2 := brk st1) in *. set (p3 := brk st2) in *.
  assert (builtin_record (heap st') p1 "System" APP_TYPE_SYSTEM (systemapp_main P)) as B1.
  { apply (builtin_record_same (heap st4)); [by destruct Hsame|].
    apply (builtin_record_keep (heap st3)); [exact Hk4|].
    apply (builtin_record_keep (heap st2)); [exact Hk3|].
    apply (builtin_record_keep (heap st1)); [exact Hk2|].
    eexists. split; [exact Hr1|]. done. }
  assert (builtin_record (heap st') p2 "Simple" APP_TYPE_FACE (simple_main P)) as B2.
  { apply (builtin_record_same (heap st4)); [by destruct Hsame|].
    apply (builtin_record_keep (heap st3)); [exact Hk4|].
    apply (builtin_record_keep (heap st2)); [exact Hk3|].
    eexists. split; [exact Hr2|]. done. }
  assert (builtin_record (heap st') p3 "NiVZ" APP_TYPE_FACE (nivz_main P)) as B3.
  { apply (builtin_record_same (heap st4)); [by destruct Hsame|].
    apply (builtin_record_keep (heap st3)); [exact Hk4|].
    eexists. split; [exact Hr3|]. done. }
  exists st', p1, p2, p3. split; [done|]. split_and!; try done.
  - apply manifest_lseg in Hm'. unfold app_manager_get_apps_head.
    by destruct Hm' as [-> _].
  - unfold manifest_names. rewrite Hm'. simpl. unfold name_of.
    destruct B1 as (a1 & E1 & <- & _), B2 as (a2 & E2 & <- & _), B3 as (a3 & E3 & <- & _).
    unfold p1 in E1. simpl in E1. rewrite E1, E2, E3. done.
Qed.

Lemma cold_boot_builtins_witness :
  ∃ st' p1 p2 p3, appmanager_init bare_board (boot bare_board [true; true]) = Some st'
    ∧ app_manager_get_apps_head st' = p1
    ∧ manifest st' = Some [p1; p2; p3]
    ∧ manifest_names st' = Some ["System"; "Simple"; "NiVZ"]%string
    ∧ builtin_record (heap st') p1 "System" APP_TYPE_SYSTEM (systemapp_main bare_board)
    ∧ builtin_record (heap st') p2 "Simple" APP_TYPE_FACE (simple_main bare_board)
    ∧ builtin_record (heap st') p3 "NiVZ" APP_TYPE_FACE (nivz_main bare_board).
Proof.
  apply (cold_boot_builtins bare_board [true; true]).
  - intros i _. reflexivity.
  - unfold plan_ok. simpl. repeat constructor.
Defined.

(** C8 as stated fails when the first [calloc] fails: no slot of the bare
    board passes the magic test, yet the manifest that [appmanager_init]
    leaves starts with Simple and has no System record. *)
Lemma cold_boot_without_memory_for_system :
  (∀ i, 0 ≤ i < 32 → magic_ok (flash_header bare_board i) = false)
  ∧ ∃ st', appmanager_init bare_board (boot bare_board [false]) = Some st'
      ∧ manifest st' = Some [1; 3]
      ∧ manifest_names st' = Some ["Simple"; "NiVZ"]%string.
Proof.
  split; [intros i _; reflexivity|].
  eexists. split; [vm_compute; reflexivity|].
  split; vm_compute; reflexivity.
Qed.

(** ** The arena *)

Section ArenaFacts.

Implicit Types (a : list Z) (off : Z).

Lemma set_byte_length a off b a' : set_byte a off b = Some a' → length a' = length a.
Proof.
  unfold set_byte. destruct (_ && _); [|done]. intros [= <-]. apply length_insert.
Qed.

Lemma set_byte_is_Some a off b :
  0 ≤ off < Z.of_nat (length a) → is_Some (set_byte a off b).
Proof.
  intros H. unfold set_byte.
  replace (0 <=? off) with true by (symmetry; apply Z.leb_le; lia).
  replace (off <? Z.of_nat (length a)) with true by (symmetry; apply Z.ltb_lt; lia).
  simpl. eauto.
Qed.

Lemma get_set_byte_eq a off b a' :
  set_byte a off b = Some a' → get_byte a' off = Some b.
Proof.
  unfold set_byte, get_byte. destruct (0 <=? off) eqn:E0; simpl; [|done].
  destruct (off <? Z.of_nat (length a)) eqn:E1; [|done]. intros [= <-].
  apply list_lookup_insert_eq. apply Z.ltb_lt in E1. lia.
Qed.

Lemma get_set_byte_ne a off b a' off' :
  set_byte a off b = Some a' → off' ≠ off → get_byte a' off' = get_byte a off'.
Proof.
  unfold set_byte, get_byte. destruct (0 <=? off) eqn:E0; simpl; [|done].
  destruct (off <? Z.of_nat (length a)) eqn:E1; [|done]. intros [= <-] Hne.
  destruct (0 <=? off') eqn:E2; [|done].
  apply list_lookup_insert_ne. apply Z.leb_le in E0, E2. lia.
Qed.

Lemma write_word_length a k w a' : write_word a k w = Some a' → length a' = length a.
Proof.
  unfold write_word. intros H.
  destruct (set_byte a _ _) as [a0|] eqn:E0; simpl in H; [|done].
  destruct (set_byte a0 _ _) as [a1|] eqn:E1; simpl in H; [|done].
  destruct (set_byte a1 _ _) as [a2|] eqn:E2; simpl in H; [|done].
  apply set_byte_length in E0, E1, E2, H. congruence.
Qed.

Lemma memset_length a off c n a' : memset a off c n = Some a' → length a' = length a.
Proof.
  unfold memset. destruct (_ && _) eqn:E; [|done]. intros [= <-].
  apply andb_true_iff in E as [E E3]. apply andb_true_iff in E as [E1 E2].
  apply Z.leb_le in E1, E2, E3.
  rewrite !length_app, length_take, length_replicate, length_drop. lia.
Qed.

(** After [memset] every byte of the range holds the fill value, and the
    bytes before the range are as they were. *)
Lemma memset_inside a off c n a' off' :
  memset a off c n = Some a' → off ≤ off' < off + n →
  get_byte a' off' = Some (Z.land c 255).
Proof.
  unfold memset. destruct (_ && _) eqn:E; [|done]. intros [= <-] Hin.
  apply andb_true_iff in E as [E E3]. apply andb_true_iff in E as [E1 E2].
  apply Z.leb_le in E1, E2, E3. unfold get_byte.
  replace (0 <=? off') with true by (symmetry; apply Z.leb_le; lia).
  rewrite lookup_app_r; rewrite length_take; [|lia].
  rewrite lookup_app_l by (rewrite length_replicate; lia).
  apply lookup_replicate_2. lia.
Qed.

Lemma memset_before a off c n a' off' :
  memset a off c n = Some a' → off' < off → get_byte a' off' = get_byte a off'.
Proof.
  unfold memset. destruct (_ && _) eqn:E; [|done]. intros [= <-] Hlt.
  apply andb_true_iff in E as [E E3]. apply andb_true_iff in E as [E1 E2].
  apply Z.leb_le in E1, E2, E3. unfold get_byte.
  destruct (0 <=? off') eqn:E0; [|done]. apply Z.leb_le in E0.
  rewrite lookup_app_l by (rewrite length_take; lia).
  apply lookup_take_lt. lia.
Qed.

Lemma memset_is_Some a off c n :
  0 ≤ off → 0 ≤ n → off + n ≤ Z.of_nat (length a) → is_Some (memset a off c n).
Proof.
  intros H1 H2 H3. unfold memset.
  replace (0 <=? off) with true by (symmetry; apply Z.leb_le; lia).
  replace (0 <=? n) with true by (symmetry; apply Z.leb_le; lia).
  replace (off + n <=? Z.of_nat (length a)) with true by (symmetry; apply Z.leb_le; lia).
  simpl. eauto.
Qed.

End ArenaFacts.

(** ** The loader *)

Section LoaderFacts.

Variable P : platform.

Implicit Types (a : list Z) (hd : ApplicationHeader).

Lemma flash_load_app_length slot a size a' :
  flash_load_app P slot a size = Some a' → length a' = length a.
Proof.
  unfold flash_load_app. destruct (_ && _) eqn:E; [|done]. intros [= <-].
  apply andb_true_iff in E as [E1 E2]. apply Z.leb_le in E1, E2.
  rewrite length_app, length_fmap, length_seqZ, length_drop. lia.
Qed.

Lemma reloc_entry_length a got i a' :
  reloc_entry P a got i = Some a' → length a' = length a.
Proof.
  unfold reloc_entry. intros H.
  destruct (read_word a (got + i)) as [r|]; simpl in H; [|done].
  destruct (read_word a (r / 4)) as [v|]; simpl in H; [|done].
  by eapply write_word_length.
Qed.

Lemma reloc_loop_length n i got a a' :
  reloc_loop P n i got a = Some a' → length a' = length a.
Proof.
  revert i a. induction n as [|n IH]; intros i a; simpl.
  - by intros [= <-].
  - destruct (reloc_entry P a got i) as [a1|] eqn:E; simpl; [|done].
    intros H. apply IH in H. apply reloc_entry_length in E. congruence.
Qed.

Lemma load_and_relocate_length a slot hd a' :
  load_and_relocate P a slot hd = Some a' → length a' = length a.
Proof.
  unfold load_and_relocate, relocate_got.
  destruct (flash_load_app P slot a _) as [a1|] eqn:E1; simpl; [|done].
  apply flash_load_app_length in E1.
  destruct (0 <? hdr_reloc_entries_count hd).
  - intros H. apply reloc_loop_length in H. congruence.
  - intros [= <-]. done.
Qed.

End LoaderFacts.

(** ** Words in the arena *)

Section WordFacts.

Implicit Types (a : list Z) (k w : Z).

Lemma word_of_bytes w :
  Z.land w 255 + Z.land (Z.shiftr w 8) 255 * 2 ^ 8
  + Z.land (Z.shiftr w 16) 255 * 2 ^ 16 + Z.land (Z.shiftr w 24) 255 * 2 ^ 24
  = wrap32 w.
Proof.
  unfold wrap32. change 255 with (Z.ones 8).
  rewrite !Z.land_ones, !Z.shiftr_div_pow2 by lia.
  change (2 ^ 8) with 256. change (2 ^ 16) with 65536.
  change (2 ^ 24) with 16777216. change (2 ^ 32) with 4294967296.
  Z.div_mod_to_equations. lia.
Qed.

Lemma read_word_bounds a k v :
  read_word a k = Some v → 0 ≤ 4 * k ∧ 4 * k + 3 < Z.of_nat (length a).
Proof.
  unfold read_word, get_byte. intros H.
  destruct (0 <=? 4 * k) eqn:E0; simpl in H; [|done]. apply Z.leb_le in E0.
  destruct (a !! Z.to_nat (4 * k)); simpl in H; [|done].
  destruct (0 <=? 4 * k + 1); simpl in H; [|done].
  destruct (a !! Z.to_nat (4 * k + 1)); simpl in H; [|done].
  destruct (0 <=? 4 * k + 2); simpl in H; [|done].
  destruct (a !! Z.to_nat (4 * k + 2)); simpl in H; [|done].
  destruct (0 <=? 4 * k + 3); simpl in H; [|done].
  destruct (a !! Z.to_nat (4 * k + 3)) eqn:E3; simpl in H; [|done].
  apply lookup_lt_Some in E3. lia.
Qed.

Lemma write_word_is_Some a k w :
  0 ≤ 4 * k → 4 * k + 3 < Z.of_nat (length a) → is_Some (write_word a k w).
Proof.
  intros H0 H3. unfold write_word.
  destruct (set_byte_is_Some a (4 * k) (Z.land w 255)) as [a0 E0]; [lia|].
  rewrite E0. simpl. pose proof (set_byte_length _ _ _ _ E0) as L0.
  destruct (set_byte_is_Some a0 (4 * k + 1) (Z.land (Z.shiftr w 8) 255)) as [a1 E1]; [lia|].
  rewrite E1. simpl. pose proof (set_byte_length _ _ _ _ E1) as L1.
  destruct (set_byte_is_Some a1 (4 * k + 2) (Z.land (Z.shiftr w 16) 255)) as [a2 E2]; [lia|].
  rewrite E2. simpl. pose proof (set_byte_length _ _ _ _ E2) as L2.
  apply set_byte_is_Some. lia.
Qed.

(** A word written is the word read back, cut to 32 bits. *)
Lemma read_write_word a k w a' :
  write_word a k w = Some a' → read_word a' k = Some (wrap32 w).
Proof.
  unfold write_word. intros H.
  destruct (set_byte a _ _) as [a0|] eqn:E0; simpl in H; [|done].
  destruct (set_byte a0 _ _) as [a1|] eqn:E1; simpl in H; [|done].
  destruct (set_byte a1 _ _) as [a2|] eqn:E2; simpl in H; [|done].
  unfold read_word.
  rewrite (get_set_byte_ne _ _ _ _ (4 * k) H) by lia.
  rewrite (get_set_byte_ne _ _ _ _ (4 * k) E2) by lia.
  rewrite (get_set_byte_ne _ _ _ _ (4 * k) E1) by lia.
  rewrite (get_set_byte_eq _ _ _ _ E0). simpl.
  rewrite (get_set_byte_ne _ _ _ _ (4 * k + 1) H) by lia.
  rewrite (get_set_byte_ne _ _ _ _ (4 * k + 1) E2) by lia.
  rewrite (get_set_byte_eq _ _ _ _ E1). simpl.
  rewrite (get_set_byte_ne _ _ _ _ (4 * k + 2) H) by lia.
  rewrite (get_set_byte_eq _ _ _ _ E2). simpl.
  rewrite (get_set_byte_eq _ _ _ _ H). simpl.
  by rewrite word_of_bytes.
Qed.

End WordFacts.

(** One round of the reloc loop, for a table entry [r] that names a word
    holding [v]: the word becomes the address of the arena word with index
    [v / 4], which is [arena_base + v] only for [v] a multiple of 4. *)
Lemma reloc_entry_spec (P : platform) (a : list Z) (got i r v : Z) :
  read_word a (got + i) = Some r →
  read_word a (r / 4) = Some v →
  ∃ a', reloc_entry P a got i = Some a'
    ∧ read_word a' (r / 4) = Some (wrap32 (arena_base P + 4 * (v / 4)))
    ∧ (v mod 4 = 0 → 0 ≤ arena_base P + v < 2 ^ 32 →
       read_word a' (r / 4) = Some (arena_base P + v)).
Proof.
  intros Hr Hv. unfold reloc_entry. rewrite Hr. simpl. rewrite Hv. simpl.
  destruct (read_word_bounds _ _ _ Hv) as [H0 H3].
  destruct (write_word_is_Some a (r / 4) (wrap32 (arena_base P + 4 * (v / 4))) H0 H3)
    as [a' Ha'].
  exists a'. split; [done|]. apply read_write_word in Ha'.
  assert (wrap32 (wrap32 (arena_base P + 4 * (v / 4))) = wrap32 (arena_base P + 4 * (v / 4)))
    as Hidem by (unfold wrap32; apply Z.mod_mod; lia).
  rewrite Hidem in Ha'. split; [done|].
  intros Hal Hrange. rewrite Ha'. f_equal. unfold wrap32.
  assert (4 * (v / 4) = v) as -> by (Z.div_mod_to_equations; lia).
  apply Z.mod_small. lia.
Qed.

(** A word written leaves the other words as they were. *)
Lemma read_write_word_other (a : list Z) (k w : Z) (a' : list Z) (k' : Z) :
  write_word a k w = Some a' → k' ≠ k → read_word a' k' = read_word a k'.
Proof.
  unfold write_word. intros H Hne.
  destruct (set_byte a _ _) as [a0|] eqn:E0; simpl in H; [|done].
  destruct (set_byte a0 _ _) as [a1|] eqn:E1; simpl in H; [|done].
  destruct (set_byte a1 _ _) as [a2|] eqn:E2; simpl in H; [|done].
  assert (∀ d, 0 ≤ d ≤ 3 → get_byte a' (4 * k' + d) = get_byte a (4 * k' + d)) as Hb.
  { intros d Hd.
    rewrite (get_set_byte_ne _ _ _ _ (4 * k' + d) H) by lia.
    rewrite (get_set_byte_ne _ _ _ _ (4 * k' + d) E2) by lia.
    rewrite (get_set_byte_ne _ _ _ _ (4 * k' + d) E1) by lia.
    apply (get_set_byte_ne _ _ _ _ (4 * k' + d) E0). lia. }
  unfold read_word.
  pose proof (Hb 0) as H0. rewrite Z.add_0_r in H0.
  rewrite H0, (Hb 1), (Hb 2), (Hb 3) by lia. done.
Qed.

(** The whole reloc loop on a table [rs] whose entries name pairwise
    different words, none of them a word of the table itself: each named
    word, holding [v] before, holds the address of arena word [v / 4]
    after, and no other word changes. *)
Lemma reloc_loop_spec (P : platform) (got : Z) (rs vs : list Z) :
  ∀ (i : Z) (a : list Z),
  length vs = length rs →
  (∀ (j : nat) r, rs !! j = Some r → read_word a (got + i + Z.of_nat j) = Some r) →
  (∀ (j : nat) r v, rs !! j = Some r → vs !! j = Some v → read_word a (r / 4) = Some v) →
  NoDup ((λ r, r / 4) <$> rs) →
  (∀ r, r ∈ rs → ¬ (got + i ≤ r / 4 < got + i + Z.of_nat (length rs))) →
  ∃ a', reloc_loop P (length rs) i got a = Some a'
    ∧ (∀ (j : nat) r v, rs !! j = Some r → vs !! j = Some v →
         read_word a' (r / 4) = Some (wrap32 (arena_base P + 4 * (v / 4))))
    ∧ (∀ k, k ∉ ((λ r, r / 4) <$> rs) → read_word a' k = read_word a k).
Proof.
  revert vs. induction rs as [|r rs IH]; intros vs i a Hlen Htab Hval Hnd Hout.
  - exists a. simpl. split; [done|]. split; [|done]. intros j r v Hj. done.
  - destruct vs as [|v vs]; [done|]. simpl in Hlen. injection Hlen as Hlen.
    simpl. rewrite fmap_cons in Hnd. apply NoDup_cons in Hnd as [Hr Hnd].
    pose proof (Htab O r eq_refl) as Hr0. rewrite Z.add_0_r in Hr0.
    pose proof (Hval O r v eq_refl eq_refl) as Hv0.
    destruct (reloc_entry_spec P a got i r v Hr0 Hv0) as (a1 & Hent & Hnew & _).
    rewrite Hent. simpl.
    assert (∀ k, k ≠ r / 4 → read_word a1 k = read_word a k) as Hframe.
    { intros k Hk. unfold reloc_entry in Hent. rewrite Hr0 in Hent. simpl in Hent.
      rewrite Hv0 in Hent. simpl in Hent. by eapply read_write_word_other. }
    destruct (IH vs (i + 1) a1 Hlen) as (a' & Hloop & Hdone & Hrest).
    + intros j r' Hj. rewrite Hframe.
      * replace (got + (i + 1) + Z.of_nat j) with (got + i + Z.of_nat (S j)) by lia.
        by apply Htab.
      * intros Heq. apply (Hout r); [apply elem_of_cons; by left|].
        simpl. apply lookup_lt_Some in Hj. lia.
    + intros j r' v' Hj Hv'. rewrite Hframe; [by apply (Hval (S j))|].
      intros Heq. apply Hr. rewrite <- Heq. apply list_elem_of_fmap.
      exists r'. split; [done|]. by eapply list_elem_of_lookup_2.
    + done.
    + intros r' Hr' Hin. apply (Hout r'); [apply elem_of_cons; by right|].
      simpl. lia.
    + exists a'. split; [done|]. split.
      * intros [|j] r' v' Hj Hv'; simpl in Hj, Hv'.
        -- injection Hj as <-. injection Hv' as <-.
           rewrite Hrest by done. done.
        -- by eapply Hdone.
      * intros k Hk. apply not_elem_of_cons in Hk as [Hk1 Hk2].
        rewrite Hrest by done. by apply Hframe.
Qed.

(** C3, the code at an input where it departs from the claim. Slot 5 of the
    sample board has [app_size] 8 and one reloc entry; the copy puts the
    entry, 0, at arena offset 8, and the word at offset 0 holds 5. The
    relocation leaves [arena_base + 4] in that word, not [arena_base + 5]:
    the value goes through [existing /= 4] and word pointer arithmetic. *)
Theorem relocation_rounds_unaligned_value :
  ∃ a0 a1,
    flash_load_app one_app_board 5 (replicate 64%nat 0) 12 = Some a0
    ∧ read_word a0 (8 / 4) = Some 0
    ∧ read_word a0 (0 / 4) = Some 5
    ∧ relocate_got one_app_board a0 test_header = Some a1
    ∧ read_word a1 (0 / 4) = Some (arena_base one_app_board + 4)
    ∧ arena_base one_app_board + 4 ≠ arena_base one_app_board + 5.
Proof.
  eexists _, _. split; [vm_compute; reflexivity|].
  split; [vm_compute; reflexivity|].
  split; [vm_compute; reflexivity|].
  split; [vm_compute; reflexivity|].
  split; [vm_compute; reflexivity|]. simpl. lia.
Qed.

(** ** The supervisor *)

Section SupervisorFacts.

Variable P : platform.

Implicit Types (l : list Z) (st : state).

Lemma find_app_same_store st st' q :
  same_store st st' →
  find_app (walk_fuel st') (heap st') (_app_manifest_head st') q
  = find_app (walk_fuel st) (heap st) (_app_manifest_head st) q.
Proof. intros (Hh & _ & Hhd). unfold walk_fuel. by rewrite Hh, Hhd. Qed.

Lemma get_app_found st q app st1 :
  appmanager_get_app st q = Some (app, st1) → app ≠ NULL →
  st1 = st ∧ find_app (walk_fuel st) (heap st) (_app_manifest_head st) q = Some app.
Proof.
  unfold appmanager_get_app.
  destruct (find_app _ _ _ _) as [r|]; simpl; [|done].
  destruct (r =? NULL) eqn:Er.
  - intros [= <- <-]. done.
  - intros [= <- <-]. done.
Qed.

Lemma get_app_missing st q st1 :
  appmanager_get_app st q = Some (NULL, st1) →
  find_app (walk_fuel st) (heap st) (_app_manifest_head st) q = Some NULL.
Proof.
  unfold appmanager_get_app.
  destruct (find_app _ _ _ _) as [r|]; simpl; [|done].
  destruct (r =? NULL) eqn:Er.
  - apply Z.eqb_eq in Er. by subst r.
  - intros [= -> <-]. by apply Z.eqb_neq in Er.
Qed.

(** From the receive to the branch on [is_internal], for a name that the
    lookup resolves. *)
Lemma app_thread_body_found st nm mq app st1 a :
  _app_message_queue st = Some mq →
  appmanager_get_app st nm = Some (app, st1) → app ≠ NULL →
  heap st !! app = Some a →
  app_thread_body P st (start_message nm)
  = if negb (is_internal a)
    then Continue <$> load_and_spawn P (before_spawn st mq app) a
    else Continue <$> spawn_internal P (before_spawn st mq app).
Proof.
  intros Hmq Hget Hnn Ha.
  destruct (get_app_found _ _ _ _ Hget Hnn) as [-> Hfind].
  unfold app_thread_body. simpl. rewrite Hmq. simpl.
  assert (_app_manifest_head st ≠ NULL) as Hhead.
  { intros Hh. rewrite Hh in Hfind. simpl in Hfind. congruence. }
  apply Z.eqb_neq in Hhead. rewrite Hhead.
  unfold appmanager_get_app.
  set (st0 := emit _ (EvQueueReset MessageQueue)).
  rewrite (find_app_same_store st st0) by (by repeat split).
  rewrite Hfind. simpl. apply Z.eqb_neq in Hnn. rewrite Hnn.
  unfold before_spawn. fold st0.
  destruct (_app_task_handle (set_running_app st0 app)) as [t|] eqn:Et;
    simpl in Et |- *; rewrite Et; simpl; rewrite ?Hnn, Ha; done.
Qed.

(** The same for a name that no record matches: the body leaves the task
    function. *)
Lemma app_thread_body_missing st nm mq st1 :
  _app_message_queue st = Some mq →
  _app_manifest_head st ≠ NULL →
  appmanager_get_app st nm = Some (NULL, st1) →
  ∃ st', app_thread_body P st (start_message nm) = Some (Returned st')
    ∧ tasks_created st' = tasks_created st
    ∧ _app_task_handle st' = _app_task_handle st
    ∧ _running_app st' = _running_app st.
Proof.
  intros Hmq Hhead Hget. apply get_app_missing in Hget.
  unfold app_thread_body. simpl. rewrite Hmq. simpl.
  apply Z.eqb_neq in Hhead. rewrite Hhead.
  unfold appmanager_get_app.
  set (st0 := emit _ (EvQueueReset MessageQueue)).
  rewrite (find_app_same_store st st0) by (by repeat split).
  rewrite Hget. simpl. eexists. split; [done|].
  split_and!; try done.
  unfold tasks_created. simpl. rewrite !omap_app. simpl. by rewrite !app_nil_r.
Qed.

Lemma wrap32_heap_size (total stack : Z) :
  wrap32 (wrap32 (MAX_APP_MEMORY_SIZE P - total) - wrap32 (wrap32 stack * 4))
  = wrap32 (MAX_APP_MEMORY_SIZE P - total - stack * 4).
Proof.
  unfold wrap32.
  rewrite Zminus_mod_idemp_l, Zminus_mod_idemp_r.
  rewrite <- (Zminus_mod_idemp_r _ (stack mod 2 ^ 32 * 4)).
  rewrite Zmult_mod_idemp_l. by rewrite Zminus_mod_idemp_r.
Qed.

Lemma tasks_created_emit st e :
  tasks_created (emit st e)
  = tasks_created st ++ match e with EvTaskCreate t => [t] | _ => [] end.
Proof.
  unfold tasks_created. simpl. rewrite omap_app. simpl. by destruct e.
Qed.

End SupervisorFacts.

Section SpawnFacts.

Variable P : platform.

Lemma poke_sym_table_is_Some (a : list Z) hd :
  0 ≤ hdr_sym_table_addr hd →
  hdr_sym_table_addr hd + 3 < Z.of_nat (length a) →
  Z.of_nat (length a) ≤ 2 ^ 32 →
  is_Some (poke_sym_table P a hd).
Proof.
  intros H0 H3 Hlen. unfold poke_sym_table.
  assert (∀ d, 0 ≤ d ≤ 3 → wrap32 (hdr_sym_table_addr hd + d) = hdr_sym_table_addr hd + d)
    as Hw by (intros d Hd; unfold wrap32; apply Z.mod_small; lia).
  rewrite !Hw by lia.
  destruct (set_byte_is_Some a (hdr_sym_table_addr hd) (Z.land (wrap32 (sym P)) 255))
    as [a0 E0]; [lia|].
  rewrite E0. simpl. pose proof (set_byte_length _ _ _ _ E0) as L0.
  destruct (set_byte_is_Some a0 (hdr_sym_table_addr hd + 1)
              (Z.land (Z.shiftr (wrap32 (sym P)) 8) 255)) as [a1 E1]; [lia|].
  rewrite E1. simpl. pose proof (set_byte_length _ _ _ _ E1) as L1.
  destruct (set_byte_is_Some a1 (hdr_sym_table_addr hd + 2)
              (Z.land (Z.shiftr (wrap32 (sym P)) 16) 255)) as [a2 E2]; [lia|].
  rewrite E2. simpl. pose proof (set_byte_length _ _ _ _ E2) as L2.
  apply set_byte_is_Some. lia.
Qed.


Lemma before_spawn_tasks st mq app :
  tasks_created (before_spawn st mq app) = tasks_created st.
Proof.
  unfold before_spawn, tasks_created. simpl.
  destruct (_app_task_handle st); simpl; rewrite !omap_app; simpl;
    by rewrite !app_nil_r.
Qed.

End SpawnFacts.




(** ** Start requests that match no record *)

Section UnmatchedStart.

Variable P : platform.

(** A start request that no record of a non-empty manifest matches makes
    [_appmanager_app_thread] return: the supervisor task is gone. *)
Lemma unmatched_start_ends_supervisor st l nm mq cap rest :
  manifest st = Some l → l ≠ [] →
  (∀ x, x ∈ l → ¬ name_matches (heap st) x nm) →
  _app_message_queue st = Some mq →
  _app_thread_queue st = Some (mkQueue cap (start_message nm :: rest)) →
  ∃ st', _appmanager_app_thread P st = Some (Exited, st')
    ∧ tasks_created st' = tasks_created st
    ∧ _running_app st' = _running_app st.
Proof.
  intros Hm Hne Hnone Hmq Htq. unfold _appmanager_app_thread. rewrite Htq. simpl.
  set (st0 := set_thread_queue st (Some (mkQueue cap rest))).
  assert (manifest st0 = Some l) as Hm0 by done.
  destruct (get_app_spec st0 l nm Hm0) as (r & st1 & Hget & Hfirst & _).
  assert (r = NULL) as ->.
  { destruct Hfirst as [[-> _]|(i & Hi & Hmatch & _)]; [done|].
    exfalso. apply (Hnone r); [by eapply list_elem_of_lookup_2 | done]. }
  destruct (app_thread_body_missing P st0 nm mq st1) as (st' & Hbody & Ht & _ & Hr);
    [done| |done|].
  { change (_app_manifest_head st ≠ NULL). apply manifest_lseg in Hm.
    destruct l; [done|]. by destruct Hm as (-> & ? & _). }
  rewrite Hbody. simpl. eauto.
Qed.

End UnmatchedStart.

Section ExitedSupervisor.

Variable P : platform.

Lemma quit_tasks st st' :
  appmanager_app_quit st = Some st' →
  tasks_created st' = tasks_created st ∧ _running_app st' = _running_app st.
Proof.
  unfold appmanager_app_quit. destruct (_app_message_queue st) as [q|]; simpl; [|done].
  destruct (xQueueSendToBack q quit_message). intros [= <-].
  rewrite tasks_created_emit. simpl. by rewrite app_nil_r.
Qed.

Lemma start_tasks st nm st' :
  appmanager_app_start st nm = Some st' →
  tasks_created st' = tasks_created st ∧ _running_app st' = _running_app st.
Proof.
  unfold appmanager_app_start.
  destruct (appmanager_app_quit st) as [st1|] eqn:Eq; simpl; [|done].
  apply quit_tasks in Eq as [Ht Hr].
  destruct (_app_thread_queue st1) as [q|]; simpl; [|done].
  destruct (xQueueSendToBack q _). intros [= <-].
  rewrite tasks_created_emit. simpl. rewrite app_nil_r.
  unfold tasks_created in *. simpl. split; congruence.
Qed.

Lemma post_button_tasks st b st' :
  appmanager_post_button_message st b = Some st' →
  tasks_created st' = tasks_created st ∧ _running_app st' = _running_app st.
Proof.
  unfold appmanager_post_button_message.
  destruct (_app_message_queue st) as [q|]; simpl; [|done].
  destruct (xQueueSendToBack q _). intros [= <-].
  rewrite tasks_created_emit. simpl. by rewrite app_nil_r.
Qed.

Lemma post_tick_tasks st t st' :
  appmanager_post_tick_message st t = Some st' →
  tasks_created st' = tasks_created st ∧ _running_app st' = _running_app st.
Proof.
  unfold appmanager_post_tick_message.
  destruct (_app_message_queue st) as [q|]; simpl; [|done].
  destruct (xQueueSendToBack q _). intros [= <-].
  rewrite tasks_created_emit. simpl. by rewrite app_nil_r.
Qed.

(** Once the supervisor task has returned, whatever is called and however
    often the scheduler would run it, no application is spawned and the
    running application stays what it was. *)
Lemma exited_supervisor_spawns_nothing acts s s' :
  supervisor s = Exited → sys_run P s acts = Some s' →
  supervisor s' = Exited
  ∧ tasks_created (mem s') = tasks_created (mem s)
  ∧ _running_app (mem s') = _running_app (mem s).
Proof.
  revert s. induction acts as [|act acts IH]; intros s Hex; simpl.
  - intros [= <-]. done.
  - destruct (sys_step P s act) as [s1|] eqn:Es; simpl; [|done].
    intros Hrun.
    assert (supervisor s1 = Exited
            ∧ tasks_created (mem s1) = tasks_created (mem s)
            ∧ _running_app (mem s1) = _running_app (mem s)) as (Hex1 & Ht1 & Hr1).
    { destruct act; simpl in Es.
      - destruct (appmanager_app_start (mem s) nm) as [st1|] eqn:E; simpl in Es; [|done].
        injection Es as <-. simpl. split; [done|]. by eapply start_tasks.
      - destruct (appmanager_app_quit (mem s)) as [st1|] eqn:E; simpl in Es; [|done].
        injection Es as <-. simpl. split; [done|]. by eapply quit_tasks.
      - destruct (appmanager_post_button_message (mem s) bmessage) as [st1|] eqn:E;
          simpl in Es; [|done].
        injection Es as <-. simpl. split; [done|]. by eapply post_button_tasks.
      - destruct (appmanager_post_tick_message (mem s) tmessage) as [st1|] eqn:E;
          simpl in Es; [|done].
        injection Es as <-. simpl. split; [done|]. by eapply post_tick_tasks.
      - rewrite Hex in Es. by injection Es as <-. }
    destruct (IH s1 Hex1 Hrun) as (? & ? & ?). split_and!; congruence.
Qed.

End ExitedSupervisor.

(** C2, the code at an input where it departs from the claim. On the bare
    board, with System running, a start request for a name that no record
    matches makes the supervisor's task function return ([return] inside
    the [for (;;)] loop): the supervisor is gone, not back at its queue. The
    next request, for Simple, stays in the thread queue: no task is created
    for it and System remains the running application. *)
Theorem unmatched_start_stops_supervisor :
  ∃ s1 s2,
    sys_run bare_board (booted bare_board)
      [RunSupervisor; CallStart "Nope"; RunSupervisor] = Some s1
    ∧ supervisor s1 = Exited
    ∧ sys_run bare_board s1 [CallStart "Simple"; RunSupervisor] = Some s2
    ∧ supervisor s2 = Exited
    ∧ _app_thread_queue (mem s2) = Some (mkQueue 1 [start_message "Simple"])
    ∧ tasks_created (mem s2) = tasks_created (mem s1)
    ∧ name_of (mem s2) (_running_app (mem s2)) = Some "System"%string.
Proof.
  eexists _, _. split; [vm_compute; reflexivity|].
  split; [reflexivity|]. split; [vm_compute; reflexivity|].
  split_and!; vm_compute; reflexivity.
Qed.

(** ** Claims about the control surface *)

(** C9, as the code has it. [appmanager_app_start] first sends Quit to the
    message queue (10 ticks), then the start request to the thread queue
    (100 ticks), and drops both results: whatever the two sends return, it
    ends in the same way and only the queues tell what happened. Quit goes
    into the message queue when there is room in it; a full thread queue
    stays as it is, and so the request is lost while the Quit sent just
    before, if it went in, stays in the message queue. *)
Theorem start_sends_quit_then_start (st : state) (nm : string) (mq tq : queue) :
  _app_message_queue st = Some mq → _app_thread_queue st = Some tq →
  ∃ st' quit_sent start_sent mq' tq',
    appmanager_app_start st nm = Some st'
    ∧ xQueueSendToBack mq quit_message = (quit_sent, mq')
    ∧ xQueueSendToBack tq (start_message nm) = (start_sent, tq')
    ∧ trace st' = trace st ++ [EvSend MessageQueue quit_message 10 quit_sent;
                               EvSend ThreadQueue (start_message nm) 100 start_sent]
    ∧ _app_message_queue st' = Some mq'
    ∧ _app_thread_queue st' = Some tq'
    ∧ ((length (q_items mq) < q_cap mq)%nat → q_items mq' = q_items mq ++ [quit_message])
    ∧ ((q_cap tq ≤ length (q_items tq))%nat → start_sent = false ∧ tq' = tq)
    ∧ same_store st st'
    ∧ _running_app st' = _running_app st
    ∧ _app_task_handle st' = _app_task_handle st.
Proof.
  intros Hmq Htq. unfold appmanager_app_start, appmanager_app_quit.
  rewrite Hmq. simpl.
  destruct (xQueueSendToBack mq quit_message) as [quit_sent mq'] eqn:E1. simpl.
  rewrite Htq. simpl.
  destruct (xQueueSendToBack tq (start_message nm)) as [start_sent tq'] eqn:E2.
  eexists _, quit_sent, start_sent, mq', tq'. split; [done|].
  split_and!; simpl; try done.
  - by rewrite <- app_assoc.
  - intros Hroom. unfold xQueueSendToBack in E1.
    apply Nat.ltb_lt in Hroom. rewrite Hroom in E1. by injection E1 as <- <-.
  - intros Hfull. unfold xQueueSendToBack in E2.
    apply Nat.ltb_ge in Hfull. rewrite Hfull in E2. by injection E2 as <- <-.
Qed.

Lemma start_sends_quit_then_start_witness :
  ∃ st' quit_sent start_sent mq' tq',
    appmanager_app_start big_start_state "Simple" = Some st'
    ∧ xQueueSendToBack (mkQueue 5 [quit_message]) quit_message = (quit_sent, mq')
    ∧ xQueueSendToBack (mkQueue 1 [start_message "BigApp"]) (start_message "Simple")
      = (start_sent, tq')
    ∧ trace st' = trace big_start_state
                    ++ [EvSend MessageQueue quit_message 10 quit_sent;
                        EvSend ThreadQueue (start_message "Simple") 100 start_sent]
    ∧ _app_message_queue st' = Some mq'
    ∧ _app_thread_queue st' = Some tq'
    ∧ ((length [quit_message] < 5)%nat → q_items mq' = [quit_message] ++ [quit_message])
    ∧ ((1 ≤ length [start_message "BigApp"])%nat
       → start_sent = false ∧ tq' = mkQueue 1 [start_message "BigApp"])
    ∧ same_store big_start_state st'
    ∧ _running_app st' = _running_app big_start_state
    ∧ _app_task_handle st' = _app_task_handle big_start_state.
Proof.
  apply (start_sends_quit_then_start big_start_state "Simple"
           (mkQueue 5 [quit_message]) (mkQueue 1 [start_message "BigApp"])).
  - vm_compute. reflexivity.
  - vm_compute. reflexivity.
Defined.

(** C9 as stated fails when the message queue is full: with five button
    messages waiting in it, a call to [appmanager_app_start] puts no Quit
    into the message queue, and yet its start request goes into the thread
    queue. *)
Lemma start_with_full_message_queue_posts_no_quit :
  _app_thread_queue full_queue_state = Some (mkQueue 1 [])
  ∧ length (items_of (_app_message_queue full_queue_state)) = 5%nat
  ∧ ∃ st', appmanager_app_start full_queue_state "Simple" = Some st'
      ∧ _app_message_queue st' = _app_message_queue full_queue_state
      ∧ (quit_message ∉ items_of (_app_message_queue st'))
      ∧ _app_thread_queue st' = Some (mkQueue 1 [start_message "Simple"]).
Proof.
  split; [vm_compute; reflexivity|]. split; [vm_compute; reflexivity|].
  eexists. split; [vm_compute; reflexivity|].
  split; [vm_compute; reflexivity|]. split; [|vm_compute; reflexivity].
  intros Hin. apply list_elem_of_In in Hin. vm_compute in Hin.
  repeat (destruct Hin as [Hin|Hin]; [discriminate|]). done.
Qed.

(** * Further properties of the code *)

(** ** What the manifest functions leave alone *)

Section StaticsFacts.

Variable P : platform.

Lemma same_statics_refl st : same_statics st st.
Proof. by repeat split. Qed.

Lemma same_statics_trans st1 st2 st3 :
  same_statics st1 st2 → same_statics st2 st3 → same_statics st1 st3.
Proof.
  unfold same_statics. intros (? & ? & ? & ? & ? & ?) (? & ? & ? & ? & ? & ?).
  split_and!; congruence.
Qed.

Lemma create_app_statics st nm ty e i s p st' :
  _appmanager_create_app st nm ty e i s = (p, st') →
  same_statics st st' ∧ trace st' = trace st
  ∧ _app_manifest_head st' = _app_manifest_head st.
Proof.
  unfold _appmanager_create_app.
  destruct (calloc st) as [app st1] eqn:E1.
  destruct (calloc_shape _ _ _ E1) as (b1 & -> & _).
  destruct (app =? NULL); [intros [= <- <-]; by repeat split|].
  destruct (calloc (set_alloc st b1 _)) as [nb st2] eqn:E2.
  destruct (calloc_shape _ _ _ E2) as (b2 & -> & _).
  destruct (nb =? NULL); intros [= <- <-]; by repeat split.
Qed.

Lemma add_to_manifest_statics st app st' :
  _appmanager_add_to_manifest st app = Some st' →
  same_statics st st' ∧ trace st' = trace st.
Proof.
  unfold _appmanager_add_to_manifest.
  destruct (_app_manifest_head st =? NULL); [intros [= <-]; by repeat split|].
  destruct (last_node _ _ _) as [c|]; simpl; [|done].
  destruct (heap st !! c); simpl; [|done]. intros [= <-]. by repeat split.
Qed.

Lemma add_new_statics st nm ty e i s st' :
  add_new st nm ty e i s = Some st' → same_statics st st'.
Proof.
  unfold add_new.
  destruct (_appmanager_create_app st nm ty e i s) as [p st1] eqn:Ec.
  apply create_app_statics in Ec as (H1 & _). intros H2.
  apply add_to_manifest_statics in H2 as (H2 & _). by eapply same_statics_trans.
Qed.

Lemma scan_slot_statics st i st' :
  scan_slot P st i = Some st' → same_statics st st'.
Proof.
  unfold scan_slot. destruct (magic_ok _).
  - intros H. apply add_new_statics in H.
    eapply same_statics_trans; [|exact H]. by repeat split.
  - intros [= <-]. by repeat split.
Qed.

Lemma scan_from_statics n i st st' :
  scan_from P n i st = Some st' → same_statics st st'.
Proof.
  revert i st. induction n as [|n IH]; intros i st; simpl.
  - intros [= <-]. apply same_statics_refl.
  - destruct (scan_slot P st i) as [st1|] eqn:E; simpl; [|done].
    intros H. apply IH in H. apply scan_slot_statics in E.
    by eapply same_statics_trans.
Qed.

(** [appmanager_init], given how its four manifest steps went: the queues
    are fresh and hold the Quit and the start request for System, the
    application task handle is NULL, the supervisor task is created. *)
Lemma init_result st st1 st2 st3 st4 :
  add_new st "System" APP_TYPE_SYSTEM (systemapp_main P) true 0 = Some st1 →
  add_new st1 "Simple" APP_TYPE_FACE (simple_main P) true 0 = Some st2 →
  add_new st2 "NiVZ" APP_TYPE_FACE (nivz_main P) true 0 = Some st3 →
  _appmanager_flash_load_app_manifest P (set_task_handle st3 None) = Some st4 →
  ∃ st', appmanager_init P st = Some st'
    ∧ same_store st4 st'
    ∧ _running_app st' = _running_app st
    ∧ app_stack_heap st' = app_stack_heap st
    ∧ _app_task_handle st' = None
    ∧ _app_thread_manager_task_handle st' = Some (manager_task P)
    ∧ _app_message_queue st' = Some (mkQueue 5 [quit_message])
    ∧ _app_thread_queue st' = Some (mkQueue 1 [start_message "System"])
    ∧ trace st' = trace st4
        ++ [EvSend MessageQueue quit_message 10 true;
            EvSend ThreadQueue (start_message "System") 100 true;
            EvTaskCreate (manager_task P); EvLog "App thread created"].
Proof.
  intros H1 H2 H3 H4. unfold appmanager_init.
  rewrite H1. simpl. rewrite H2. simpl. rewrite H3. simpl. rewrite H4. simpl.
  apply add_new_statics in H1, H2, H3.
  apply scan_from_statics in H4.
  pose proof (same_statics_trans _ _ _ H1 (same_statics_trans _ _ _ H2 H3)) as H13.
  destruct H13 as (Hr & _ & _ & _ & _ & Ha).
  destruct H4 as (Hr4 & Ht4 & _ & _ & _ & Ha4). simpl in Hr4, Ht4, Ha4.
  eexists. split; [reflexivity|]. simpl.
  split_and!; try done; try congruence.
  by rewrite <- !app_assoc.
Qed.

End StaticsFacts.

(** ** Creating, inserting and looking up records *)

Section StoreFacts.

Implicit Types (h : gmap Z App) (l : list Z) (st : state).

Lemma is_prefix_refl s : is_prefix s s.
Proof.
  exists ""%string. induction s as [|c s IH]; [done|].
  rewrite append_cons. by f_equal.
Qed.

Lemma first_match_unique h l q r1 r2 :
  first_match h l q r1 → first_match h l q r2 → r1 = r2.
Proof.
  intros [[-> H1]|(i1 & Hi1 & Hm1 & Hb1)] [[-> H2]|(i2 & Hi2 & Hm2 & Hb2)].
  - done.
  - exfalso. apply (H1 r2); [by eapply list_elem_of_lookup_2|done].
  - exfalso. apply (H2 r1); [by eapply list_elem_of_lookup_2|done].
  - destruct (Nat.lt_trichotomy i1 i2) as [Hlt|[->|Hgt]].
    + exfalso. by apply (Hb2 i1 r1).
    + congruence.
    + exfalso. by apply (Hb1 i2 r2).
Qed.



Lemma name_matches_keep_iff h h' x q :
  (∀ y a, h !! y = Some a → ∃ n, h' !! y = Some (set_next a n)) →
  is_Some (h !! x) →
  name_matches h' x q ↔ name_matches h x q.
Proof.
  intros Hkeep [a Ha]. destruct (Hkeep x a Ha) as [n Hn].
  unfold name_matches. split.
  - intros (b & Hb & Hp). rewrite Hn in Hb. injection Hb as <-. eauto.
  - intros (b & Hb & Hp). rewrite Ha in Hb. injection Hb as <-.
    exists (set_next a n). split; [done|]. by destruct a.
Qed.

Lemma add_to_manifest_plan st app st' :
  _appmanager_add_to_manifest st app = Some st' →
  calloc_plan st' = calloc_plan st ∧ brk st' = brk st.
Proof.
  unfold _appmanager_add_to_manifest.
  destruct (_app_manifest_head st =? NULL); [intros [= <-]; by repeat split|].
  destruct (last_node _ _ _) as [c|]; simpl; [|done].
  destruct (heap st !! c); simpl; [|done]. intros [= <-]. by repeat split.
Qed.

Lemma add_new_plan st nm ty e i s st' :
  add_new st nm ty e i s = Some st' →
  ∃ k, calloc_plan st' = drop k (calloc_plan st).
Proof.
  unfold add_new, _appmanager_create_app.
  destruct (calloc st) as [app st1] eqn:E1.
  destruct (calloc_shape _ _ _ E1) as (b1 & -> & _).
  destruct (app =? NULL).
  { intros H. apply add_to_manifest_plan in H as [-> _]. by exists 1%nat. }
  destruct (calloc (set_alloc st b1 _)) as [nb st2] eqn:E2.
  destruct (calloc_shape _ _ _ E2) as (b2 & -> & _). simpl.
  destruct (nb =? NULL); intros H; apply add_to_manifest_plan in H as [-> _];
    simpl; exists 2%nat; by rewrite drop_drop.
Qed.

End StoreFacts.

(** X1. [_appmanager_create_app] returns NULL exactly when one of its two
    allocations fails, and then no record is added to the heap; when the
    allocation of the record succeeds and the one of the name fails, the
    record's block is not given back ([brk] has moved on). Otherwise it
    returns a block that held no record before, now holding a record with a
    copy of the name up to its terminator, the given type, entry point,
    slot and internal flag, and null [header] and [next]. *)
Theorem create_app_outcomes (st : state) (nm : string) (ty : app_type)
    (e : Z) (i : bool) (s : Z) (p : Z) (st' : state) :
  heap_ok st →
  _appmanager_create_app st nm ty e i s = (p, st') →
  (p = NULL ↔ ¬ plan_ok 2 (calloc_plan st))
  ∧ (p = NULL → heap st' = heap st)
  ∧ (plan_ok 1 (calloc_plan st) → ¬ plan_ok 2 (calloc_plan st) →
     p = NULL ∧ brk st' = brk st + 1)
  ∧ (p ≠ NULL →
     heap st !! p = None
     ∧ heap st' = <[p := mkApp (cstr nm) ty e NULL NULL s i]> (heap st)
     ∧ ∀ x, x ≠ p → heap st' !! x = heap st !! x).
Proof.
  intros Hok Hc. pose proof Hok as [Hbrk _].
  destruct (create_app_shape _ _ _ _ _ _ _ _ Hok Hc) as (b & pl & hp & -> & Hb & Hcase).
  pose proof (heap_ok_fresh st Hok) as Hfresh.
  split_and!.
  - destruct Hcase as [(-> & _ & Hno)|(-> & _ & Hyes & _)]; [done|].
    unfold NULL. split; [lia|done].
  - destruct Hcase as [(_ & -> & _)|(-> & _)]; [done|]. unfold NULL. lia.
  - intros H1 Hno. revert Hc. unfold _appmanager_create_app.
    destruct (calloc st) as [app st1] eqn:E1.
    destruct (calloc_shape _ _ _ E1) as (b1 & -> & Hc1).
    destruct Hc1 as [(_ & _ & Hbad)|(-> & -> & _)]; [done|].
    replace (brk st =? NULL) with false by (symmetry; apply Z.eqb_neq; unfold NULL; lia).
    destruct (calloc (set_alloc st (brk st + 1) _)) as [nb st2] eqn:E2.
    destruct (calloc_shape _ _ _ E2) as (b2 & -> & Hc2). simpl in Hc2.
    destruct Hc2 as [(-> & -> & _)|(-> & _ & H2)].
    + simpl. by intros [= <- <-].
    + exfalso. apply Hno. by apply plan_ok_S.
  - intros Hnn. destruct Hcase as [(-> & _)|(-> & _ & _ & _ & ->)]; [done|].
    split_and!; [done..|]. intros x Hx. simpl. by rewrite lookup_insert_ne.
Qed.

Lemma create_app_outcomes_witness :
  ∃ st',
    _appmanager_create_app (boot bare_board [true; false]) "System" APP_TYPE_SYSTEM
      1001 true 0 = (NULL, st')
    ∧ heap st' = heap (boot bare_board [true; false])
    ∧ brk st' = brk (boot bare_board [true; false]) + 1.
Proof.
  eexists. split; [vm_compute; reflexivity|].
  destruct (create_app_outcomes (boot bare_board [true; false]) "System"
              APP_TYPE_SYSTEM 1001 true 0 NULL _ (boot_heap_ok bare_board _) eq_refl)
    as (_ & Hheap & Hleak & _).
  split; [by apply Hheap|].
  apply Hleak.
  - unfold plan_ok. simpl. by repeat constructor.
  - unfold plan_ok. simpl. intros H. apply Forall_cons in H as [_ H].
    apply Forall_cons in H as [H _]. discriminate.
Defined.

(** X2. Insert, then look up. When both allocations succeed and no record
    of the manifest has a name that is a prefix of the new name, the record
    just inserted is the one a lookup of its name returns. *)
Theorem lookup_after_insert (st : state) (l : list Z) (nm : string)
    (ty : app_type) (e : Z) (i : bool) (s : Z) :
  manifest st = Some l → heap_ok st → plan_ok 2 (calloc_plan st) →
  (∀ x, x ∈ l → ¬ name_matches (heap st) x nm) →
  ∃ st' p, add_new st nm ty e i s = Some st'
    ∧ heap st !! p = None
    ∧ heap st' !! p = Some (mkApp (cstr nm) ty e NULL NULL s i)
    ∧ manifest st' = Some (l ++ [p])
    ∧ appmanager_get_app st' nm = Some (p, st').
Proof.
  intros Hm Hok Hplan Hnone.
  destruct (add_new_ok st l nm ty e i s 0 Hm Hok Hplan)
    as (st' & Hadd & Hok' & _ & _ & Hm' & Hnew & Hkeep).
  exists st', (brk st). split; [done|].
  split; [by apply heap_ok_fresh|]. split; [done|]. split; [done|].
  destruct (get_app_spec st' _ nm Hm') as (r & st1 & Hget & Hfirst & _ & _ & Hst).
  assert (name_matches (heap st') (brk st) nm) as Hself.
  { eexists. split; [exact Hnew|]. simpl. rewrite cstr_idemp. apply is_prefix_refl. }
  assert (first_match (heap st') (l ++ [brk st]) nm (brk st)) as Hmine.
  { right. exists (length l). split_and!; [|done|].
    - by rewrite lookup_app_r, Nat.sub_diag by lia.
    - intros j x Hj Hx. rewrite lookup_app_l in Hx by lia.
      apply list_elem_of_lookup_2 in Hx as Hin.
      rewrite name_matches_keep_iff; [by apply Hnone | exact Hkeep |].
      apply manifest_lseg in Hm. by eapply lseg_lookup. }
  pose proof (first_match_unique _ _ _ _ _ Hfirst Hmine) as ->.
  rewrite Hget. do 2 f_equal. apply Hst. destruct Hok as [Hb _]. unfold NULL. lia.
Qed.

Lemma s5_state_reachable : reachable bare_board s5_state.
Proof.
  apply (reach_add_new bare_board
           (default (boot bare_board [])
              (add_new (boot bare_board []) "S" APP_TYPE_FACE 1002 true 0))
           "System" APP_TYPE_SYSTEM 1001 true 0).
  - apply (reach_add_new bare_board (boot bare_board []) "S" APP_TYPE_FACE 1002 true 0);
      [apply reach_boot|].
    vm_compute. reflexivity.
  - vm_compute. reflexivity.
Qed.

Lemma lookup_after_insert_witness :
  ∃ st' p, add_new s5_state "NiVZ" APP_TYPE_FACE 1003 true 0 = Some st'
    ∧ heap s5_state !! p = None
    ∧ heap st' !! p = Some (mkApp (cstr "NiVZ") APP_TYPE_FACE 1003 NULL NULL 0 true)
    ∧ manifest st' = Some ([1; 3] ++ [p])
    ∧ appmanager_get_app st' "NiVZ" = Some (p, st').
Proof.
  apply (lookup_after_insert s5_state [1; 3]).
  - vm_compute. reflexivity.
  - apply (reachable_manifest bare_board), s5_state_reachable.
  - unfold plan_ok. vm_compute. constructor.
  - intros x Hx (a & Ha & [t Ht]).
    apply elem_of_cons in Hx as [->|Hx].
    + vm_compute in Ha. injection Ha as <-. vm_compute in Ht. discriminate.
    + apply elem_of_cons in Hx as [->|Hx]; [|by apply elem_of_nil in Hx].
      vm_compute in Ha. injection Ha as <-. vm_compute in Ht. discriminate.
Defined.

(** ** The manifest along an execution *)

Section GrowthFacts.

Variable P : platform.

Implicit Types (l : list Z) (st : state).


Lemma keeps_trans (h1 h2 h3 : gmap Z App) : keeps h1 h2 → keeps h2 h3 → keeps h1 h3.
Proof. intros H12 H23. exact (keep_trans h1 h2 h3 H12 H23). Qed.



Lemma add_new_grows st l nm ty e i s :
  manifest st = Some l → heap_ok st →
  ∃ st', add_new st nm ty e i s = Some st' ∧ grows st st' l.
Proof.
  intros Hm Hok.
  destruct (add_new_spec st l nm ty e i s Hm Hok) as (st' & Hadd & Hok' & _ & Hkeep & Hc).
  exists st'. split; [done|].
  destruct Hc as [(_ & Hm' & _)|(_ & _ & Hfresh & Hm' & _)].
  - exists []. rewrite app_nil_r. split_and!; [done..|].
    intros p Hp. by apply elem_of_nil in Hp.
  - exists [brk st]. split_and!; [done..|].
    intros p Hp. apply list_elem_of_singleton in Hp. by subst.
Qed.

Lemma scan_from_grows n i st l :
  manifest st = Some l → heap_ok st →
  ∃ st', scan_from P n i st = Some st' ∧ grows st st' l.
Proof.
  intros Hm Hok.
  destruct (scan_from_spec P n i st l Hm Hok)
    as (st' & new & slots & Hscan & Hok' & _ & Hm' & _ & Hfresh & _ & _ & Hkeep).
  exists st'. split; [done|]. by exists new.
Qed.








Lemma reachable_step st st' : reachable P st → step P st st' → reachable P st'.
Proof.
  intros Hr Hstep. destruct Hstep.
  - by eapply reach_add_new.
  - by eapply reach_scan_slot.
  - by eapply reach_init.
  - by eapply reach_start.
  - by eapply reach_quit.
  - by eapply reach_post_button.
  - by eapply reach_post_tick.
  - by eapply reach_get_app.
  - by eapply reach_supervisor.
Qed.

End GrowthFacts.



Lemma scan_from_plan P n i st st' :
  scan_from P n i st = Some st' → ∃ k, calloc_plan st' = drop k (calloc_plan st).
Proof.
  revert i st. induction n as [|n IH]; intros i st; simpl.
  - intros [= <-]. by exists 0%nat.
  - destruct (scan_slot P st i) as [st1|] eqn:E; simpl; [|done].
    intros H. apply IH in H as [k2 Hk2].
    assert (∃ k1, calloc_plan st1 = drop k1 (calloc_plan st)) as [k1 Hk1].
    { unfold scan_slot in E. destruct (magic_ok _).
      - apply add_new_plan in E as [k Hk]. by exists k.
      - injection E as <-. by exists 0%nat. }
    exists (k1 + k2)%nat. by rewrite Hk2, Hk1, drop_drop.
Qed.







(** X6. The scanner is not idempotent. Run twice with no allocation
    failing, it appends one record for every slot with the magic on each
    run: the manifest ends with two runs of records for the same slots, all
    of them different records. *)
Theorem rescan_appends_again (P : platform) (st : state) (l : list Z) :
  manifest st = Some l → heap_ok st → plan_all (calloc_plan st) →
  ∃ st1 st2 new1 new2,
    _appmanager_flash_load_app_manifest P st = Some st1
    ∧ _appmanager_flash_load_app_manifest P st1 = Some st2
    ∧ manifest st2 = Some (l ++ new1 ++ new2)
    ∧ NoDup (l ++ new1 ++ new2)
    ∧ Forall2 (scanned_record P (heap st2)) new1 (filter (has_magic P) (seqZ 0 32))
    ∧ Forall2 (scanned_record P (heap st2)) new2 (filter (has_magic P) (seqZ 0 32)).
Proof.
  intros Hm Hok Hall.
  destruct (scan_from_spec P 32 0 st l Hm Hok)
    as (st1 & new1 & slots1 & H1 & Hok1 & _ & Hm1 & Hrec1 & _ & _ & Heq1 & _).
  assert (plan_all (calloc_plan st1)) as Hall1.
  { destruct (scan_from_plan P _ _ _ _ H1) as [k ->]. by apply plan_all_drop. }
  destruct (scan_from_spec P 32 0 st1 _ Hm1 Hok1)
    as (st2 & new2 & slots2 & H2 & _ & _ & Hm2 & Hrec2 & _ & _ & Heq2 & Hkeep2).
  rewrite (Heq1 Hall) in Hrec1. rewrite (Heq2 Hall1) in Hrec2.
  change (slot_range 32 0) with (seqZ 0 32) in *.
  exists st1, st2, new1, new2. rewrite <- app_assoc in Hm2.
  split_and!; try done.
  - apply manifest_lseg in Hm2. by eapply lseg_NoDup.
  - eapply Forall2_impl; [exact Hrec1|]. intros p i Hp.
    by eapply scanned_record_keep.
Qed.

Lemma rescan_appends_again_witness :
  ∃ st1 st2 new1 new2,
    _appmanager_flash_load_app_manifest one_app_board (boot one_app_board []) = Some st1
    ∧ _appmanager_flash_load_app_manifest one_app_board st1 = Some st2
    ∧ manifest st2 = Some ([] ++ new1 ++ new2)
    ∧ NoDup ([] ++ new1 ++ new2)
    ∧ Forall2 (scanned_record one_app_board (heap st2)) new1
        (filter (has_magic one_app_board) (seqZ 0 32))
    ∧ Forall2 (scanned_record one_app_board (heap st2)) new2
        (filter (has_magic one_app_board) (seqZ 0 32)).
Proof.
  apply (rescan_appends_again one_app_board (boot one_app_board []) []).
  - reflexivity.
  - apply boot_heap_ok.
  - constructor.
Defined.

(** ** The loader, step by step *)

(** X7. Relocation of a well-formed table. When the reloc entries name
    pairwise different words and none of them a word of the table itself,
    the loop is defined and each named word, holding [v] before, holds the
    address of the arena word with index [v / 4] after: [arena_base + v]
    for a [v] that is a multiple of 4 (below the end of the address space).
    No other word of the arena changes. *)
Theorem relocate_got_rebases (P : platform) (a : list Z) (hd : ApplicationHeader)
    (rs vs : list Z) :
  hdr_reloc_entries_count hd = Z.of_nat (length rs) →
  length vs = length rs →
  (∀ (j : nat) r, rs !! j = Some r →
     read_word a (hdr_app_size hd / 4 + Z.of_nat j) = Some r) →
  (∀ (j : nat) r v, rs !! j = Some r → vs !! j = Some v →
     read_word a (r / 4) = Some v) →
  NoDup ((λ r, r / 4) <$> rs) →
  (∀ r, r ∈ rs →
     ¬ (hdr_app_size hd / 4 ≤ r / 4 < hdr_app_size hd / 4 + Z.of_nat (length rs))) →
  ∃ a', relocate_got P a hd = Some a'
    ∧ length a' = length a
    ∧ (∀ (j : nat) r v, rs !! j = Some r → vs !! j = Some v →
         read_word a' (r / 4) = Some (wrap32 (arena_base P + 4 * (v / 4)))
         ∧ (v mod 4 = 0 → 0 ≤ arena_base P + v < 2 ^ 32 →
            read_word a' (r / 4) = Some (arena_base P + v)))
    ∧ (∀ k, k ∉ ((λ r, r / 4) <$> rs) → read_word a' k = read_word a k).
Proof.
  intros Hcount Hlen Htab Hval Hnd Hout.
  destruct (reloc_loop_spec P (hdr_app_size hd / 4) rs vs 0 a Hlen)
    as (a' & Hloop & Hdone & Hrest).
  { intros j r Hj. rewrite Z.add_0_r. by apply Htab. }
  { done. }
  { done. }
  { intros r Hr. rewrite Z.add_0_r. by apply Hout. }
  assert (relocate_got P a hd = Some a') as Hgot.
  { unfold relocate_got. rewrite Hcount, Nat2Z.id.
    destruct (0 <? Z.of_nat (length rs)) eqn:E; [done|].
    apply Z.ltb_ge in E. destruct rs; simpl in *; [|lia].
    by injection Hloop as <-. }
  exists a'. split; [done|]. split_and!.
  - unfold relocate_got in Hgot. destruct (0 <? _).
    + by eapply reloc_loop_length.
    + by injection Hgot as <-.
  - intros j r v Hj Hv. pose proof (Hdone j r v Hj Hv) as Hw.
    split; [done|]. intros Hal Hrange. rewrite Hw. f_equal. unfold wrap32.
    assert (4 * (v / 4) = v) as -> by (Z.div_mod_to_equations; lia).
    apply Z.mod_small. lia.
  - done.
Qed.

Lemma relocate_got_rebases_witness :
  ∃ a', relocate_got one_app_board copied_arena test_header = Some a'
    ∧ length a' = length copied_arena
    ∧ (∀ (j : nat) r v, [0] !! j = Some r → [5] !! j = Some v →
         read_word a' (r / 4) = Some (wrap32 (arena_base one_app_board + 4 * (v / 4)))
         ∧ (v mod 4 = 0 → 0 ≤ arena_base one_app_board + v < 2 ^ 32 →
            read_word a' (r / 4) = Some (arena_base one_app_board + v)))
    ∧ (∀ k, k ∉ ((λ r, r / 4) <$> [0]) → read_word a' k = read_word copied_arena k).
Proof.
  apply (relocate_got_rebases one_app_board copied_arena test_header [0] [5]).
  - reflexivity.
  - reflexivity.
  - intros [|j] r Hj; [|destruct j; discriminate].
    injection Hj as <-. vm_compute. reflexivity.
  - intros [|j] r v Hj Hv; [|destruct j; discriminate].
    injection Hj as <-. injection Hv as <-. vm_compute. reflexivity.
  - vm_compute. repeat constructor. intros H. by apply elem_of_nil in H.
  - intros r Hr. apply list_elem_of_singleton in Hr as ->. vm_compute. intros [H1 H2].
    by apply H1.
Defined.

Section PokeFacts.

Variable P : platform.

Lemma byte_of_word w :
  byte_of w 0 + byte_of w 1 * 2 ^ 8 + byte_of w 2 * 2 ^ 16 + byte_of w 3 * 2 ^ 24
  = wrap32 w.
Proof. unfold byte_of. simpl. rewrite Z.shiftr_0_r. apply word_of_bytes. Qed.

(** The four stores of the poke, spelled out. *)
Lemma poke_sym_table_bytes (a : list Z) hd :
  0 ≤ hdr_sym_table_addr hd →
  hdr_sym_table_addr hd + 3 < Z.of_nat (length a) →
  Z.of_nat (length a) ≤ 2 ^ 32 →
  ∃ a', poke_sym_table P a hd = Some a'
    ∧ length a' = length a
    ∧ (∀ j, 0 ≤ j ≤ 3 →
         get_byte a' (hdr_sym_table_addr hd + j) = Some (byte_of (wrap32 (sym P)) j))
    ∧ (∀ off, ¬ (hdr_sym_table_addr hd ≤ off ≤ hdr_sym_table_addr hd + 3) →
         get_byte a' off = get_byte a off).
Proof.
  intros H0 H3 Hlen. unfold poke_sym_table.
  assert (∀ d, 0 ≤ d ≤ 3 → wrap32 (hdr_sym_table_addr hd + d) = hdr_sym_table_addr hd + d)
    as Hw by (intros d Hd; unfold wrap32; apply Z.mod_small; lia).
  rewrite !Hw by lia.
  set (at_ := hdr_sym_table_addr hd) in *. set (s := wrap32 (sym P)).
  destruct (set_byte_is_Some a at_ (Z.land s 255)) as [a0 E0]; [lia|].
  rewrite E0. simpl. pose proof (set_byte_length _ _ _ _ E0) as L0.
  destruct (set_byte_is_Some a0 (at_ + 1) (Z.land (Z.shiftr s 8) 255)) as [a1 E1]; [lia|].
  rewrite E1. simpl. pose proof (set_byte_length _ _ _ _ E1) as L1.
  destruct (set_byte_is_Some a1 (at_ + 2) (Z.land (Z.shiftr s 16) 255)) as [a2 E2]; [lia|].
  rewrite E2. simpl. pose proof (set_byte_length _ _ _ _ E2) as L2.
  destruct (set_byte_is_Some a2 (at_ + 3) (Z.land (Z.shiftr s 24) 255)) as [a3 E3]; [lia|].
  rewrite E3. exists a3. split; [done|].
  pose proof (set_byte_length _ _ _ _ E3) as L3.
  split; [congruence|]. split.
  - intros j Hj.
    assert (j = 0 ∨ j = 1 ∨ j = 2 ∨ j = 3) as [-> | [-> | [-> | ->]]] by lia.
    + rewrite Z.add_0_r.
      rewrite (get_set_byte_ne _ _ _ _ at_ E3) by lia.
      rewrite (get_set_byte_ne _ _ _ _ at_ E2) by lia.
      rewrite (get_set_byte_ne _ _ _ _ at_ E1) by lia.
      rewrite (get_set_byte_eq _ _ _ _ E0). unfold byte_of. simpl.
      by rewrite Z.shiftr_0_r.
    + rewrite (get_set_byte_ne _ _ _ _ (at_ + 1) E3) by lia.
      rewrite (get_set_byte_ne _ _ _ _ (at_ + 1) E2) by lia.
      by rewrite (get_set_byte_eq _ _ _ _ E1).
    + rewrite (get_set_byte_ne _ _ _ _ (at_ + 2) E3) by lia.
      by rewrite (get_set_byte_eq _ _ _ _ E2).
    + by rewrite (get_set_byte_eq _ _ _ _ E3).
  - intros off Hoff.
    rewrite (get_set_byte_ne _ _ _ _ off E3) by lia.
    rewrite (get_set_byte_ne _ _ _ _ off E2) by lia.
    rewrite (get_set_byte_ne _ _ _ _ off E1) by lia.
    apply (get_set_byte_ne _ _ _ _ off E0). lia.
Qed.

End PokeFacts.

(** X8. The symbol table poke. With the four bytes of the slot inside the
    arena the poke is defined; it stores the address of the symbol table,
    cut to 32 bits, little-endian in the four bytes at [sym_table_addr] and
    leaves every other byte of the arena as it was. For a slot that starts
    at a multiple of 4 the arena word there reads back as that address. *)
Theorem poke_sym_table_stores_address (P : platform) (a : list Z)
    (hd : ApplicationHeader) :
  0 ≤ hdr_sym_table_addr hd →
  hdr_sym_table_addr hd + 3 < Z.of_nat (length a) →
  Z.of_nat (length a) ≤ 2 ^ 32 →
  ∃ a' b0 b1 b2 b3, poke_sym_table P a hd = Some a'
    ∧ get_byte a' (hdr_sym_table_addr hd) = Some b0
    ∧ get_byte a' (hdr_sym_table_addr hd + 1) = Some b1
    ∧ get_byte a' (hdr_sym_table_addr hd + 2) = Some b2
    ∧ get_byte a' (hdr_sym_table_addr hd + 3) = Some b3
    ∧ b0 + b1 * 2 ^ 8 + b2 * 2 ^ 16 + b3 * 2 ^ 24 = sym P mod 2 ^ 32
    ∧ (hdr_sym_table_addr hd mod 4 = 0 →
       read_word a' (hdr_sym_table_addr hd / 4) = Some (sym P mod 2 ^ 32))
    ∧ (∀ off, ¬ (hdr_sym_table_addr hd ≤ off ≤ hdr_sym_table_addr hd + 3) →
         get_byte a' off = get_byte a off).
Proof.
  intros H0 H3 Hlen.
  destruct (poke_sym_table_bytes P a hd H0 H3 Hlen) as (a' & Hp & _ & Hb & Hrest).
  pose proof (Hb 0) as Hb0. rewrite Z.add_0_r in Hb0.
  exists a', (byte_of (wrap32 (sym P)) 0), (byte_of (wrap32 (sym P)) 1),
    (byte_of (wrap32 (sym P)) 2), (byte_of (wrap32 (sym P)) 3).
  assert (wrap32 (wrap32 (sym P)) = sym P mod 2 ^ 32) as Hidem
    by (unfold wrap32; apply Z.mod_mod; lia).
  split_and!; [done | apply Hb0; lia | apply Hb; lia | apply Hb; lia | apply Hb; lia
              | | | done].
  - by rewrite byte_of_word.
  - intros Hal. unfold read_word.
    assert (4 * (hdr_sym_table_addr hd / 4) = hdr_sym_table_addr hd) as ->
      by (Z.div_mod_to_equations; lia).
    rewrite Hb0, !Hb by lia. simpl. by rewrite byte_of_word, Hidem.
Qed.

Lemma poke_sym_table_stores_address_witness :
  ∃ a' b0 b1 b2 b3, poke_sym_table one_app_board copied_arena test_header = Some a'
    ∧ get_byte a' 4 = Some b0
    ∧ get_byte a' (4 + 1) = Some b1
    ∧ get_byte a' (4 + 2) = Some b2
    ∧ get_byte a' (4 + 3) = Some b3
    ∧ b0 + b1 * 2 ^ 8 + b2 * 2 ^ 16 + b3 * 2 ^ 24 = sym one_app_board mod 2 ^ 32
    ∧ (4 mod 4 = 0 → read_word a' (4 / 4) = Some (sym one_app_board mod 2 ^ 32))
    ∧ (∀ off, ¬ (4 ≤ off ≤ 4 + 3) → get_byte a' off = get_byte copied_arena off).
Proof.
  apply (poke_sym_table_stores_address one_app_board copied_arena test_header).
  - vm_compute. discriminate.
  - vm_compute. reflexivity.
  - vm_compute. discriminate.
Defined.

Section LoadFacts.

Variable P : platform.

Lemma flash_load_app_bytes slot (a : list Z) size a' :
  flash_load_app P slot a size = Some a' →
  (∀ off, 0 ≤ off < size → get_byte a' off = Some (flash_app P slot off))
  ∧ (∀ off, size ≤ off → get_byte a' off = get_byte a off).
Proof.
  unfold flash_load_app. destruct (_ && _) eqn:E; [|done]. intros [= <-].
  apply andb_true_iff in E as [E1 E2]. apply Z.leb_le in E1, E2.
  split; intros off Hoff; unfold get_byte.
  - replace (0 <=? off) with true by (symmetry; apply Z.leb_le; lia).
    rewrite lookup_app_l by (rewrite length_fmap, length_seqZ; lia).
    rewrite list_lookup_fmap, lookup_seqZ_lt by lia. simpl.
    do 2 f_equal. lia.
  - replace (0 <=? off) with true by (symmetry; apply Z.leb_le; lia).
    rewrite lookup_app_r; rewrite length_fmap, length_seqZ; [|lia].
    rewrite lookup_drop. f_equal. lia.
Qed.

Lemma flash_load_app_is_Some slot (a : list Z) size :
  0 ≤ size ≤ Z.of_nat (length a) → is_Some (flash_load_app P slot a size).
Proof.
  intros H. unfold flash_load_app.
  replace (0 <=? size) with true by (symmetry; apply Z.leb_le; lia).
  replace (size <=? Z.of_nat (length a)) with true by (symmetry; apply Z.leb_le; lia).
  simpl. eauto.
Qed.

Lemma memset_after (a : list Z) off c n a' off' :
  memset a off c n = Some a' → off + n ≤ off' → get_byte a' off' = get_byte a off'.
Proof.
  unfold memset. destruct (_ && _) eqn:E; [|done]. intros [= <-] Hge.
  apply andb_true_iff in E as [E E3]. apply andb_true_iff in E as [E1 E2].
  apply Z.leb_le in E1, E2, E3. unfold get_byte.
  replace (0 <=? off') with true by (symmetry; apply Z.leb_le; lia).
  rewrite lookup_app_r; rewrite length_take; [|lia].
  rewrite lookup_app_r; rewrite length_replicate; [|lia].
  rewrite lookup_drop. f_equal. lia.
Qed.

(** The non-internal branch, given how its three arena steps went. *)
Lemma load_and_spawn_result st app a1 a2 a3 :
  let hd := flash_header P (slot_id app) in
  load_and_relocate P (app_stack_heap st) (slot_id app) hd = Some a1 →
  zero_bss a1 hd = Some a2 →
  poke_sym_table P a2 hd = Some a3 →
  ∃ st', load_and_spawn P st app = Some st'
    ∧ app_stack_heap st' = a3
    ∧ _app_task_handle st' = Some (loaded_task P hd)
    ∧ same_store st st'
    ∧ _running_app st' = _running_app st
    ∧ _app_message_queue st' = _app_message_queue st
    ∧ _app_thread_queue st' = _app_thread_queue st
    ∧ trace st' = trace st
        ++ [EvFlashLoadHeader (slot_id app);
            EvFlashLoadApp (slot_id app)
              (wrap32 (hdr_app_size hd + wrap32 (hdr_reloc_entries_count hd * 4)))]
        ++ (EvLog <$> header_logs)
        ++ [EvLog "Base %x heap %x sz %d stack %x sz %d";
            EvHeapInit (loaded_heap_size P hd) (arena_base P + hdr_virtual_size hd);
            EvTaskCreate (loaded_task P hd)].
Proof.
  intros hd H1 H2 H3. unfold load_and_spawn. fold hd. simpl.
  rewrite H1. simpl. rewrite H2. simpl. rewrite H3. simpl.
  eexists. split; [reflexivity|]. simpl.
  split_and!; try done.
  rewrite wrap32_heap_size. unfold loaded_heap_size, loaded_task.
  by rewrite <- !app_assoc.
Qed.

Lemma load_and_spawn_inv st app st' :
  let hd := flash_header P (slot_id app) in
  load_and_spawn P st app = Some st' →
  ∃ a1 a2 a3,
    load_and_relocate P (app_stack_heap st) (slot_id app) hd = Some a1
    ∧ zero_bss a1 hd = Some a2 ∧ poke_sym_table P a2 hd = Some a3.
Proof.
  intros hd. unfold load_and_spawn. fold hd. simpl.
  destruct (load_and_relocate _ _ _ _) as [a1|] eqn:E1; simpl; [|done].
  destruct (zero_bss a1 _) as [a2|] eqn:E2; simpl; [|done].
  destruct (poke_sym_table _ a2 _) as [a3|] eqn:E3; simpl; [|done].
  intros _. by exists a1, a2, a3.
Qed.

(** The poke writes the four bytes of the slot and no other. *)
Lemma poke_sym_table_other (a : list Z) hd a' off :
  poke_sym_table P a hd = Some a' →
  off ≠ hdr_sym_table_addr hd →
  off ≠ wrap32 (hdr_sym_table_addr hd + 1) →
  off ≠ wrap32 (hdr_sym_table_addr hd + 2) →
  off ≠ wrap32 (hdr_sym_table_addr hd + 3) →
  get_byte a' off = get_byte a off.
Proof.
  unfold poke_sym_table. intros H H0 H1 H2 H3.
  destruct (set_byte a _ _) as [a0|] eqn:E0; simpl in H; [|done].
  destruct (set_byte a0 _ _) as [a1|] eqn:E1; simpl in H; [|done].
  destruct (set_byte a1 _ _) as [a2|] eqn:E2; simpl in H; [|done].
  rewrite (get_set_byte_ne _ _ _ _ off H) by done.
  rewrite (get_set_byte_ne _ _ _ _ off E2) by done.
  rewrite (get_set_byte_ne _ _ _ _ off E1) by done.
  by apply (get_set_byte_ne _ _ _ _ off E0).
Qed.

End LoadFacts.

(** C6. In a load of a non-internal application the bss step comes after
    the image copy and the GOT relocation and fills the bytes of the arena
    from [app_size] up to [virtual_size] (excluded) with zero. Whenever the
    load goes through, every such byte is zero right after the step, and it
    still is when the load is done, the four bytes apart that the symbol
    table poke writes after the step. The load goes through whenever the
    copy and the relocation do, [app_size <= virtual_size], the image fits
    the arena and the symbol table slot lies in it. *)
Theorem bss_zero_after_zeroing (P : platform) (st : state) (app : App) :
  let hd := flash_header P (slot_id app) in
  let arena := app_stack_heap st in
  0 ≤ hdr_app_size hd < 2 ^ 32 → 0 ≤ hdr_virtual_size hd < 2 ^ 32 →
  (∀ st', load_and_spawn P st app = Some st' →
     ∃ a1 a2,
       load_and_relocate P arena (slot_id app) hd = Some a1
       ∧ zero_bss a1 hd = Some a2
       ∧ poke_sym_table P a2 hd = Some (app_stack_heap st')
       ∧ (∀ off, hdr_app_size hd ≤ off < hdr_virtual_size hd →
            get_byte a2 off = Some 0)
       ∧ (∀ off, hdr_app_size hd ≤ off < hdr_virtual_size hd →
            off ≠ hdr_sym_table_addr hd →
            off ≠ wrap32 (hdr_sym_table_addr hd + 1) →
            off ≠ wrap32 (hdr_sym_table_addr hd + 2) →
            off ≠ wrap32 (hdr_sym_table_addr hd + 3) →
            get_byte (app_stack_heap st') off = Some 0))
  ∧ (∀ a1, load_and_relocate P arena (slot_id app) hd = Some a1 →
       hdr_app_size hd ≤ hdr_virtual_size hd →
       hdr_virtual_size hd ≤ Z.of_nat (length arena) →
       0 ≤ hdr_sym_table_addr hd →
       hdr_sym_table_addr hd + 3 < Z.of_nat (length arena) →
       Z.of_nat (length arena) ≤ 2 ^ 32 →
       is_Some (load_and_spawn P st app)).
Proof.
  intros hd arena Has Hvs. split.
  - intros st' Hload.
    destruct (load_and_spawn_inv P _ _ _ Hload) as (a1 & a2 & a3 & E1 & E2 & E3).
    destruct (load_and_spawn_result P _ _ a1 a2 a3 E1 E2 E3) as (st2 & Hs2 & Ha3 & _).
    rewrite Hs2 in Hload. injection Hload as <-.
    fold hd in E1, E2, E3. fold arena in E1.
    exists a1, a2. rewrite Ha3.
    assert (∀ off, hdr_app_size hd ≤ off < hdr_virtual_size hd →
              get_byte a2 off = Some 0) as Hzero.
    { intros off Hoff. unfold zero_bss in E2.
      assert (wrap32 (hdr_virtual_size hd - hdr_app_size hd)
              = hdr_virtual_size hd - hdr_app_size hd) as Hw
        by (unfold wrap32; apply Z.mod_small; lia).
      rewrite Hw in E2.
      apply (memset_inside _ _ _ _ _ off) in E2; [done|lia]. }
    split_and!; try done.
    intros off Hoff H0 H1 H2 H3.
    rewrite (poke_sym_table_other P a2 hd a3 off E3) by done. by apply Hzero.
  - intros a1 E1 Hle Hfit Hs0 Hs3 Hlen.
    pose proof (load_and_relocate_length _ _ _ _ _ E1) as L1. fold arena in L1.
    destruct (memset_is_Some a1 (hdr_app_size hd) 0
                (hdr_virtual_size hd - hdr_app_size hd)) as [a2 E2]; [lia..|].
    pose proof (memset_length _ _ _ _ _ E2) as L2.
    destruct (poke_sym_table_is_Some P a2 hd) as [a3 E3]; [lia..|].
    destruct (load_and_spawn_result P st app a1 a2 a3) as (st' & Hload & _).
    + exact E1.
    + unfold zero_bss. fold hd. unfold wrap32. by rewrite Z.mod_small by lia.
    + exact E3.
    + by exists st'.
Qed.

Lemma bss_zero_after_zeroing_witness :
  ∃ st', load_and_spawn one_app_board (boot one_app_board [])
           (mkApp "TestApp" APP_TYPE_FACE 0 0 0 5 false) = Some st'
    ∧ ∀ off, 8 ≤ off < 16 → get_byte (app_stack_heap st') off = Some 0.
Proof.
  destruct (bss_zero_after_zeroing one_app_board (boot one_app_board [])
              (mkApp "TestApp" APP_TYPE_FACE 0 0 0 5 false)) as [Hzero Hdef].
  - simpl. lia.
  - simpl. lia.
  - destruct (Hdef relocated_arena) as [st' Hs].
    + vm_compute. reflexivity.
    + simpl. lia.
    + vm_compute. discriminate.
    + simpl. lia.
    + vm_compute. reflexivity.
    + vm_compute. discriminate.
    + exists st'. split; [exact Hs|]. intros off Hoff.
      destruct (Hzero st' Hs) as (a1 & a2 & _ & _ & _ & _ & Hfinal).
      apply Hfinal.
      * simpl. lia.
      * simpl. lia.
      * change (off ≠ 5). lia.
      * change (off ≠ 6). lia.
      * change (off ≠ 7). lia.
Defined.

(** X9. What a load of an image without reloc entries leaves in the arena.
    If [app_size <= virtual_size], the image fits the arena and the symbol
    table slot lies inside it, the load is defined, and outside the four
    bytes of the slot the arena holds: the image bytes from flash below
    [app_size], zero from there up to [virtual_size], and from
    [virtual_size] on what it held before the load. *)
Theorem load_without_relocs_contents (P : platform) (st : state) (app : App) :
  let hd := flash_header P (slot_id app) in
  let arena := app_stack_heap st in
  hdr_reloc_entries_count hd = 0 →
  0 ≤ hdr_app_size hd ≤ hdr_virtual_size hd →
  hdr_virtual_size hd ≤ Z.of_nat (length arena) →
  0 ≤ hdr_sym_table_addr hd →
  hdr_sym_table_addr hd + 3 < Z.of_nat (length arena) →
  Z.of_nat (length arena) < 2 ^ 32 →
  ∃ st', load_and_spawn P st app = Some st'
    ∧ length (app_stack_heap st') = length arena
    ∧ ∀ off, 0 ≤ off →
        ¬ (hdr_sym_table_addr hd ≤ off ≤ hdr_sym_table_addr hd + 3) →
        get_byte (app_stack_heap st') off
        = if off <? hdr_app_size hd then Some (flash_app P (slot_id app) off)
          else if off <? hdr_virtual_size hd then Some 0
          else get_byte arena off.
Proof.
  intros hd arena Hcount Hsz Hfit Hs0 Hs3 Hlen.
  assert (load_and_relocate P arena (slot_id app) hd
          = flash_load_app P (slot_id app) arena (hdr_app_size hd)) as Hlr.
  { unfold load_and_relocate, relocate_got. rewrite Hcount. simpl.
    replace (wrap32 (hdr_app_size hd + wrap32 (0 * 4))) with (hdr_app_size hd).
    - by destruct (flash_load_app _ _ _ _).
    - unfold wrap32. rewrite (Z.mod_small (0 * 4)) by lia.
      rewrite Z.add_0_r, Z.mod_small; lia. }
  destruct (flash_load_app_is_Some P (slot_id app) arena (hdr_app_size hd)) as [a1 E1];
    [lia|].
  rewrite E1 in Hlr.
  pose proof (flash_load_app_length _ _ _ _ _ E1) as L1.
  destruct (flash_load_app_bytes _ _ _ _ _ E1) as [Hlow Hhigh].
  assert (wrap32 (hdr_virtual_size hd - hdr_app_size hd)
          = hdr_virtual_size hd - hdr_app_size hd) as Hw
    by (unfold wrap32; apply Z.mod_small; lia).
  destruct (memset_is_Some a1 (hdr_app_size hd) 0
              (hdr_virtual_size hd - hdr_app_size hd)) as [a2 E2]; [lia..|].
  pose proof (memset_length _ _ _ _ _ E2) as L2.
  destruct (poke_sym_table_bytes P a2 hd) as (a3 & E3 & L3 & _ & Hrest); [lia..|].
  destruct (load_and_spawn_result P st app a1 a2 a3) as (st' & Hload & Ha & _).
  { exact Hlr. }
  { unfold zero_bss. fold hd. by rewrite Hw. }
  { exact E3. }
  exists st'. split; [done|]. rewrite Ha. split; [congruence|].
  intros off Hoff Hslot. rewrite (Hrest off Hslot).
  destruct (off <? hdr_app_size hd) eqn:Ea.
  - apply Z.ltb_lt in Ea.
    rewrite (memset_before _ _ _ _ _ off E2) by lia. apply Hlow. lia.
  - apply Z.ltb_ge in Ea. destruct (off <? hdr_virtual_size hd) eqn:Ev.
    + apply Z.ltb_lt in Ev. rewrite (memset_inside _ _ _ _ _ off E2) by lia. done.
    + apply Z.ltb_ge in Ev. rewrite (memset_after _ _ _ _ _ off E2) by lia.
      apply Hhigh. lia.
Qed.

Lemma load_without_relocs_contents_witness :
  ∃ st', load_and_spawn big_bss_board big_start_state
           (mkApp "BigApp" APP_TYPE_FACE 0 0 0 5 false) = Some st'
    ∧ length (app_stack_heap st') = length (app_stack_heap big_start_state)
    ∧ ∀ off, 0 ≤ off → ¬ (4 ≤ off ≤ 4 + 3) →
        get_byte (app_stack_heap st') off
        = if off <? 8 then Some (flash_app big_bss_board 5 off)
          else if off <? 56 then Some 0
          else get_byte (app_stack_heap big_start_state) off.
Proof.
  apply (load_without_relocs_contents big_bss_board big_start_state
           (mkApp "BigApp" APP_TYPE_FACE 0 0 0 5 false)).
  - reflexivity.
  - vm_compute. split; discriminate.
  - vm_compute. discriminate.
  - vm_compute. discriminate.
  - vm_compute. reflexivity.
  - vm_compute. reflexivity.
Defined.



(** ** Rounds of the supervisor *)

Section RoundFacts.

Variable P : platform.

Implicit Types (st : state).

Lemma before_spawn_store st mq app : same_store st (before_spawn st mq app).
Proof. unfold before_spawn. simpl. destruct (_app_task_handle st); by repeat split. Qed.

Lemma before_spawn_fields st mq app :
  _running_app (before_spawn st mq app) = app
  ∧ _app_message_queue (before_spawn st mq app) = Some (mkQueue (q_cap mq) [])
  ∧ _app_thread_queue (before_spawn st mq app) = _app_thread_queue st
  ∧ _app_task_handle (before_spawn st mq app) = _app_task_handle st
  ∧ trace (before_spawn st mq app)
    = trace st ++ [EvLog "Starting app %s"; EvQueueReset MessageQueue]
        ++ match _app_task_handle st with Some t => [EvTaskDelete t] | None => [] end.
Proof.
  unfold before_spawn. simpl. destruct (_app_task_handle st) eqn:E; simpl;
    split_and!; try done; by rewrite <- ?app_assoc.
Qed.

(** The internal branch, spelled out. *)
Lemma spawn_internal_result st a :
  heap st !! _running_app st = Some a →
  ∃ st', spawn_internal P st = Some st'
    ∧ same_store st st'
    ∧ _running_app st' = _running_app st
    ∧ app_stack_heap st' = app_stack_heap st
    ∧ _app_message_queue st' = _app_message_queue st
    ∧ _app_thread_queue st' = _app_thread_queue st
    ∧ _app_task_handle st' = Some (internal_task P a)
    ∧ trace st' = trace st
        ++ [EvHeapInit (wrap32 (MAX_APP_MEMORY_SIZE P - MAX_APP_STACK_SIZE P * 4))
              (arena_base P);
            EvTaskCreate (internal_task P a)].
Proof.
  intros Ha. unfold spawn_internal. simpl. rewrite Ha. simpl.
  eexists. split; [reflexivity|]. simpl. split_and!; try done.
  by rewrite <- app_assoc.
Qed.

Lemma spawn_internal_inv st st' :
  spawn_internal P st = Some st' → ∃ a, heap st !! _running_app st = Some a.
Proof.
  unfold spawn_internal. simpl.
  destruct (heap st !! _running_app st) as [a|]; simpl; [|done]. eauto.
Qed.

Lemma task_events_app (t1 t2 : list event) :
  task_events (t1 ++ t2) = task_events t1 ++ task_events t2.
Proof. unfold task_events. apply omap_app. Qed.

Lemma task_events_logs (l : list string) : task_events (EvLog <$> l) = [].
Proof. induction l as [|s l IH]; [done|]. simpl. exact IH. Qed.

End RoundFacts.



Section RoundCases.

Variable P : platform.

Implicit Types (st : state).

(** The three ways a round of the supervisor can go. *)
Lemma app_thread_body_cases st am o :
  app_thread_body P st am = Some o →
  ∃ nm mq, payload am = PName nm ∧ _app_message_queue st = Some mq
    ∧ ((_app_manifest_head st = NULL
        ∧ o = Returned (emit (KERN_LOG (after_reset st mq) "No Apps found!")
                          (EvAssert "No Apps")))
       ∨ (_app_manifest_head st ≠ NULL
          ∧ appmanager_get_app (after_reset st mq) nm
            = Some (NULL, KERN_LOG (after_reset st mq) "NO App Found %s")
          ∧ o = Returned (KERN_LOG (after_reset st mq) "NO App Found %s"))
       ∨ (∃ app a st', app ≠ NULL ∧ heap st !! app = Some a
            ∧ appmanager_get_app st nm = Some (app, st)
            ∧ o = Continue st'
            ∧ ((is_internal a = true
                ∧ spawn_internal P (before_spawn st mq app) = Some st')
               ∨ (is_internal a = false
                  ∧ load_and_spawn P (before_spawn st mq app) a = Some st')))).
Proof.
  unfold app_thread_body.
  destruct (payload am) as [|nm| |]; simpl; try done.
  destruct (_app_message_queue st) as [mq|] eqn:Emq; simpl; [|done].
  fold (after_reset st mq).
  intros H. exists nm, mq. split; [done|]. split; [done|].
  destruct (_app_manifest_head st =? NULL) eqn:Eh.
  { apply Z.eqb_eq in Eh. left. injection H as <-. simpl in Eh. done. }
  apply Z.eqb_neq in Eh. simpl in Eh. right.
  destruct (appmanager_get_app (after_reset st mq) nm) as [[app st1]|] eqn:Eget;
    simpl in H; [|done].
  destruct (app =? NULL) eqn:Ea.
  { apply Z.eqb_eq in Ea. subst app. injection H as <-. left.
    assert (st1 = KERN_LOG (after_reset st mq) "NO App Found %s") as ->.
    { revert Eget. unfold appmanager_get_app.
      destruct (find_app _ _ _ _) as [r|]; simpl; [|done].
      destruct (r =? NULL) eqn:Er; [by intros [= <-]|].
      intros [= -> _]. by apply Z.eqb_neq in Er. }
    done. }
  apply Z.eqb_neq in Ea. right.
  destruct (get_app_found _ _ _ _ Eget Ea) as [-> Hfind].
  assert (appmanager_get_app st nm = Some (app, st)) as Hget.
  { unfold appmanager_get_app.
    rewrite <- (find_app_same_store st (after_reset st mq)) by (by repeat split).
    rewrite Hfind. simpl. apply Z.eqb_neq in Ea. by rewrite Ea. }
  change (match _app_task_handle (after_reset st mq) with
          | Some t => emit (set_running_app (after_reset st mq) app) (EvTaskDelete t)
          | None => set_running_app (after_reset st mq) app
          end) with (before_spawn st mq app) in H.
  pose proof (before_spawn_store st mq app) as (Hh & _).
  destruct (heap (before_spawn st mq app) !! app) as [a|] eqn:Ha; simpl in H; [|done].
  rewrite Hh in Ha.
  destruct (is_internal a) eqn:Ei; simpl in H.
  - destruct (spawn_internal P _) as [st'|] eqn:Es; simpl in H; [|done].
    injection H as <-. exists app, a, st'. split_and!; try done. by left.
  - destruct (load_and_spawn P _ a) as [st'|] eqn:Es; simpl in H; [|done].
    injection H as <-. exists app, a, st'. split_and!; try done. by right.
Qed.

End RoundCases.

(** X12. A round of the supervisor empties the message queue, also when it
    gives the request up: whatever was posted for the application before, a
    Quit that nobody took included, is gone when the round ends. *)
Theorem round_resets_message_queue (P : platform) (st : state) (am : AppMessage)
    (o : outcome) :
  app_thread_body P st am = Some o →
  ∃ mq, _app_message_queue st = Some mq
    ∧ _app_message_queue (outcome_state o) = Some (mkQueue (q_cap mq) []).
Proof.
  intros H. destruct (app_thread_body_cases P st am o H)
    as (nm & mq & _ & Hmq & [[_ ->]|[(_ & _ & ->)|Hc]]).
  - exists mq. done.
  - exists mq. done.
  - destruct Hc as (app & a & st' & _ & Ha & _ & -> & Hsp).
    exists mq. split; [done|]. simpl.
    destruct (before_spawn_fields st mq app) as (Hr & Hq & _).
    destruct (before_spawn_store st mq app) as (Hh & _).
    destruct Hsp as [[_ Hs]|[_ Hs]].
    + destruct (spawn_internal_result P (before_spawn st mq app) a)
        as (st2 & Hs2 & _ & _ & _ & Hq2 & _); [by rewrite Hr, Hh|].
      rewrite Hs2 in Hs. injection Hs as <-. congruence.
    + destruct (load_and_spawn_inv P _ _ _ Hs) as (a1 & a2 & a3 & E1 & E2 & E3).
      destruct (load_and_spawn_result P _ _ a1 a2 a3 E1 E2 E3)
        as (st2 & Hs2 & _ & _ & _ & _ & Hq2 & _).
      rewrite Hs2 in Hs. injection Hs as <-. congruence.
Qed.

Lemma round_resets_message_queue_witness :
  ∃ o, app_thread_body bare_board full_queue_state (start_message "Nope") = Some o
    ∧ ∃ mq, _app_message_queue full_queue_state = Some mq
        ∧ length (q_items mq) = 5%nat
        ∧ _app_message_queue (outcome_state o) = Some (mkQueue (q_cap mq) []).
Proof.
  eexists. split; [vm_compute; reflexivity|].
  destruct (round_resets_message_queue bare_board full_queue_state (start_message "Nope") _
              ltac:(vm_compute; reflexivity)) as (mq & Hmq & Hq).
  exists mq. split; [exact Hmq|]. split; [|exact Hq].
  vm_compute in Hmq. injection Hmq as <-. reflexivity.
Defined.

(** The task creations and deletions of one round. *)
Lemma app_thread_body_tasks (P : platform) (st : state) (am : AppMessage) (o : outcome) :
  app_thread_body P st am = Some o →
  match o with
  | Returned st' =>
      task_events (trace st') = task_events (trace st)
      ∧ _app_task_handle st' = _app_task_handle st
  | Continue st' =>
      ∃ t, _app_task_handle st' = Some t
        ∧ task_events (trace st')
          = task_events (trace st)
            ++ match _app_task_handle st with
               | Some t0 => [EvTaskDelete t0]
               | None => []
               end
            ++ [EvTaskCreate t]
  end.
Proof.
  intros H. destruct (app_thread_body_cases P st am o H)
    as (nm & mq & _ & Hmq & [[_ ->]|[(_ & _ & ->)|Hc]]).
  - simpl. rewrite !task_events_app. simpl. by rewrite !app_nil_r.
  - simpl. rewrite !task_events_app. simpl. by rewrite !app_nil_r.
  - destruct Hc as (app & a & st' & _ & Ha & _ & -> & Hsp).
    destruct (before_spawn_fields st mq app) as (Hr & _ & _ & _ & Htr).
    destruct (before_spawn_store st mq app) as (Hh & _).
    assert (task_events (trace (before_spawn st mq app))
            = task_events (trace st)
              ++ match _app_task_handle st with
                 | Some t0 => [EvTaskDelete t0]
                 | None => []
                 end) as Hbefore.
    { rewrite Htr, !task_events_app. simpl. by destruct (_app_task_handle st). }
    destruct Hsp as [[_ Hs]|[_ Hs]].
    + destruct (spawn_internal_result P (before_spawn st mq app) a)
        as (st2 & Hs2 & _ & _ & _ & _ & _ & Hh2 & Htr2); [by rewrite Hr, Hh|].
      rewrite Hs2 in Hs. injection Hs as <-. eexists. split; [exact Hh2|].
      rewrite Htr2, task_events_app, Hbefore. simpl. by rewrite <- app_assoc.
    + destruct (load_and_spawn_inv P _ _ _ Hs) as (a1 & a2 & a3 & E1 & E2 & E3).
      destruct (load_and_spawn_result P _ _ a1 a2 a3 E1 E2 E3)
        as (st2 & Hs2 & _ & Hh2 & _ & _ & _ & _ & Htr2).
      rewrite Hs2 in Hs. injection Hs as <-. eexists. split; [exact Hh2|].
      rewrite Htr2, !task_events_app, task_events_logs, Hbefore. simpl.
      by rewrite <- app_assoc.
Qed.

(** X13. Tasks in a round of the supervisor. A round that gives its request
    up (empty manifest, or no record for the name) creates and deletes no
    task. A round that goes through deletes the task of the application
    before, if there is one, then creates exactly one task, whose handle it
    keeps. *)
Theorem round_task_events (P : platform) (st : state) (am : AppMessage) (o : outcome) :
  app_thread_body P st am = Some o →
  match o with
  | Returned st' =>
      task_events (trace st') = task_events (trace st)
      ∧ _app_task_handle st' = _app_task_handle st
  | Continue st' =>
      ∃ t, _app_task_handle st' = Some t
        ∧ task_events (trace st')
          = task_events (trace st)
            ++ match _app_task_handle st with
               | Some t0 => [EvTaskDelete t0]
               | None => []
               end
            ++ [EvTaskCreate t]
  end.
Proof. apply app_thread_body_tasks. Qed.

Lemma round_task_events_witness :
  ∃ st', app_thread_body big_bss_board big_start_state (start_message "BigApp")
           = Some (Continue st')
    ∧ ∃ t, _app_task_handle st' = Some t
        ∧ task_events (trace st')
          = task_events (trace big_start_state)
            ++ match _app_task_handle big_start_state with
               | Some t0 => [EvTaskDelete t0]
               | None => []
               end
            ++ [EvTaskCreate t].
Proof.
  eexists. split; [vm_compute; reflexivity|].
  exact (round_task_events big_bss_board big_start_state (start_message "BigApp") _
           ltac:(vm_compute; reflexivity)).
Defined.

(** X14. From power-up to the launcher. When the two allocations for the
    System record succeed, whatever happens to those after them and
    whatever the flash holds, [appmanager_init] followed by the first run
    of the supervisor ends with the supervisor back in its receive, System
    (the head of the manifest) the running application, its task created
    at [systemapp_main], and both queues empty: the Quit that
    [appmanager_init] posted is dropped by the queue reset. *)
Theorem boot_starts_system (P : platform) (plan : list bool) :
  plan_ok 2 plan →
  ∃ st st', appmanager_init P (boot P plan) = Some st
    ∧ _appmanager_app_thread P st = Some (Blocked, st')
    ∧ _running_app st' = app_manager_get_apps_head st'
    ∧ builtin_record (heap st') (_running_app st') "System" APP_TYPE_SYSTEM
        (systemapp_main P)
    ∧ _app_task_handle st'
      = Some (mkTask (systemapp_main P) "dynapp" (MAX_APP_STACK_SIZE P)
                (tskIDLE_PRIORITY P + 6)
                (arena_base P + 4 * (MAX_APP_MEMORY_SIZE P / 4 - MAX_APP_STACK_SIZE P)))
    ∧ _app_message_queue st' = Some (mkQueue 5 [])
    ∧ _app_thread_queue st' = Some (mkQueue 1 []).
Proof.
  intros Hplan.
  destruct (add_new_ok (boot P plan) [] "System" APP_TYPE_SYSTEM (systemapp_main P)
              true 0 0 (boot_manifest P plan) (boot_heap_ok P plan) Hplan)
    as (st1 & H1 & Hok1 & _ & _ & Hm1 & Hr1 & _).
  simpl in Hm1, Hr1.
  destruct (add_new_grows st1 _ "Simple" APP_TYPE_FACE (simple_main P) true 0 Hm1 Hok1)
    as (st2 & H2 & G2).
  pose proof G2 as (e2 & Hm2 & Hok2 & Hk2 & _).
  destruct (add_new_grows st2 _ "NiVZ" APP_TYPE_FACE (nivz_main P) true 0 Hm2 Hok2)
    as (st3 & H3 & G3).
  pose proof G3 as (e3 & Hm3 & Hok3 & Hk3 & _).
  destruct (scan_from_grows P 32 0 (set_task_handle st3 None) _ Hm3 Hok3)
    as (st4 & H4 & G4).
  pose proof G4 as (e4 & Hm4 & Hok4 & Hk4 & _). simpl in Hk4.
  destruct (init_result P _ _ _ _ _ H1 H2 H3 H4)
    as (st & Hinit & Hsame & _ & _ & Hth & _ & Hmq & Htq & _).
  destruct (keeps_trans _ _ _ Hk2 (keeps_trans _ _ _ Hk3 Hk4) 1 _ Hr1) as [n Hn].
  set (a := set_next (mkApp (cstr "System") APP_TYPE_SYSTEM (systemapp_main P)
                        NULL NULL 0 true) n) in Hn.
  set (stq := set_thread_queue st (Some (mkQueue 1 []))).
  assert (same_store st4 stq) as Hsq by (destruct Hsame as (? & ? & ?); by repeat split).
  pose proof (same_store_manifest _ _ _ Hsq Hm4) as Hmq'. simpl in Hmq'.
  assert (heap stq !! 1 = Some a) as Ha by (destruct Hsq as (-> & _); exact Hn).
  destruct (get_app_spec stq _ "System" Hmq') as (r & st'' & Hget & Hfirst & _).
  assert (r = 1) as ->.
  { eapply first_match_unique; [exact Hfirst|].
    right. exists 0%nat. split_and!; [done| |intros; lia].
    exists a. split; [done|]. apply is_prefix_refl. }
  pose proof (app_thread_body_found P stq "System" _ 1 st'' a Hmq Hget ltac:(done) Ha)
    as Hbody.
  simpl in Hbody.
  destruct (before_spawn_fields stq (mkQueue 5 [quit_message]) 1)
    as (Hrun & Hq & Htq' & _ & _).
  destruct (before_spawn_store stq (mkQueue 5 [quit_message]) 1) as (Hh & _ & Hhd).
  destruct (spawn_internal_result P (before_spawn stq (mkQueue 5 [quit_message]) 1) a)
    as (st' & Hs & (Hh' & _ & Hhd') & Hrun' & _ & Hq' & Htq'' & Hth' & _);
    [by rewrite Hrun, Hh|].
  rewrite Hs in Hbody. simpl in Hbody.
  exists st, st'. split; [exact Hinit|].
  split.
  { unfold _appmanager_app_thread. rewrite Htq. simpl. fold stq.
    rewrite Hbody. done. }
  assert (_running_app st' = 1) as Hr' by congruence.
  split_and!.
  - rewrite Hr'. unfold app_manager_get_apps_head. rewrite Hhd', Hhd.
    apply manifest_lseg in Hmq'. symmetry. by eapply lseg_head.
  - rewrite Hr', Hh', Hh. exists a. by split_and!.
  - rewrite Hth'. done.
  - by rewrite Hq', Hq.
  - by rewrite Htq'', Htq'.
Qed.

Lemma boot_starts_system_witness :
  plan_ok 2 [true; true; false]
  ∧ ∃ st st', appmanager_init bare_board (boot bare_board [true; true; false]) = Some st
      ∧ _appmanager_app_thread bare_board st = Some (Blocked, st')
      ∧ _running_app st' = app_manager_get_apps_head st'
      ∧ builtin_record (heap st') (_running_app st') "System" APP_TYPE_SYSTEM
          (systemapp_main bare_board)
      ∧ _app_task_handle st'
        = Some (mkTask (systemapp_main bare_board) "dynapp" (MAX_APP_STACK_SIZE bare_board)
                  (tskIDLE_PRIORITY bare_board + 6)
                  (arena_base bare_board
                   + 4 * (MAX_APP_MEMORY_SIZE bare_board / 4
                          - MAX_APP_STACK_SIZE bare_board)))
      ∧ _app_message_queue st' = Some (mkQueue 5 [])
      ∧ _app_thread_queue st' = Some (mkQueue 1 []).
Proof.
  assert (plan_ok 2 [true; true; false]) as H
    by (unfold plan_ok; simpl; repeat constructor).
  split; [exact H|]. exact (boot_starts_system bare_board [true; true; false] H).
Defined.

(** X15. A start request that finds the thread queue full. The Quit still
    goes to the message queue (when that has room), but the start request
    is dropped after the 100 tick wait: the thread queue is as it was, and
    the supervisor will start what was asked for earlier, not [nm]. *)
Theorem start_on_full_thread_queue (st : state) (nm : string) (q mq : queue) :
  _app_thread_queue st = Some q → (q_cap q ≤ length (q_items q))%nat →
  _app_message_queue st = Some mq →
  ∃ st', appmanager_app_start st nm = Some st'
    ∧ _app_thread_queue st' = Some q
    ∧ _app_message_queue st' = Some (xQueueSendToBack mq quit_message).2
    ∧ trace st' = trace st
        ++ [EvSend MessageQueue quit_message 10 (xQueueSendToBack mq quit_message).1;
            EvSend ThreadQueue (start_message nm) 100 false].
Proof.
  intros Htq Hfull Hmq. unfold appmanager_app_start, appmanager_app_quit.
  rewrite Hmq. simpl.
  destruct (xQueueSendToBack mq quit_message) as [sent mq'] eqn:Es. simpl.
  rewrite Htq. simpl. unfold xQueueSendToBack.
  destruct (length (q_items q) <? q_cap q)%nat eqn:El.
  { apply Nat.ltb_lt in El. lia. }
  eexists. split; [reflexivity|]. simpl. split_and!; try done.
  by rewrite <- app_assoc.
Qed.

Lemma start_on_full_thread_queue_witness :
  ∃ q mq st',
    _app_thread_queue (mem (booted bare_board)) = Some q
    ∧ (q_cap q ≤ length (q_items q))%nat
    ∧ _app_message_queue (mem (booted bare_board)) = Some mq
    ∧ appmanager_app_start (mem (booted bare_board)) "Simple" = Some st'
    ∧ _app_thread_queue st' = Some q
    ∧ q_items q = [start_message "System"].
Proof.
  destruct (start_on_full_thread_queue (mem (booted bare_board)) "Simple"
              (mkQueue 1 [start_message "System"]) (mkQueue 5 [quit_message])
              ltac:(vm_compute; reflexivity) ltac:(simpl; lia)
              ltac:(vm_compute; reflexivity))
    as (st' & Hs & Hq & _).
  exists (mkQueue 1 [start_message "System"]), (mkQueue 5 [quit_message]), st'.
  split; [vm_compute; reflexivity|]. split; [simpl; lia|].
  split; [vm_compute; reflexivity|]. split; [exact Hs|]. split; [exact Hq|].
  reflexivity.
Defined.

(** X16. A start request on an empty manifest. The supervisor resets the
    message queue, logs "No Apps found!", hits the assertion and returns:
    no task is created or deleted, the running application and the task
    handle stay as they were, and the requests behind this one stay in the
    thread queue, never to be read. *)
Theorem empty_manifest_ends_supervisor (P : platform) (st : state) (cap : nat)
    (nm : string) (rest : list AppMessage) (mq : queue) :
  _app_manifest_head st = NULL →
  _app_thread_queue st = Some (mkQueue cap (start_message nm :: rest)) →
  _app_message_queue st = Some mq →
  ∃ st', _appmanager_app_thread P st = Some (Exited, st')
    ∧ trace st' = trace st
        ++ [EvLog "Starting app %s"; EvQueueReset MessageQueue;
            EvLog "No Apps found!"; EvAssert "No Apps"]
    ∧ _app_thread_queue st' = Some (mkQueue cap rest)
    ∧ _app_message_queue st' = Some (mkQueue (q_cap mq) [])
    ∧ _running_app st' = _running_app st
    ∧ _app_task_handle st' = _app_task_handle st
    ∧ app_stack_heap st' = app_stack_heap st.
Proof.
  intros Hhd Htq Hmq. unfold _appmanager_app_thread. rewrite Htq. simpl.
  unfold app_thread_body. simpl. rewrite Hmq. simpl. rewrite Hhd. simpl.
  eexists. split; [reflexivity|]. simpl. split_and!; try done.
  by rewrite <- !app_assoc.
Qed.

Lemma empty_manifest_ends_supervisor_witness :
  _app_manifest_head no_memory_state = NULL
  ∧ ∃ st', _appmanager_app_thread bare_board no_memory_state = Some (Exited, st')
      ∧ trace st' = trace no_memory_state
          ++ [EvLog "Starting app %s"; EvQueueReset MessageQueue;
              EvLog "No Apps found!"; EvAssert "No Apps"].
Proof.
  split; [reflexivity|].
  destruct (empty_manifest_ends_supervisor bare_board no_memory_state 1 "System" []
              (mkQueue 5 [quit_message])
              ltac:(vm_compute; reflexivity) ltac:(vm_compute; reflexivity)
              ltac:(vm_compute; reflexivity)) as (st' & H & Htr & _).
  exists st'. split; [exact H | exact Htr].
Defined.

(** ** The application task *)

Section LoopFacts.

Variable E : app_env.

Implicit Types (st : state) (ui : list ui_call).

Lemma event_loop_run_S fuel (w : world) :
  event_loop_run E (S fuel) w
  = (q ← _app_message_queue w.1;
     match q_items q with
     | [] => Some (Waiting, w)
     | data :: rest =>
         r ← dispatch E data (set_message_queue w.1 (Some (mkQueue (q_cap q) rest)), w.2);
         match r with
         | (Quitted, w') => Some (Quitted, w')
         | (Waiting, w') => event_loop_run E fuel w'
         end
     end).
Proof. reflexivity. Qed.

(** Posting a burst of button messages: what fits the queue is appended in
    order, the rest is dropped. *)
Lemma post_buttons_spec bs st cap items :
  _app_message_queue st = Some (mkQueue cap items) → (length items ≤ cap)%nat →
  ∃ st', post_buttons st bs = Some st'
    ∧ _app_message_queue st'
      = Some (mkQueue cap (take cap (items ++ (button_message <$> bs))))
    ∧ same_store st st'
    ∧ _running_app st' = _running_app st
    ∧ _app_task_handle st' = _app_task_handle st
    ∧ _app_thread_queue st' = _app_thread_queue st.
Proof.
  revert st items. induction bs as [|b bs IH]; intros st items Hq Hlen; simpl.
  - exists st. rewrite app_nil_r, firstn_all2 by lia. split_and!; try done; apply same_store_refl.
  - unfold appmanager_post_button_message. rewrite Hq. simpl.
    unfold xQueueSendToBack. simpl.
    destruct (length items <? cap)%nat eqn:El; simpl.
    + apply Nat.ltb_lt in El.
      edestruct (IH (emit (set_message_queue st
                             (Some (mkQueue cap (items ++ [button_message b]))))
                       (EvSend MessageQueue (button_message b) 10 true))
                   (items ++ [button_message b]))
        as (st' & Hp & Hq' & Hs & Hr & Ht & Htq); [done|rewrite length_app; simpl; lia|].
      exists st'. split; [exact Hp|]. rewrite <- app_assoc in Hq'.
      split_and!; try done.
      all: destruct Hs as (? & ? & ?); by repeat split.
    + apply Nat.ltb_ge in El.
      edestruct (IH (emit (set_message_queue st (Some (mkQueue cap items)))
                       (EvSend MessageQueue (button_message b) 10 false)) items)
        as (st' & Hp & Hq' & Hs & Hr & Ht & Htq); [done|done|].
      exists st'. split; [exact Hp|].
      rewrite take_app_le in Hq' by lia. rewrite take_app_le by lia.
      split_and!; try done.
      all: destruct Hs as (? & ? & ?); by repeat split.
Qed.

(** The loop on a queue of button messages whose callbacks leave the
    manager alone: one callback per message, oldest first, then the loop
    waits on the empty queue. *)
Lemma event_loop_buttons bs fuel st ui cap :
  _app_message_queue st = Some (mkQueue cap (button_message <$> bs)) →
  (∀ b w, b ∈ bs → call_handler (bm_callback (button_at E b)) w = Some w) →
  (length bs < fuel)%nat →
  ∃ st', event_loop_run E fuel (st, ui)
         = Some (Waiting, (st', ui ++ (UiButtonCallback <$> bs)))
    ∧ _app_message_queue st' = Some (mkQueue cap [])
    ∧ same_store st st'
    ∧ trace st' = trace st
    ∧ _running_app st' = _running_app st
    ∧ _app_task_handle st' = _app_task_handle st
    ∧ _app_thread_queue st' = _app_thread_queue st.
Proof.
  revert fuel st ui. induction bs as [|b bs IH]; intros fuel st ui Hq Hquiet Hfuel.
  - destruct fuel as [|fuel]; [simpl in Hfuel; lia|].
    rewrite event_loop_run_S. simpl. rewrite Hq. simpl.
    exists st. rewrite app_nil_r. split_and!; try done; apply same_store_refl.
  - destruct fuel as [|fuel]; [simpl in Hfuel; lia|].
    rewrite event_loop_run_S. simpl. rewrite Hq. simpl.
    unfold dispatch. simpl.
    rewrite Hquiet by apply list_elem_of_here. simpl.
    edestruct (IH fuel (set_message_queue st (Some (mkQueue cap (button_message <$> bs))))
                 (ui ++ [UiButtonCallback b]))
      as (st' & Hrun & Hq' & Hs & Htr & Hr & Ht & Htq).
    + done.
    + intros b' w Hb'. apply Hquiet. by apply list_elem_of_further.
    + simpl in Hfuel. lia.
    + exists st'. split.
      { etransitivity; [exact Hrun|]. by rewrite <- app_assoc. }
      split_and!; try done.
      all: destruct Hs as (? & ? & ?); by repeat split.
Qed.

End LoopFacts.

(** X17. A burst of button presses. Posted to an empty message queue of
    capacity [cap] and handled by an event loop whose callbacks for them
    leave the manager alone, the presses are called back in the order they
    were posted, and only the first [cap] of them: the later ones found the
    queue full and were dropped by [appmanager_post_button_message]. The
    loop then waits on the empty queue. *)
Theorem button_burst_in_order (E : app_env) (st : state) (ui : list ui_call)
    (cap fuel : nat) (bs : list Z) :
  _app_message_queue st = Some (mkQueue cap []) →
  (∀ b w, b ∈ bs → call_handler (bm_callback (button_at E b)) w = Some w) →
  (length bs < fuel)%nat →
  ∃ st1 st2, post_buttons st bs = Some st1
    ∧ event_loop_run E fuel (st1, ui)
      = Some (Waiting, (st2, ui ++ (UiButtonCallback <$> take cap bs)))
    ∧ _app_message_queue st2 = Some (mkQueue cap []).
Proof.
  intros Hq Hquiet Hfuel.
  destruct (post_buttons_spec bs st cap [] Hq ltac:(simpl; lia))
    as (st1 & Hp & Hq1 & _).
  simpl in Hq1. rewrite <- fmap_take in Hq1.
  destruct (event_loop_buttons E (take cap bs) fuel st1 ui cap Hq1)
    as (st2 & Hrun & Hq2 & _).
  - intros b w Hb. apply Hquiet. apply elem_of_take in Hb as (i & Hi & _).
    by eapply list_elem_of_lookup_2.
  - rewrite length_take. lia.
  - by exists st1, st2.
Qed.

Lemma button_burst_in_order_witness :
  ∃ st1 st2,
    post_buttons system_running_state [3; 4; 5; 6; 7; 8; 9] = Some st1
    ∧ event_loop_run sample_env 8 (st1, [])
      = Some (Waiting, (st2, UiButtonCallback <$> [3; 4; 5; 6; 7]))
    ∧ _app_message_queue st2 = Some (mkQueue 5 []).
Proof.
  exact (button_burst_in_order sample_env system_running_state [] 5 8
           [3; 4; 5; 6; 7; 8; 9]
           ltac:(vm_compute; reflexivity)
           ltac:(intros b w Hb;
                 repeat (apply elem_of_cons in Hb as [->|Hb]; [reflexivity|]);
                 by apply elem_of_nil in Hb)
           ltac:(simpl; lia)).
Defined.

(** X18. The select button on a watchface. With a face running, room in
    the thread queue, and the press the only message pending, the event
    loop subscribes the select handler on entry, calls it back for the
    press, and the handler's [appmanager_app_start("System")] ends the very
    loop it runs in: the Quit it posted is the next message read. The loop
    calls [vTaskDelete] on [_app_task_handle] whatever it holds (the task
    in the handle is deleted, or the calling task when the handle is null),
    the handle stays as it was, and the request for System waits in the
    thread queue. *)
Theorem select_click_leaves_face (E : app_env) (st : state) (ui : list ui_call)
    (a : App) (b : Z) (cap fuel : nat) (tq : queue) :
  heap st !! _running_app st = Some a → type a = APP_TYPE_FACE →
  bm_callback (button_at E b) = HSelectSingleClick →
  _app_message_queue st = Some (mkQueue cap [button_message b]) → (0 < cap)%nat →
  _app_thread_queue st = Some tq → (length (q_items tq) < q_cap tq)%nat →
  ∃ st', app_event_loop E (S (S fuel)) (st, ui)
         = Some (Quitted,
                 (st', ui ++ [UiWindowLoadProc; UiWindowLoadClickConfig;
                              UiSubscribeSelect; UiWindowDirty; UiButtonCallback b;
                              UiButtonUnsubscribeAll; UiTimeServiceUnsubscribe]))
    ∧ _app_thread_queue st'
      = Some (mkQueue (q_cap tq) (q_items tq ++ [start_message "System"]))
    ∧ _app_message_queue st' = Some (mkQueue cap [])
    ∧ _app_task_handle st' = _app_task_handle st
    ∧ _running_app st' = _running_app st
    ∧ task_events (trace st')
      = task_events (trace st)
        ++ [match _app_task_handle st with
            | Some t => EvTaskDelete t
            | None => EvTaskDeleteSelf
            end].
Proof.
  intros Ha Hty Hcb Hmq Hcap Htq Hroom.
  unfold app_event_loop, app_event_loop_enter. simpl. rewrite Ha. simpl.
  rewrite Hty. simpl.
  rewrite Hmq. simpl.
  unfold dispatch. simpl. rewrite Hcb. simpl.
  unfold app_select_single_click_handler. simpl. rewrite Ha. simpl. rewrite Hty. simpl.
  unfold appmanager_app_start, appmanager_app_quit. simpl.
  unfold xQueueSendToBack. simpl.
  apply Nat.ltb_lt in Hcap. rewrite Hcap. simpl. rewrite Htq. simpl.
  apply Nat.ltb_lt in Hroom. rewrite Hroom. simpl.
  destruct (_app_task_handle st) as [t|] eqn:Et; simpl.
  - eexists. split.
    { rewrite <- !app_assoc. simpl. reflexivity. }
    simpl. split_and!; try done.
    rewrite !task_events_app. simpl. by rewrite ?app_nil_r.
  - eexists. split.
    { rewrite <- !app_assoc. simpl. reflexivity. }
    simpl. split_and!; try done.
    rewrite !task_events_app. simpl. by rewrite ?app_nil_r.
Qed.

Lemma select_click_leaves_face_witness :
  ∃ st', app_event_loop sample_env 2 (clicked_face_state, [])
         = Some (Quitted,
                 (st', [UiWindowLoadProc; UiWindowLoadClickConfig; UiSubscribeSelect;
                        UiWindowDirty; UiButtonCallback 1; UiButtonUnsubscribeAll;
                        UiTimeServiceUnsubscribe]))
    ∧ _app_thread_queue st' = Some (mkQueue 1 [start_message "System"]).
Proof.
  destruct (select_click_leaves_face sample_env clicked_face_state []
              (mkApp "Simple" APP_TYPE_FACE 1002 0 5 0 true) 1 5 0 (mkQueue 1 [])
              ltac:(vm_compute; reflexivity) eq_refl eq_refl
              ltac:(vm_compute; reflexivity) ltac:(lia)
              ltac:(vm_compute; reflexivity) ltac:(simpl; lia))
    as (st' & H & Htq & _).
  exists st'. split; [exact H | exact Htq].
Defined.

(** X19. The task handle outlives its task. An event loop that reads a
    Quit deletes the task in [_app_task_handle] and leaves the handle set;
    a round of the supervisor that comes after it and starts an application
    deletes that same task once more before it creates the new one. *)
Theorem quit_then_round_deletes_twice (P : platform) (E : app_env) (st : state)
    (ui : list ui_call) (t : task) (cap fuel : nat) (rest : list AppMessage) :
  _app_task_handle st = Some t →
  _app_message_queue st = Some (mkQueue cap (quit_message :: rest)) →
  ∃ st1 ui1, event_loop_run E (S fuel) (st, ui) = Some (Quitted, (st1, ui1))
    ∧ _app_task_handle st1 = Some t
    ∧ _app_message_queue st1 = Some (mkQueue cap rest)
    ∧ task_events (trace st1) = task_events (trace st) ++ [EvTaskDelete t]
    ∧ ∀ tq am st2,
        app_thread_body P (set_thread_queue st1 tq) am = Some (Continue st2) →
        ∃ t', task_events (trace st2)
              = task_events (trace st)
                ++ [EvTaskDelete t; EvTaskDelete t; EvTaskCreate t'].
Proof.
  intros Ht Hmq. rewrite event_loop_run_S. simpl. rewrite Hmq. simpl.
  unfold dispatch. simpl. rewrite Ht.
  eexists _, _. split; [reflexivity|]. simpl.
  assert (task_events (trace st ++ [EvLog "App Quit"] ++ [EvTaskDelete t])
          = task_events (trace st) ++ [EvTaskDelete t]) as Htr
    by (rewrite !task_events_app; done).
  split_and!; try done.
  - by rewrite <- app_assoc.
  - intros tq am st2 Hb. apply app_thread_body_tasks in Hb as (t' & _ & Hb).
    exists t'. rewrite Hb. simpl. rewrite Ht, <- !app_assoc, Htr.
    by rewrite <- app_assoc.
Qed.

Lemma quit_then_round_deletes_twice_witness :
  ∃ st1 ui1 st2 t',
    event_loop_run sample_env 1 (quit_pending_state, []) = Some (Quitted, (st1, ui1))
    ∧ app_thread_body bare_board (set_thread_queue st1 (Some (mkQueue 1 [])))
        (start_message "Simple") = Some (Continue st2)
    ∧ task_events (trace st2)
      = task_events (trace quit_pending_state)
        ++ [EvTaskDelete (mkTask 1001 "dynapp" 4 6 536870960);
            EvTaskDelete (mkTask 1001 "dynapp" 4 6 536870960); EvTaskCreate t'].
Proof.
  destruct (quit_then_round_deletes_twice bare_board sample_env quit_pending_state []
              (mkTask 1001 "dynapp" 4 6 536870960) 5 0 []
              ltac:(vm_compute; reflexivity) ltac:(vm_compute; reflexivity))
    as (st1 & ui1 & Hrun & _ & _ & _ & Hnext).
  exists st1, ui1.
  assert (∃ st2, app_thread_body bare_board (set_thread_queue st1 (Some (mkQueue 1 [])))
                   (start_message "Simple") = Some (Continue st2)) as [st2 Hb].
  { vm_compute in Hrun. injection Hrun as <- <-. eexists. vm_compute. reflexivity. }
  destruct (Hnext _ _ _ Hb) as [t' Ht'].
  exists st2, t'. split; [exact Hrun|]. split; [exact Hb | exact Ht'].
Defined.



(** ** The two queues over time *)

Section QueueFacts.

Variable P : platform.

Implicit Types (st : state).











End QueueFacts.




(** X22. The long press of the back button. Bound to
    [back_long_click_handler] and the only message pending, the press does
    one of two things. In the launcher the handler asks for the watchface
    Simple, and the Quit of that request ends the loop. In a watchface the
    handler logs and nothing else happens: no message is sent to either
    queue and the loop goes back to waiting. *)
Theorem back_long_click_by_type (E : app_env) (st : state) (ui : list ui_call)
    (a : App) (b : Z) (cap fuel : nat) (tq : queue) :
  heap st !! _running_app st = Some a →
  bm_callback (button_at E b) = HBackLongClick →
  _app_message_queue st = Some (mkQueue cap [button_message b]) → (0 < cap)%nat →
  _app_thread_queue st = Some tq → (length (q_items tq) < q_cap tq)%nat →
  match type a with
  | APP_TYPE_SYSTEM =>
      ∃ st', event_loop_run E (S (S fuel)) (st, ui)
             = Some (Quitted,
                     (st', ui ++ [UiButtonCallback b; UiButtonUnsubscribeAll;
                                  UiTimeServiceUnsubscribe]))
        ∧ _app_thread_queue st'
          = Some (mkQueue (q_cap tq) (q_items tq ++ [start_message "Simple"]))
        ∧ _app_message_queue st' = Some (mkQueue cap [])
  | APP_TYPE_FACE =>
      ∃ st', event_loop_run E (S (S fuel)) (st, ui)
             = Some (Waiting, (st', ui ++ [UiButtonCallback b]))
        ∧ _app_thread_queue st' = Some tq
        ∧ _app_message_queue st' = Some (mkQueue cap [])
        ∧ trace st' = trace st ++ [EvLog "TODO: Quiet time"]
  end.
Proof.
  intros Ha Hcb Hmq Hcap Htq Hroom.
  destruct (type a) eqn:Hty.
  - simpl. rewrite Hmq. simpl. unfold dispatch. simpl. rewrite Hcb. simpl.
    unfold back_long_click_handler. simpl. rewrite Ha. simpl. rewrite Hty. simpl.
    unfold appmanager_app_start, appmanager_app_quit. simpl.
    unfold xQueueSendToBack. simpl.
    apply Nat.ltb_lt in Hcap. rewrite Hcap. simpl. rewrite Htq. simpl.
    apply Nat.ltb_lt in Hroom. rewrite Hroom. simpl.
    destruct (_app_task_handle st) as [t|] eqn:Et; simpl.
    + eexists. split; [rewrite <- !app_assoc; simpl; reflexivity|]. simpl. done.
    + eexists. split; [rewrite <- !app_assoc; simpl; reflexivity|]. simpl. done.
  - simpl. rewrite Hmq. simpl. unfold dispatch. simpl. rewrite Hcb. simpl.
    unfold back_long_click_handler. simpl. rewrite Ha. simpl. rewrite Hty. simpl.
    eexists. split; [reflexivity|]. simpl. done.
Qed.

Lemma back_long_click_by_type_witness :
  ∃ st', event_loop_run sample_env 2 (long_press_state, [])
         = Some (Quitted,
                 (st', [UiButtonCallback 2; UiButtonUnsubscribeAll;
                        UiTimeServiceUnsubscribe]))
    ∧ _app_thread_queue st' = Some (mkQueue 1 [start_message "Simple"])
    ∧ _app_message_queue st' = Some (mkQueue 5 []).
Proof.
  exact (back_long_click_by_type sample_env long_press_state []
           (mkApp "System" APP_TYPE_SYSTEM 1001 0 3 0 true) 2 5 0 (mkQueue 1 [])
           ltac:(vm_compute; reflexivity) eq_refl
           ltac:(vm_compute; reflexivity) ltac:(lia)
           ltac:(vm_compute; reflexivity) ltac:(simpl; lia)).
Defined.
